(** * Wallet migration: the consolidation planner

    A shallow embedding of the three planning phases of [main.go]
    (gas redistribution, token sweep, balance drain) and of the way [main]
    runs and sends them, of package [Accounts] (the account model and the
    derivation of the accounts) and of package [RPC] (token discovery,
    balance refresh, awaiting), followed by the properties claimed of them.

    Conventions.
    - [big.Int] values are [Z].  [uint64] fields are [Z] with the
      wrap-around written where the code can overflow ([Nonce += 1],
      [int64(GasLimit)]).
    - Every account owns its [Balance], [Available] and
      [TotalAssetTransfer] cells ([accountsFromMnemonic] and
      [accountFromPrivateKey] allocate them per account), so a copy of an
      [Account] struct placed in another slice observes the writes made
      through the original; the value model below therefore threads the
      updated accounts explicitly.  Module [Store] keeps the cells in an
      explicit store for the phase whose claim is about the absence of
      writes.
    - [sort.Slice] is outside the repository.  The Go library sorts a slice
      of at most twelve elements by insertion sort; [sortSlice] is that
      routine, driven by the [less] closure the caller passes.
    - [types.SignTx] is outside the repository: signing is a parameter
      that may fail.
    - The node, the token contracts and the key libraries are outside the
      repository too.  Their answers are parameters of the sections that
      use them; what the program sends, prints and waits for is recorded
      in a trace of events, and the node is a state that sending and
      waiting change.
    - The order in which [range] visits a Go map is left open by the
      language; it is a parameter, and the properties that depend on it
      assume no more than that every entry is visited once. *)

From Stdlib Require Import Strings.Ascii Strings.String Strings.Byte.
From Stdlib Require Import ZArith List Lia Bool Permutation Sorted Floats.
From Equations Require Import Equations.
Import ListNotations.
Local Open Scope Z_scope.

Set Implicit Arguments.

(** ** Ledger value types *)

Module common.
(** [common.Address] is a 20-byte array, [common.Hash] a 32-byte one. *)
Definition Address := list byte.
Definition AddressLength : nat := 20.
Definition HashLength : nat := 32.
End common.

Definition byte_of_Z (z : Z) : byte :=
  match Byte.of_N (Z.to_N (z mod 256)) with
  | Some b => b
  | None => x00
  end.

Definition Z_of_byte (b : byte) : Z := Z.of_N (Byte.to_N b).

(** ** golang.org/x/crypto/sha3: legacy Keccak-256

    The sponge over Keccak-f[1600] with rate 136 and the pre-standard
    padding byte 0x01.  The state is the list of its 25 lanes, lane (x, y)
    at index x + 5 y. *)

Module sha3.
Definition mask64 : Z := 2 ^ 64 - 1.

Definition rotl64 (x : Z) (n : Z) : Z :=
  Z.land (Z.lor (Z.shiftl x n) (Z.shiftr x (64 - n))) mask64.

Definition roundConstants : list Z :=
  [0x0000000000000001; 0x0000000000008082; 0x800000000000808A;
   0x8000000080008000; 0x000000000000808B; 0x0000000080000001;
   0x8000000080008081; 0x8000000000008009; 0x000000000000008A;
   0x0000000000000088; 0x0000000080008009; 0x000000008000000A;
   0x000000008000808B; 0x800000000000008B; 0x8000000000008089;
   0x8000000000008003; 0x8000000000008002; 0x8000000000000080;
   0x000000000000800A; 0x800000008000000A; 0x8000000080008081;
   0x8000000000008080; 0x0000000080000001; 0x8000000080008008].

Definition rotationOffsets : list Z :=
  [ 0;  1; 62; 28; 27;
   36; 44;  6; 55; 20;
    3; 10; 43; 25; 39;
   41; 45; 15; 21;  8;
   18;  2; 61; 56; 14].

Definition lane (s : list Z) (x y : nat) : Z :=
  nth ((x mod 5) + 5 * (y mod 5))%nat s 0.

Definition lanes (f : nat -> nat -> Z) : list Z :=
  map (fun i => f (i mod 5)%nat (i / 5)%nat) (seq 0 25).

Definition theta (s : list Z) : list Z :=
  let c x := Z.lxor (lane s x 0) (Z.lxor (lane s x 1) (Z.lxor (lane s x 2)
               (Z.lxor (lane s x 3) (lane s x 4)))) in
  let d x := Z.lxor (c (x + 4)%nat) (rotl64 (c (x + 1)%nat) 1) in
  lanes (fun x y => Z.lxor (lane s x y) (d x)).

Definition rhoPi (s : list Z) : list Z :=
  lanes (fun x y =>
           let x0 := ((x + 3 * y) mod 5)%nat in
           rotl64 (lane s x0 x) (nth (x0 + 5 * x)%nat rotationOffsets 0)).

Definition chi (s : list Z) : list Z :=
  lanes (fun x y =>
           Z.lxor (lane s x y)
             (Z.land (Z.lxor (lane s (x + 1) y) mask64) (lane s (x + 2) y))).

Definition iota (rc : Z) (s : list Z) : list Z :=
  match s with
  | [] => []
  | a :: rest => Z.lxor a rc :: rest
  end.

Definition keccakF1600 (s : list Z) : list Z :=
  fold_left (fun s rc => iota rc (chi (rhoPi (theta s)))) roundConstants s.

Definition rate : nat := 136.

Fixpoint laneOfBytes (bs : list byte) : Z :=
  match bs with
  | [] => 0
  | b :: rest => Z_of_byte b + 256 * laneOfBytes rest
  end.

Fixpoint bytesOfLane (n : nat) (l : Z) : list byte :=
  match n with
  | O => []
  | S n' => byte_of_Z l :: bytesOfLane n' (l / 256)
  end.

Fixpoint lanesOfBlock (n : nat) (block : list byte) : list Z :=
  match n with
  | O => []
  | S n' => laneOfBytes (firstn 8 block) :: lanesOfBlock n' (skipn 8 block)
  end.

Fixpoint xorLanes (s b : list Z) : list Z :=
  match s, b with
  | x :: s', y :: b' => Z.lxor x y :: xorLanes s' b'
  | _, _ => s
  end.

Fixpoint absorb (blocks : nat) (s : list Z) (msg : list byte) : list Z :=
  match blocks with
  | O => s
  | S n =>
      absorb n (keccakF1600 (xorLanes s (lanesOfBlock 17 (firstn rate msg))))
        (skipn rate msg)
  end.

Definition pad (msg : list byte) : list byte :=
  let q := (rate - length msg mod rate)%nat in
  match q with
  | 1%nat => msg ++ [x81]
  | _ => msg ++ [x01] ++ repeat x00 (q - 2) ++ [x80]
  end.

(** [h := sha3.NewLegacyKeccak256(); h.Write(msg); h.Sum(nil)] *)
Definition LegacyKeccak256 (msg : list byte) : list byte :=
  let padded := pad msg in
  let s := absorb (length padded / rate) (repeat 0 25) padded in
  firstn 32 (flat_map (bytesOfLane 8) s).
End sha3.

(** ** Byte-level helpers of math/big and go-ethereum/common *)

(** The bytes of a nonnegative magnitude, least significant first,
    without trailing zero bytes. *)
Equations? magnitudeLE (n : Z) : list byte by wf (Z.to_nat n) lt :=
  magnitudeLE n with Z_le_dec n 0 := {
    | left _ := [];
    | right _ := byte_of_Z n :: magnitudeLE (n / 256) }.
Proof.
  assert (0 <= n / 256 < n)
    by (split; [apply Z.div_pos | apply Z.div_lt]; lia).
  lia.
Qed.

Module big.
(** Method [Bytes] of [big.Int]: the absolute value as a big-endian byte
    slice. *)
Definition Bytes (x : Z) : list byte := rev (magnitudeLE (Z.abs x)).
End big.

(** [common.LeftPadBytes(slice, l)] *)
Definition LeftPadBytes (slice : list byte) (l : nat) : list byte :=
  if (l <=? length slice)%nat then slice
  else repeat x00 (l - length slice) ++ slice.

(** [common.BytesToHash(b)], as the 32 bytes of the hash: [b] is cropped
    from the left when longer than a hash and right-aligned otherwise. *)
Definition BytesToHash (b : list byte) : list byte :=
  let b := skipn (length b - common.HashLength) b in
  repeat x00 (common.HashLength - length b) ++ b.

(** [a.Hash().Bytes()] for an address [a]. *)
Definition AddressHashBytes (a : common.Address) : list byte := BytesToHash a.

Definition uint64_modulus : Z := 2 ^ 64.

(** [int64(u)] for a [uint64] value [u]: the two's complement reading. *)
Definition int64_of_uint64 (u : Z) : Z :=
  if u <? 2 ^ 63 then u else u - uint64_modulus.

(** [u + 1] on [uint64]. *)
Definition uint64_succ (u : Z) : Z := (u + 1) mod uint64_modulus.

(** ** Package Accounts *)

Module Token.
Record t := mk {
  Contract : common.Address;
  Balance : Z;
  Symbol : string;
  Decimals : Z;
  GasLimit : Z   (* uint64 *)
}.

(** [func (self Token) TotalTransferPrice(gasPrice)] *)
Definition TotalTransferPrice (self : t) (gasPrice : Z) : Z :=
  gasPrice * int64_of_uint64 (GasLimit self).
End Token.

Module Account.
Record t := mk {
  PrivateKey : Z;
  PublicKey : Z;
  Address : common.Address;
  Tokens : list Token.t;
  Balance : Z;
  TotalAssetTransfer : Z;
  Available : Z;
  Nonce : Z;     (* uint64 *)
  ChainId : Z
}.

(** [func (self Account) TotalAssetTransferPrice(gasPrice)] *)
Definition TotalAssetTransferPrice (self : t) (gasPrice : Z) : Z :=
  gasPrice * TotalAssetTransfer self.

Definition set_Balance (a : t) (v : Z) : t :=
  mk (PrivateKey a) (PublicKey a) (Address a) (Tokens a) v
     (TotalAssetTransfer a) (Available a) (Nonce a) (ChainId a).

Definition set_Available (a : t) (v : Z) : t :=
  mk (PrivateKey a) (PublicKey a) (Address a) (Tokens a) (Balance a)
     (TotalAssetTransfer a) v (Nonce a) (ChainId a).

Definition set_Nonce (a : t) (v : Z) : t :=
  mk (PrivateKey a) (PublicKey a) (Address a) (Tokens a) (Balance a)
     (TotalAssetTransfer a) (Available a) v (ChainId a).

Definition set_Tokens (a : t) (v : list Token.t) : t :=
  mk (PrivateKey a) (PublicKey a) (Address a) v (Balance a)
     (TotalAssetTransfer a) (Available a) (Nonce a) (ChainId a).
End Account.

(** ** Transactions *)

Module Transaction.
(** The fields [types.NewTransaction(nonce, to, amount, gasLimit,
    gasPrice, data)] receives. *)
Record t := mk {
  Nonce : Z;
  To : common.Address;
  Value : Z;
  Gas : Z;
  GasPrice : Z;
  Data : list byte
}.
End Transaction.

(** Gas units of a plain native-currency transfer. *)
Definition transferGasUnits : Z := 21000.

(** What a call that may end the process ([log.Fatal]) or exhaust the
    recursion budget of the model yields. *)
Inductive run (A : Type) : Type :=
| Returned (a : A)
| Fatal
| OutOfFuel.
Arguments Returned {A} a.
Arguments Fatal {A}.
Arguments OutOfFuel {A}.

(** ** sort.Slice *)

Section SortSlice.
Variable A : Type.
Variable less : A -> A -> bool.

(** Inner loop of the insertion sort:
    [for j := i; j > a && less(j, j-1); j-- { swap(j, j-1) }].
    [before] is the already sorted prefix, nearest element first. *)
Fixpoint sinkLeft (x : A) (before : list A) : list A :=
  match before with
  | [] => [x]
  | p :: ps => if less x p then p :: sinkLeft x ps else x :: before
  end.

Definition sortSlice (l : list A) : list A :=
  rev (fold_left (fun before x => sinkLeft x before) l []).
End SortSlice.

(** ** Planners *)

Section Planner.
(** [types.SignTx(tx, types.NewEIP155Signer(chainId), privateKey)];
    [None] is a non-nil [err]. *)
Variable Signature : Type.
Variable SignTx : Transaction.t -> Z -> Z -> option Signature.

Record SignedTransaction := mkSigned {
  Tx : Transaction.t;
  Sig : Signature
}.

(** [RPC.TransactionWithOriginator] *)
Record TransactionWithOriginator := mkOriginated {
  Originator : common.Address;
  SignedTx : SignedTransaction
}.

(** *** Gas redistribution: [transferGas] *)

(** First loop of [transferGas]: every account gets its [Available]
    recomputed, and goes to [negatives] or [positives]. *)
Definition refreshAvailable (gasPrice : Z) (a : Account.t) : Account.t :=
  Account.set_Available a
    (Account.Balance a - Account.TotalAssetTransferPrice a gasPrice).

Definition isNegative (gasPrice : Z) (a : Account.t) : bool :=
  Account.TotalAssetTransferPrice a gasPrice >? Account.Balance a.

Fixpoint separate (gasPrice : Z) (accounts : list Account.t)
  : list Account.t * list Account.t :=
  match accounts with
  | [] => ([], [])
  | a :: rest =>
      let '(negatives, positives) := separate gasPrice rest in
      if isNegative gasPrice a
      then (refreshAvailable gasPrice a :: negatives, positives)
      else (negatives, refreshAvailable gasPrice a :: positives)
  end.

(** The two [less] closures handed to [sort.Slice]. *)
Definition lessPositives (i j : Account.t) : bool :=
  Account.Available i >=? Account.Available j.

Definition lessNegatives (i j : Account.t) : bool :=
  Account.Available i <=? Account.Available j.

(** Result of the body of the inner loop for one pair. *)
Inductive pairing : Type :=
| NoTransfer
| SignFailed
| Transfer (negative positive : Account.t) (tx : TransactionWithOriginator).

(** Body of [for y := range positives] for [negatives[x]] and
    [positives[y]] (lines 117-150, up to the recursive call). *)
Definition pair (gasPrice transferCost : Z) (negative positive : Account.t)
  : pairing :=
  let totalAmountNeeded := Account.TotalAssetTransferPrice negative gasPrice in
  let totalAmountNeededToTransfer := totalAmountNeeded + transferCost in
  let availableAfterTransfer :=
    Account.Available positive - totalAmountNeededToTransfer in
  let '(totalAmountNeeded, availableAfterTransfer) :=
    if availableAfterTransfer <? 0
    then (Account.Available positive - transferCost, 0)
    else (totalAmountNeeded, availableAfterTransfer) in
  if availableAfterTransfer >=? 0 then
    let tx := Transaction.mk (Account.Nonce positive) (Account.Address negative)
                totalAmountNeeded transferGasUnits gasPrice [] in
    match SignTx tx (Account.ChainId positive) (Account.PrivateKey positive) with
    | None => SignFailed
    | Some sig =>
        let positive1 :=
          Account.set_Balance positive
            (Account.Available positive - totalAmountNeededToTransfer) in
        let positive2 :=
          Account.set_Nonce positive1 (uint64_succ (Account.Nonce positive1)) in
        let negative1 :=
          Account.set_Balance negative
            (Account.Balance negative + totalAmountNeeded) in
        Transfer negative1 positive2
          (mkOriginated (Account.Address positive2) (mkSigned tx sig))
    end
  else NoTransfer.

(** What the two nested loops find: the slices with the matched pair
    updated in place, and the transaction; or nothing; or a fatal
    signing error. *)
Inductive matching : Type :=
| NoMatch
| MatchFatal
| Matched (negatives positives : list Account.t)
          (tx : TransactionWithOriginator).

(** [for y := range positives], from index [length passed] on. *)
Fixpoint forPositives (gasPrice transferCost : Z) (negative : Account.t)
    (passed rest : list Account.t)
  : option (option (Account.t * list Account.t * TransactionWithOriginator)) :=
  match rest with
  | [] => Some None
  | positive :: rest' =>
      match pair gasPrice transferCost negative positive with
      | NoTransfer =>
          forPositives gasPrice transferCost negative
            (passed ++ [positive]) rest'
      | SignFailed => None
      | Transfer negative' positive' tx =>
          Some (Some (negative', passed ++ positive' :: rest', tx))
      end
  end.

(** [for x := range negatives], from index [length passed] on. *)
Fixpoint forNegatives (gasPrice transferCost : Z)
    (passed rest positives : list Account.t) : matching :=
  match rest with
  | [] => NoMatch
  | negative :: rest' =>
      match forPositives gasPrice transferCost negative [] positives with
      | None => MatchFatal
      | Some None =>
          forNegatives gasPrice transferCost (passed ++ [negative]) rest'
            positives
      | Some (Some (negative', positives', tx)) =>
          Matched (passed ++ negative' :: rest') positives' tx
      end
  end.

(** [transferGas]; [fuel] bounds the depth of the recursion. *)
Fixpoint transferGas (fuel : nat) (gasPrice : Z) (accounts : list Account.t)
    (transactions : list TransactionWithOriginator)
  : run (list Account.t * list TransactionWithOriginator) :=
  match fuel with
  | O => OutOfFuel
  | S fuel' =>
      let '(negatives, positives) := separate gasPrice accounts in
      let accounts := map (refreshAvailable gasPrice) accounts in
      let positives := sortSlice lessPositives positives in
      let negatives := sortSlice lessNegatives negatives in
      let transferCost := gasPrice * transferGasUnits in
      match forNegatives gasPrice transferCost [] negatives positives with
      | NoMatch => Returned (accounts, transactions)
      | MatchFatal => Fatal
      | Matched negatives' positives' tx =>
          transferGas fuel' gasPrice (negatives' ++ positives')
            (transactions ++ [tx])
      end
  end.

(** *** Token sweep: [transferTokens] *)

Definition transferSignature : list byte :=
  list_byte_of_string "transfer(address,uint256)".

(** [methodID := hash.Sum(nil)[:4]] *)
Definition methodID : list byte :=
  firstn 4 (sha3.LegacyKeccak256 transferSignature).

(** The call data built on lines 170-173. *)
Definition transferData (destinationAddress : common.Address)
    (tokenBalance : Z) : list byte :=
  (methodID ++ AddressHashBytes destinationAddress)
    ++ LeftPadBytes (big.Bytes tokenBalance) 32.

(** The [less] closure of line 163. *)
Definition lessTokens (i j : Token.t) : bool :=
  Token.Balance i >=? Token.Balance j.

(** Body of [for y := range accounts[x].Tokens] for the token [token];
    the state is the account [accounts[x]] and the transactions so far. *)
Definition sweepToken (destinationAddress : common.Address) (gasPrice : Z)
    (st : Account.t * list TransactionWithOriginator) (token : Token.t)
  : Account.t * list TransactionWithOriginator :=
  let '(account, transactions) := st in
  let transferCost := gasPrice * int64_of_uint64 (Token.GasLimit token) in
  if Account.Balance account >=? transferCost then
    let data := transferData destinationAddress (Token.Balance token) in
    let tx := Transaction.mk (Account.Nonce account) (Token.Contract token) 0
                (Token.GasLimit token) gasPrice data in
    match SignTx tx (Account.ChainId account) (Account.PrivateKey account) with
    | None => (account, transactions)
    | Some sig =>
        let account1 :=
          Account.set_Nonce account (uint64_succ (Account.Nonce account)) in
        let account2 :=
          Account.set_Balance account1 (Account.Balance account1 - transferCost) in
        (account2,
         transactions ++ [mkOriginated (Account.Address account2) (mkSigned tx sig)])
    end
  else (account, transactions).

(** Body of [for x := range accounts]: the tokens are sorted in place,
    then swept in that order. *)
Definition sweepAccount (destinationAddress : common.Address) (gasPrice : Z)
    (account : Account.t) (transactions : list TransactionWithOriginator)
  : Account.t * list TransactionWithOriginator :=
  let tokens := sortSlice lessTokens (Account.Tokens account) in
  fold_left (sweepToken destinationAddress gasPrice) tokens
    (Account.set_Tokens account tokens, transactions).

(** [transferTokens]: the Go function returns the transactions and
    leaves the accounts updated in place; the model returns both. *)
Fixpoint transferTokens (destinationAddress : common.Address) (gasPrice : Z)
    (accounts : list Account.t) (transactions : list TransactionWithOriginator)
  : list Account.t * list TransactionWithOriginator :=
  match accounts with
  | [] => ([], transactions)
  | account :: rest =>
      let '(account', transactions') :=
        sweepAccount destinationAddress gasPrice account transactions in
      let '(rest', transactions'') :=
        transferTokens destinationAddress gasPrice rest transactions' in
      (account' :: rest', transactions'')
  end.

(** *** Balance drain: [getBalanceTx], [transferBalances] *)

(** The gas price is lowered by this much on every retry. *)
Definition gasPriceDecrement : Z := 1000000.

(** [getBalanceTx]; [Returned None] is the nil transaction. *)
Equations? getBalanceTx (destinationAddress : common.Address) (gasPrice : Z)
    (account : Account.t) : run (option SignedTransaction)
  by wf (Z.to_nat gasPrice) lt :=
  getBalanceTx destinationAddress gasPrice account
    with bool_dec
           ((Account.Balance account - gasPrice * transferGasUnits >? 0)
            && (gasPrice >? 0)) true := {
    | left _ :=
        let transferCost := gasPrice * transferGasUnits in
        let totalAmountToTransfer := Account.Balance account - transferCost in
        let tx := Transaction.mk (Account.Nonce account) destinationAddress
                    totalAmountToTransfer transferGasUnits gasPrice [] in
        match SignTx tx (Account.ChainId account) (Account.PrivateKey account) with
        | None => Fatal
        | Some sig => Returned (Some (mkSigned tx sig))
        end;
    | right _ with Z_gt_dec gasPrice 0 := {
        | left _ :=
            getBalanceTx destinationAddress (gasPrice - gasPriceDecrement)
              account;
        | right _ := Returned None } }.
Proof. unfold gasPriceDecrement. lia. Qed.

(** [client.PendingBalanceAt(ctx, address)]; [None] is a non-nil [err]. *)
Variable PendingBalanceAt : common.Address -> option Z.

(** [Client.GetPendingBalances] *)
Definition GetPendingBalances (accounts : list Account.t) : list Account.t :=
  map (fun a =>
         match PendingBalanceAt (Account.Address a) with
         | None => a
         | Some bal => Account.set_Balance a bal
         end) accounts.

(** The loop of [transferBalances]. *)
Fixpoint drain (destinationAddress : common.Address) (gasPrice : Z)
    (accounts : list Account.t) (transactions : list TransactionWithOriginator)
  : run (list TransactionWithOriginator) :=
  match accounts with
  | [] => Returned transactions
  | account :: rest =>
      match getBalanceTx destinationAddress gasPrice account with
      | Returned (Some signedTx) =>
          drain destinationAddress gasPrice rest
            (transactions ++ [mkOriginated (Account.Address account) signedTx])
      | Returned None => drain destinationAddress gasPrice rest transactions
      | Fatal => Fatal
      | OutOfFuel => OutOfFuel
      end
  end.

Definition transferBalances (destinationAddress : common.Address)
    (gasPrice : Z) (accounts : list Account.t) (simulate : bool)
    (transactions : list TransactionWithOriginator)
  : run (list TransactionWithOriginator) :=
  let accounts := if simulate then accounts else GetPendingBalances accounts in
  drain destinationAddress gasPrice accounts transactions.

End Planner.

(** ** Package RPC: the gas limit recorded for a token *)

Module RPC.
(** [float64(u)] for a [uint64] value [u] (round to nearest even). *)
Definition float64_of_uint64 (u : Z) : float :=
  SF2Prim (binary_normalize prec emax u 0 false).

(** [int64(f)]: truncation toward zero.  Go leaves the result open when
    the truncated value does not fit; the model wraps it. *)
Definition int64_of_float64 (f : float) : Z :=
  match Prim2SF f with
  | S754_finite s m e =>
      let magnitude :=
        if 0 <=? e then Z.pos m * 2 ^ e else Z.pos m / 2 ^ (- e) in
      int64_of_uint64 ((if s then - magnitude else magnitude) mod uint64_modulus)
  | _ => 0
  end.

(** [float64(1.7)]: the binary64 value nearest to 1.7. *)
Definition float64_1_7 : float := 0x1.b333333333333p+0%float.

(** [int64(float64(gasLimit) * float64(1.7))] *)
Definition inflated (gasLimit : Z) : Z :=
  int64_of_float64 (PrimFloat.mul (float64_of_uint64 gasLimit) float64_1_7).

(** The estimate used when [EstimateGas] fails. *)
Definition defaultGasLimit : Z := 40000.

(** Lines 158-166 of [getTokenTransfers]: [estimate] is the result of
    [client.EstimateGas], [None] when it returns an error. *)
Definition tokenTransferGas (estimate : option Z) (overrideGasLimit : Z) : Z :=
  let gasLimit :=
    match estimate with
    | Some gasLimit => gasLimit
    | None => defaultGasLimit
    end in
  let transferGas := inflated gasLimit in
  if gasLimit >? 0 then overrideGasLimit else transferGas.

(** Lines 167-168: the account's gas budget grows by [transferGas] and
    the token is recorded with [GasLimit: uint64(transferGas)]. *)
Definition recordToken (account : Account.t) (contract : common.Address)
    (symbol : string) (decimals : Z) (bal : Z) (estimate : option Z)
    (overrideGasLimit : Z) : Account.t * Token.t :=
  let transferGas := tokenTransferGas estimate overrideGasLimit in
  (Account.mk (Account.PrivateKey account) (Account.PublicKey account)
     (Account.Address account) (Account.Tokens account)
     (Account.Balance account)
     (Account.TotalAssetTransfer account + transferGas)
     (Account.Available account) (Account.Nonce account)
     (Account.ChainId account),
   Token.mk contract bal symbol decimals (transferGas mod uint64_modulus)).
End RPC.

(** ** The balance drain over an explicit store

    [Balance], [Available], [TotalAssetTransfer], [ChainId], a token's
    [Balance] and the gas price are pointers to [big.Int] cells; the
    accounts slice is a backing array shared with the caller.  Here both
    live in a store.  [big.NewInt(c)] allocates a cell holding [c];
    [new(big.Int).Op(a, b)] allocates a cell holding the result of [Op] on
    the contents of [a] and [b]; [p.Set(v)] writes the cell [p].  The
    copies [types.NewTransaction] makes of its arguments are not kept in
    the store: a transaction records the values. *)

Module Store.
Definition loc := nat.

Module TokenRef.
Record t := mk {
  Contract : common.Address;
  Balance : loc;
  Symbol : string;
  Decimals : Z;
  GasLimit : Z
}.
End TokenRef.

Module AccountRef.
Record t := mk {
  PrivateKey : Z;
  PublicKey : Z;
  Address : common.Address;
  Tokens : list TokenRef.t;
  Balance : loc;
  TotalAssetTransfer : loc;
  Available : loc;
  Nonce : Z;
  ChainId : loc
}.
End AccountRef.

Record state := mkState {
  ints : list Z;                   (* the big.Int cells *)
  accounts : list AccountRef.t     (* the accounts slice *)
}.

Definition load (s : state) (l : loc) : Z := nth l (ints s) 0.

(** The cell the next allocation returns. *)
Definition fresh (s : state) : loc := length (ints s).

Definition alloc (s : state) (v : Z) : state :=
  mkState (ints s ++ [v]) (accounts s).

Fixpoint update (l : loc) (v : Z) (cells : list Z) : list Z :=
  match cells, l with
  | [], _ => []
  | _ :: rest, O => v :: rest
  | c :: rest, S l' => c :: update l' v rest
  end.

(** [p.Set(v)] and the like: a write to the cell [p]. *)
Definition setInt (s : state) (l : loc) (v : Z) : state :=
  mkState (update l v (ints s)) (accounts s).

Lemma fresh_alloc (s : state) (v : Z) : fresh (alloc s v) = S (fresh s).
Proof. unfold fresh, alloc; simpl. rewrite length_app; simpl. lia. Qed.

Lemma load_alloc_fresh (s : state) (v : Z) : load (alloc s v) (fresh s) = v.
Proof.
  unfold load, alloc, fresh; simpl.
  rewrite app_nth2, Nat.sub_diag by lia. reflexivity.
Qed.

Lemma load_alloc_old (s : state) (v : Z) (l : loc) :
  (l < fresh s)%nat -> load (alloc s v) l = load s l.
Proof. intros H. unfold load, alloc; simpl. apply app_nth1. exact H. Qed.

Lemma load_valid (s : state) (l : loc) : load s l <> 0 -> (l < fresh s)%nat.
Proof.
  unfold load, fresh. intros H.
  destruct (Nat.lt_ge_cases l (length (ints s))) as [Hl | Hl]; [exact Hl |].
  rewrite nth_overflow in H by exact Hl. congruence.
Qed.

Section Drain.
Variable Signature : Type.
Variable SignTx : Transaction.t -> Z -> Z -> option Signature.
Variable PendingBalanceAt : common.Address -> option Z.

(** Lines 210-212 of [getBalanceTx]: [big.NewInt(21000)],
    [transferCost] and [totalAmountToTransfer] are allocated. *)
Definition costed (s : state) (gasPrice : loc) (account : AccountRef.t)
  : state :=
  let units := fresh s in
  let s := alloc s transferGasUnits in
  let transferCost := fresh s in
  let s := alloc s (load s gasPrice * load s units) in
  alloc s (load s (AccountRef.Balance account) - load s transferCost).

(** The cell of [totalAmountToTransfer] in [costed s gasPrice account]. *)
Definition totalAmountToTransfer (s : state) : loc := (fresh s + 2)%nat.

(** Line 223: [big.NewInt(1000000)] and the lowered gas price. *)
Definition lowered (s : state) (gasPrice : loc) : state :=
  let step := fresh s in
  let s := alloc s gasPriceDecrement in
  alloc s (load s gasPrice - load s step).

Definition loweredGasPrice (s : state) : loc := (fresh s + 1)%nat.

Lemma fresh_costed (s : state) (gasPrice : loc) (account : AccountRef.t) :
  fresh (costed s gasPrice account) = (fresh s + 3)%nat.
Proof. unfold costed. rewrite !fresh_alloc. lia. Qed.

Lemma load_costed_old (s : state) (gasPrice : loc) (account : AccountRef.t)
    (l : loc) :
  (l < fresh s)%nat -> load (costed s gasPrice account) l = load s l.
Proof.
  intros H. unfold costed.
  rewrite load_alloc_old by (rewrite !fresh_alloc; lia).
  rewrite load_alloc_old by (rewrite !fresh_alloc; lia).
  apply load_alloc_old. exact H.
Qed.

Lemma fresh_lowered (s : state) (gasPrice : loc) :
  fresh (lowered s gasPrice) = (fresh s + 2)%nat.
Proof. unfold lowered. rewrite !fresh_alloc. lia. Qed.

Lemma load_lowered_new (s : state) (gasPrice : loc) :
  (gasPrice < fresh s)%nat ->
  load (lowered s gasPrice) (loweredGasPrice s)
  = load s gasPrice - gasPriceDecrement.
Proof.
  intros H. unfold lowered, loweredGasPrice.
  replace (fresh s + 1)%nat with (fresh (alloc s gasPriceDecrement))
    by (rewrite fresh_alloc; lia).
  rewrite load_alloc_fresh, load_alloc_fresh, load_alloc_old by exact H.
  reflexivity.
Qed.

Equations? getBalanceTx (s : state) (destinationAddress : common.Address)
    (gasPrice : loc) (account : AccountRef.t)
  : run (option (SignedTransaction Signature) * state)
  by wf (Z.to_nat (load (costed s gasPrice account) gasPrice)) lt :=
  getBalanceTx s destinationAddress gasPrice account
    with bool_dec
           ((load (costed s gasPrice account) (totalAmountToTransfer s) >? 0)
            && (load (costed s gasPrice account) gasPrice >? 0)) true := {
    | left _ :=
        let s1 := costed s gasPrice account in
        let tx := Transaction.mk (AccountRef.Nonce account)
                    destinationAddress (load s1 (totalAmountToTransfer s))
                    transferGasUnits (load s1 gasPrice) [] in
        match SignTx tx (load s1 (AccountRef.ChainId account))
                (AccountRef.PrivateKey account) with
        | None => Fatal
        | Some sig => Returned (Some (mkSigned tx sig), s1)
        end;
    | right _ with Z_gt_dec (load (costed s gasPrice account) gasPrice) 0 := {
        | left _ :=
            getBalanceTx (lowered (costed s gasPrice account) gasPrice)
              destinationAddress
              (loweredGasPrice (costed s gasPrice account)) account;
        | right _ := Returned (None, costed s gasPrice account) } }.
Proof.
  set (s1 := costed s gasPrice account) in *.
  assert (Hvalid : (gasPrice < fresh s1)%nat) by (apply load_valid; lia).
  rewrite load_costed_old
    by (rewrite fresh_lowered; unfold loweredGasPrice; lia).
  rewrite load_lowered_new by exact Hvalid.
  unfold gasPriceDecrement. lia.
Qed.

(** [Client.GetPendingBalances], from index [x] on, [n] accounts left. *)
Fixpoint GetPendingBalances (n : nat) (x : nat) (s : state) : state :=
  match n with
  | O => s
  | S n' =>
      match nth_error (accounts s) x with
      | None => s
      | Some account =>
          match PendingBalanceAt (AccountRef.Address account) with
          | None => GetPendingBalances n' (S x) s
          | Some bal =>
              GetPendingBalances n' (S x)
                (setInt s (AccountRef.Balance account) bal)
          end
      end
  end.

(** [for _, account := range accounts], from index [x] on. *)
Fixpoint drain (n : nat) (x : nat) (s : state)
    (destinationAddress : common.Address) (gasPrice : loc)
    (transactions : list (TransactionWithOriginator Signature))
  : run (list (TransactionWithOriginator Signature) * state) :=
  match n with
  | O => Returned (transactions, s)
  | S n' =>
      match nth_error (accounts s) x with
      | None => Returned (transactions, s)
      | Some account =>
          match getBalanceTx s destinationAddress gasPrice account with
          | Returned (Some signedTx, s') =>
              drain n' (S x) s' destinationAddress gasPrice
                (transactions ++
                   [mkOriginated (AccountRef.Address account) signedTx])
          | Returned (None, s') =>
              drain n' (S x) s' destinationAddress gasPrice transactions
          | Fatal => Fatal
          | OutOfFuel => OutOfFuel
          end
      end
  end.

Definition transferBalances (s : state)
    (destinationAddress : common.Address) (gasPrice : loc)
    (simulate : bool)
    (transactions : list (TransactionWithOriginator Signature))
  : run (list (TransactionWithOriginator Signature) * state) :=
  let n := length (accounts s) in
  let s := if simulate then s else GetPendingBalances n 0 s in
  drain n 0 s destinationAddress gasPrice transactions.
End Drain.
End Store.

(** ** Sending and awaiting: [sendTransactions], [Client.AwaitTransactions]

    The node the client talks to is a state of type [Node].  Sending a
    transaction changes it, a query reads it, and [time.Sleep] lets it run
    for some seconds.  What the program does to the outside is recorded,
    in order, in a trace of events. *)

Section Sending.
Variable Signature : Type.
Variable Node : Type.

(** [client.SendTransaction(ctx, tx)]; [false] is a non-nil [err]. *)
Variable SendTransaction :
  Node -> SignedTransaction Signature -> bool * Node.

(** [client.TransactionByHash(ctx, tx.Hash())]: [isPending], or [None]
    for a non-nil [err].  The hash is a function of the signed
    transaction, which stands for it here. *)
Variable TransactionByHash :
  Node -> SignedTransaction Signature -> option bool.

(** [time.Sleep(seconds * time.Second)] *)
Variable Sleep : Node -> Z -> Node.

Inductive event : Type :=
| Printed (transaction : TransactionWithOriginator Signature)
| Sent (signedTx : SignedTransaction Signature)
| Logged
| Slept (seconds : Z)
| Queried (signedTx : SignedTransaction Signature)
| Noticed.

(** [Client.AwaitTransactions]: the loop, then the function. *)
Fixpoint awaitLoop (transactions : list (TransactionWithOriginator Signature))
    (node : Node) (trace : list event) : Node * list event :=
  match transactions with
  | [] => (node, trace)
  | transaction :: rest =>
      let isPending :=
        match TransactionByHash node (SignedTx transaction) with
        | None => true
        | Some isPending => isPending
        end in
      let trace := trace ++ [Queried (SignedTx transaction)] in
      if isPending
      then awaitLoop rest (Sleep node 15) (trace ++ [Slept 15])
      else awaitLoop rest node trace
  end.

Definition AwaitTransactions
    (transactions : list (TransactionWithOriginator Signature))
    (node : Node) (trace : list event) : Node * list event :=
  awaitLoop transactions (Sleep node 2) (trace ++ [Slept 2]).

(** The loop of [sendTransactions]. *)
Fixpoint sendLoop (transactions : list (TransactionWithOriginator Signature))
    (simulate : bool) (node : Node) (trace : list event)
  : Node * list event :=
  match transactions with
  | [] => (node, trace)
  | transaction :: rest =>
      let trace := trace ++ [Printed transaction] in
      if simulate then sendLoop rest simulate node trace
      else
        let '(ok, node) := SendTransaction node (SignedTx transaction) in
        let trace := trace ++ [Sent (SignedTx transaction)] in
        if ok then sendLoop rest simulate node trace
        else sendLoop rest simulate node (trace ++ [Logged])
  end.

(** [sendTransactions] *)
Definition sendTransactions
    (transactions : list (TransactionWithOriginator Signature))
    (simulate : bool) (node : Node) (trace : list event)
  : Node * list event :=
  let '(node, trace) := sendLoop transactions simulate node trace in
  if simulate then (node, trace)
  else AwaitTransactions transactions node trace.
End Sending.

(** ** The three phases of [main]

    Lines 60-70 of [main]: the gas transfers are planned and sent, then
    the token sweeps, then the balance drain.  [transferTokens] updates the
    accounts in place, so the drain works on the accounts it leaves.  The
    balances the drain fetches when not simulating are those of the node
    as it is when the refresh starts.  A fatal signing error ends the
    program; what it did until then stays done. *)

Section Migration.
Variable Signature : Type.
Variable SignTx : Transaction.t -> Z -> Z -> option Signature.
Variable Node : Type.
Variable SendTransaction :
  Node -> SignedTransaction Signature -> bool * Node.
Variable TransactionByHash :
  Node -> SignedTransaction Signature -> option bool.
Variable Sleep : Node -> Z -> Node.

(** [client.PendingBalanceAt(ctx, address)]; [None] is a non-nil [err]. *)
Variable PendingBalanceAt : Node -> common.Address -> option Z.

Definition migrate (fuel : nat) (destinationAddress : common.Address)
    (gasPrice : Z) (allAccounts : list Account.t) (simulate : bool)
    (node : Node) (trace : list (event Signature))
  : run unit * (Node * list (event Signature)) :=
  match transferGas SignTx fuel gasPrice allAccounts [] with
  | Fatal => (Fatal, (node, trace))
  | OutOfFuel => (OutOfFuel, (node, trace))
  | Returned (updatedAccounts, gasTransactions) =>
      let '(node, trace) :=
        sendTransactions SendTransaction TransactionByHash Sleep
          gasTransactions simulate node trace in
      let '(updatedAccounts, tokenTransactions) :=
        transferTokens SignTx destinationAddress gasPrice updatedAccounts [] in
      let '(node, trace) :=
        sendTransactions SendTransaction TransactionByHash Sleep
          tokenTransactions simulate node trace in
      let trace :=
        if simulate && (0 <? length tokenTransactions)%nat
        then trace ++ [Noticed Signature]
        else trace in
      match transferBalances SignTx (PendingBalanceAt node) destinationAddress
              gasPrice updatedAccounts simulate [] with
      | Fatal => (Fatal, (node, trace))
      | OutOfFuel => (OutOfFuel, (node, trace))
      | Returned balanceEmptyingTransactions =>
          (Returned tt,
           sendTransactions SendTransaction TransactionByHash Sleep
             balanceEmptyingTransactions simulate node trace)
      end
  end.
End Migration.

(** ** Package RPC: token discovery, [Client.getTokenTransfers]

    The answers of the node and of the token contracts are functions of
    the query; [None] is a non-nil [err].  Of a log entry only its
    [Address], the token contract, is used.  The accounts are those
    [getBalances] filled in, with a [Balance] that is not nil. *)

(** [a == b] on addresses, which also compares the keys [Address.Hex()]
    of a map: the hex string of an address determines it. *)
Definition sameAddress (a b : common.Address) : bool :=
  if list_eq_dec Byte.byte_eq_dec a b then true else false.

(** [h.String()] for a hash [h], as bytes: the characters 0x followed by
    two lower-case hex digits per byte. *)
Definition hexDigit (n : Z) : byte :=
  byte_of_Z (if n <? 10 then 48 + n else 87 + n).

Definition HashString (h : list byte) : list byte :=
  [x30; x78]
    ++ flat_map (fun b => [hexDigit (Z_of_byte b / 16);
                           hexDigit (Z_of_byte b mod 16)]) h.

(** The call data handed to [EstimateGas] (lines 149-156). *)
Definition estimateData (holder : common.Address) (bal : Z) : list byte :=
  (methodID ++ HashString (AddressHashBytes holder))
    ++ LeftPadBytes (big.Bytes bal) 32.

(** [m[key] = value] on a map kept as the list of its entries. *)
Fixpoint mapStore (V : Type) (key : common.Address) (value : V)
    (m : list (common.Address * V)) : list (common.Address * V) :=
  match m with
  | [] => [(key, value)]
  | (k, v) :: rest =>
      if sameAddress k key then (k, value) :: rest
      else (k, v) :: mapStore key value rest
  end.

Section TokenDiscovery.
(** [client.FilterLogs]: the contract addresses of the entries. *)
Variable FilterLogs : common.Address -> option (list common.Address).
(** [NewToken(contract, client)]; [false] is a non-nil [err]. *)
Variable NewToken : common.Address -> bool.
(** [tokenInstance.BalanceOf(opts, holder)]; [Some None] is a nil
    balance without error. *)
Variable BalanceOf : common.Address -> common.Address -> option (option Z).
Variable Symbol : common.Address -> option string.
Variable Decimals : common.Address -> option Z.
(** [client.EstimateGas] for a call of [contract] with [data]. *)
Variable EstimateGas : common.Address -> list byte -> option Z.
(** The order in which [range] visits the map built for [accounts[x]],
    which Go leaves open. *)
Variable rangeOrder :
  nat -> list (common.Address * Token.t) -> list (common.Address * Token.t).

(** Body of [for _, logEntry := range logsArray]; the state is
    [accounts[x]] and the map [tokens]. *)
Definition scanLog (overrideGasLimit : Z)
    (st : Account.t * list (common.Address * Token.t))
    (contract : common.Address)
  : Account.t * list (common.Address * Token.t) :=
  let '(account, tokens) := st in
  if NewToken contract then
    match BalanceOf contract (Account.Address account) with
    | None => st
    | Some bal =>
        let symbol :=
          match Symbol contract with
          | Some symbol => symbol
          | None => "???"%string
          end in
        let decimals :=
          match Decimals contract with
          | Some decimals => decimals
          | None => 0
          end in
        match bal with
        | Some bal =>
            if negb (bal =? 0) then
              let data := estimateData (Account.Address account) bal in
              let '(account, token) :=
                RPC.recordToken account contract symbol decimals bal
                  (EstimateGas contract data) overrideGasLimit in
              (account, mapStore contract token tokens)
            else st
        | None => st
        end
    end
  else st.

(** Body of [for x := range accounts]: the account as appended to
    [allAccounts], or [None] when it is left out. *)
Definition discover (overrideGasLimit : Z) (x : nat) (account : Account.t)
  : option Account.t :=
  match FilterLogs (Account.Address account) with
  | None => None
  | Some [] => None
  | Some logsArray =>
      let '(account, tokens) :=
        fold_left (scanLog overrideGasLimit) logsArray (account, []) in
      let account :=
        if (0 <? length tokens)%nat
        then Account.set_Tokens account
               (Account.Tokens account ++ map snd (rangeOrder x tokens))
        else account in
      if (0 <? length (Account.Tokens account))%nat
         || negb (Account.Balance account =? 0)
      then Some account
      else None
  end.

(** [for x := range accounts], from index [x] on. *)
Fixpoint discoverFrom (overrideGasLimit : Z) (x : nat)
    (accounts : list Account.t) : list Account.t :=
  match accounts with
  | [] => []
  | account :: rest =>
      match discover overrideGasLimit x account with
      | Some account => account :: discoverFrom overrideGasLimit (S x) rest
      | None => discoverFrom overrideGasLimit (S x) rest
      end
  end.

(** [Client.getTokenTransfers] *)
Definition getTokenTransfers (accounts : list Account.t)
    (overrideGasLimit : Z) : list Account.t :=
  discoverFrom overrideGasLimit 0 accounts.
End TokenDiscovery.

(** ** Package Accounts: deriving the accounts

    The mnemonic, key and curve libraries are parameters; [None] is a
    non-nil [err].  A private or public key is the number that stands for
    it in [Account.t].  A map keyed by [Address.Hex()] is kept as the
    list of its entries, keyed by the address.  An account that was just
    derived has nonce 0 and a nil [ChainId], for which 0 stands. *)

(** [strings.Replace(s, "0x", "", 1)]: the first occurrence of 0x is
    removed, wherever it is. *)
Fixpoint Replace0xOnce (s : string) : string :=
  match s with
  | EmptyString => EmptyString
  | String c rest =>
      match c, rest with
      | "0"%char, String "x"%char rest' => rest'
      | _, _ => String c (Replace0xOnce rest)
      end
  end.

Section KeyDerivation.
Variable ExtendedKey : Type.
Variable IsMnemonicValid : string -> bool.
Variable NewSeedWithErrorChecking : string -> string -> option (list byte).
Variable NewMaster : list byte -> option ExtendedKey.
(** [accounts.ParseDerivationPath] of the path m/44'/60'/account'/change/index
    that [fmt.Sprintf] prints for the three numbers. *)
Variable ParseDerivationPath : Z -> Z -> Z -> option (list Z).
Variable Child : ExtendedKey -> Z -> option ExtendedKey.
Variable ECPrivKey : ExtendedKey -> option Z.
Variable HexToECDSA : string -> option Z.
(** [privateKey.Public()], which is an [*ecdsa.PublicKey]. *)
Variable Public : Z -> Z.
Variable PubkeyToAddress : Z -> common.Address.
(** The order in which [range] visits [mapAccounts], which Go leaves
    open. *)
Variable rangeOrder :
  list (common.Address * Account.t) -> list (common.Address * Account.t).

Fixpoint derivePrivateKey (key : ExtendedKey) (path : list Z) : option Z :=
  match path with
  | [] => ECPrivKey key
  | n :: rest =>
      match Child key n with
      | None => None
      | Some key => derivePrivateKey key rest
      end
  end.

Definition derivePublicKey (privateKey : Z) : option Z :=
  Some (Public privateKey).

Definition deriveAddress (publicKeyECDSA : Z) : option common.Address :=
  Some (PubkeyToAddress publicKeyECDSA).

(** The account literal of lines 137 and 160. *)
Definition newAccount (privateKey publicKey : Z) (address : common.Address)
  : Account.t :=
  Account.mk privateKey publicKey address [] 0 0 0 0 0.

(** Body of the innermost loop of [accountsFromMnemonic]. *)
Definition deriveAccount (masterKey : ExtendedKey)
    (account change addressIndex : Z) : option Account.t :=
  match ParseDerivationPath account change addressIndex with
  | None => None
  | Some dPath =>
      match derivePrivateKey masterKey dPath with
      | None => None
      | Some privateKey =>
          match derivePublicKey privateKey with
          | None => None
          | Some publicKey =>
              match deriveAddress publicKey with
              | None => None
              | Some address => Some (newAccount privateKey publicKey address)
              end
          end
      end
  end.

(** [for addressIndex := ...; addressIndex < numberOfAccounts; addressIndex++],
    with [remaining] iterations to go. *)
Fixpoint forAddressIndex (masterKey : ExtendedKey) (change addressIndex : Z)
    (remaining : nat) (allAccounts : list Account.t)
  : option (list Account.t) :=
  match remaining with
  | O => Some allAccounts
  | S remaining' =>
      match deriveAccount masterKey 0 change addressIndex with
      | None => None
      | Some account =>
          forAddressIndex masterKey change (addressIndex + 1) remaining'
            (allAccounts ++ [account])
      end
  end.

(** [for change := ...; change < numberOfAccounts; change++] *)
Fixpoint forChange (masterKey : ExtendedKey) (numberOfAccounts : Z)
    (change : Z) (remaining : nat) (allAccounts : list Account.t)
  : option (list Account.t) :=
  match remaining with
  | O => Some allAccounts
  | S remaining' =>
      match forAddressIndex masterKey change 0 (Z.to_nat numberOfAccounts)
              allAccounts with
      | None => None
      | Some allAccounts =>
          forChange masterKey numberOfAccounts (change + 1) remaining'
            allAccounts
      end
  end.

Definition accountsFromMnemonic (mnemonic : string) (numberOfAccounts : Z)
  : option (list Account.t) :=
  if (mnemonic =? "")%string then None
  else if negb (IsMnemonicValid mnemonic) then None
  else
    match NewSeedWithErrorChecking mnemonic "" with
    | None => None
    | Some seed =>
        match NewMaster seed with
        | None => None
        | Some masterKey =>
            forChange masterKey numberOfAccounts 0
              (Z.to_nat numberOfAccounts) []
        end
    end.

Definition accountFromPrivateKey (pkString : string) : option Account.t :=
  let pkString := Replace0xOnce pkString in
  match HexToECDSA pkString with
  | None => None
  | Some privateKey =>
      match derivePublicKey privateKey with
      | None => None
      | Some publicKey =>
          match deriveAddress publicKey with
          | None => None
          | Some address => Some (newAccount privateKey publicKey address)
          end
      end
  end.

(** [for _, account := range accounts { mapAccounts[...] = account }] *)
Definition storeAccounts (accounts : list Account.t)
    (mapAccounts : list (common.Address * Account.t))
  : list (common.Address * Account.t) :=
  fold_left (fun m account => mapStore (Account.Address account) account m)
    accounts mapAccounts.

(** The two loops of [GetAccounts] that fill [mapAccounts]. *)
Fixpoint forMnemonics (mnemonics : list string) (numberOfAccounts : Z)
    (mapAccounts : list (common.Address * Account.t))
  : run (list (common.Address * Account.t)) :=
  match mnemonics with
  | [] => Returned mapAccounts
  | mnemonic :: rest =>
      match accountsFromMnemonic mnemonic numberOfAccounts with
      | None => Fatal
      | Some accounts =>
          forMnemonics rest numberOfAccounts
            (storeAccounts accounts mapAccounts)
      end
  end.

Fixpoint forPrivateKeys (privateKeys : list string)
    (mapAccounts : list (common.Address * Account.t))
  : run (list (common.Address * Account.t)) :=
  match privateKeys with
  | [] => Returned mapAccounts
  | privateKey :: rest =>
      match accountFromPrivateKey privateKey with
      | None => Fatal
      | Some account =>
          forPrivateKeys rest
            (mapStore (Account.Address account) account mapAccounts)
      end
  end.

Definition GetAccounts (mnemonics privateKeys : list string)
    (numberOfAccounts : Z) : run (list Account.t) :=
  match forMnemonics mnemonics numberOfAccounts [] with
  | Returned mapAccounts =>
      match forPrivateKeys privateKeys mapAccounts with
      | Returned mapAccounts => Returned (map snd (rangeOrder mapAccounts))
      | Fatal => Fatal
      | OutOfFuel => OutOfFuel
      end
  | Fatal => Fatal
  | OutOfFuel => OutOfFuel
  end.
End KeyDerivation.

(** * Vocabulary of the properties

    Measures, projections and example snapshots the statements below use;
    none of them is part of the program. *)

(** The part of the balances that is not negative, and the number of
    surplus accounts: together they bound the recursion of [transferGas]. *)
Definition nonnegativePart (a : Account.t) : Z := Z.max (Account.Balance a) 0.

Definition nonnegativeBalances (l : list Account.t) : Z :=
  fold_right (fun a s => nonnegativePart a + s) 0 l.

Definition surplusCount (gasPrice : Z) (l : list Account.t) : Z :=
  fold_right (fun a s => (if isNegative gasPrice a then 0 else 1) + s) 0 l.

Definition gasTransferBound (gasPrice : Z) (l : list Account.t) : nat :=
  Z.to_nat ((Z.of_nat (length l) + 1)
              * (nonnegativeBalances l / (gasPrice * transferGasUnits))
            + surplusCount gasPrice l).

(** The amount [pair] puts in the transaction. *)
Definition amountSent (gasPrice transferCost : Z) (negative positive : Account.t)
  : Z :=
  let need := Account.TotalAssetTransferPrice negative gasPrice in
  if Account.Available positive - (need + transferCost) <? 0
  then Account.Available positive - transferCost
  else need.

Definition funded (gasPrice transferCost : Z) (negative positive : Account.t)
  : Account.t :=
  Account.set_Balance negative
    (Account.Balance negative + amountSent gasPrice transferCost negative positive).

Definition charged (gasPrice transferCost : Z) (negative positive : Account.t)
  : Account.t :=
  Account.set_Nonce
    (Account.set_Balance positive
       (Account.Available positive
        - (Account.TotalAssetTransferPrice negative gasPrice + transferCost)))
    (uint64_succ (Account.Nonce positive)).

Definition gasTransaction (gasPrice transferCost : Z)
    (negative positive : Account.t) : Transaction.t :=
  Transaction.mk (Account.Nonce positive) (Account.Address negative)
    (amountSent gasPrice transferCost negative positive) transferGasUnits
    gasPrice [].

(** What the first loop of [transferGas] establishes of a deficit and of
    a surplus account. *)
Definition inDeficit (gasPrice : Z) (a : Account.t) : Prop :=
  Account.TotalAssetTransferPrice a gasPrice > Account.Balance a
  /\ Account.Available a
     = Account.Balance a - Account.TotalAssetTransferPrice a gasPrice.

Definition inSurplus (gasPrice : Z) (a : Account.t) : Prop :=
  Account.TotalAssetTransferPrice a gasPrice <= Account.Balance a
  /\ Account.Available a
     = Account.Balance a - Account.TotalAssetTransferPrice a gasPrice.

(** A signer that never fails, and accounts without tokens, for the
    evaluations below.  Account [n] has private key [n], address
    [n n ... n] and chain id 1. *)
Definition alwaysSigns : Transaction.t -> Z -> Z -> option unit :=
  fun _ _ _ => Some tt.

Definition exampleAddress (n : Z) : common.Address := repeat (byte_of_Z n) 20.

Definition exampleAccount (n balance totalAssetTransfer : Z) : Account.t :=
  Account.mk n n (exampleAddress n) [] balance totalAssetTransfer 0 0 1.

(** Who pays, who receives and how much, for each emitted transaction. *)
Definition transfers (Signature : Type)
    (transactions : list (TransactionWithOriginator Signature))
  : list (common.Address * common.Address * Z) :=
  map (fun t => (Originator t, Transaction.To (Tx (SignedTx t)),
                 Transaction.Value (Tx (SignedTx t)))) transactions.

Definition gasOutcome (Signature : Type)
    (r : run (list Account.t * list (TransactionWithOriginator Signature)))
  : option (list (Z * Z * Z * Z) * list (common.Address * common.Address * Z)) :=
  match r with
  | Returned (accounts, transactions) =>
      Some (map (fun a => (Account.PrivateKey a, Account.Balance a,
                           Account.Available a, Account.Nonce a)) accounts,
            transfers transactions)
  | _ => None
  end.

(** The snapshot used against the bound of C3: gas price 1; accounts 1 and
    2 are short by 400000 and 360000 with budgets 500000 and 450000,
    account 3 is short by 300000 with a budget of 10000000, account 4
    holds 1042000 and no tokens. *)
Definition fourAccounts : list Account.t :=
  [exampleAccount 1 100000 500000; exampleAccount 2 90000 450000;
   exampleAccount 3 9700000 10000000; exampleAccount 4 1042000 0].

(** Two surplus accounts with the same balance and a deficit account. *)
Definition twoDonors : list Account.t :=
  [exampleAccount 1 50000 0; exampleAccount 2 50000 0; exampleAccount 3 0 5].

Definition twoDonorsSwapped : list Account.t :=
  [exampleAccount 2 50000 0; exampleAccount 1 50000 0; exampleAccount 3 0 5].

(** The transaction [sweepToken] builds for a token. *)
Definition sweepTransaction (destinationAddress : common.Address)
    (gasPrice : Z) (account : Account.t) (token : Token.t) : Transaction.t :=
  Transaction.mk (Account.Nonce account) (Token.Contract token) 0
    (Token.GasLimit token) gasPrice
    (transferData destinationAddress (Token.Balance token)).

(** The account after an emitted sweep of a token. *)
Definition swept (gasPrice : Z) (account : Account.t) (token : Token.t)
  : Account.t :=
  Account.mk (Account.PrivateKey account) (Account.PublicKey account)
    (Account.Address account) (Account.Tokens account)
    (Account.Balance account - Token.TotalTransferPrice token gasPrice)
    (Account.TotalAssetTransfer account) (Account.Available account)
    (uint64_succ (Account.Nonce account)) (Account.ChainId account).

(** An account with balance 0 holding one token whose gas limit is the
    largest [uint64]. *)
Definition hugeGasLimitToken : Token.t :=
  Token.mk (exampleAddress 7) 1000 "TKN" 18 (2 ^ 64 - 1).

Definition hugeGasLimitAccount : Account.t :=
  Account.mk 1 1 (exampleAddress 1) [hugeGasLimitToken] 0 0 0 0 1.

(** The unsigned integer a byte string holds, big-endian. *)
Definition bigEndianValue (bytes : list byte) : Z :=
  fold_left (fun acc b => acc * 256 + Z_of_byte b) bytes 0.

(** [s'] has the accounts slice of [s] and the cells of [s], unchanged,
    followed by newly allocated ones. *)
Definition preserved (s s' : Store.state) : Prop :=
  Store.accounts s' = Store.accounts s
  /\ exists added, Store.ints s' = Store.ints s ++ added.

(** The account a store holds behind the pointers of [a]. *)
Definition viewToken (s : Store.state) (t : Store.TokenRef.t) : Token.t :=
  Token.mk (Store.TokenRef.Contract t) (Store.load s (Store.TokenRef.Balance t))
    (Store.TokenRef.Symbol t) (Store.TokenRef.Decimals t)
    (Store.TokenRef.GasLimit t).

Definition view (s : Store.state) (a : Store.AccountRef.t) : Account.t :=
  Account.mk (Store.AccountRef.PrivateKey a) (Store.AccountRef.PublicKey a)
    (Store.AccountRef.Address a)
    (map (viewToken s) (Store.AccountRef.Tokens a))
    (Store.load s (Store.AccountRef.Balance a))
    (Store.load s (Store.AccountRef.TotalAssetTransfer a))
    (Store.load s (Store.AccountRef.Available a))
    (Store.AccountRef.Nonce a)
    (Store.load s (Store.AccountRef.ChainId a)).

(** Every pointer of the account is allocated. *)
Definition allocated (s : Store.state) (a : Store.AccountRef.t) : Prop :=
  (Store.AccountRef.Balance a < Store.fresh s)%nat
  /\ (Store.AccountRef.TotalAssetTransfer a < Store.fresh s)%nat
  /\ (Store.AccountRef.Available a < Store.fresh s)%nat
  /\ (Store.AccountRef.ChainId a < Store.fresh s)%nat
  /\ Forall (fun t => (Store.TokenRef.Balance t < Store.fresh s)%nat)
       (Store.AccountRef.Tokens a).

(** An account with balance 250 and nonce 7 holding 10 units of one token
    and 30 of another. *)
Definition smallerToken : Token.t := Token.mk (exampleAddress 5) 10 "A" 18 200.

Definition largerToken : Token.t := Token.mk (exampleAddress 6) 30 "B" 18 100.

Definition twoTokenAccount : Account.t :=
  Account.mk 1 1 (exampleAddress 1) [smallerToken; largerToken] 250 0 0 7 1.

(** A store with the gas price 3000000 in cell 0 and one account whose
    balance 21000000001 is in cell 1, gas budget in cell 2, [Available] in
    cell 3 and chain id in cell 4. *)
Definition exampleStore : Store.state :=
  Store.mkState [3000000; 21000000001; 0; 0; 1]
    [Store.AccountRef.mk 1 1 (exampleAddress 1) [] 1%nat 2%nat 3%nat 7 4%nat].

(** The fields of an account the gas redistribution never writes. *)
Definition identity (a : Account.t)
  : Z * Z * common.Address * list Token.t * Z * Z :=
  (Account.PrivateKey a, Account.PublicKey a, Account.Address a,
   Account.Tokens a, Account.TotalAssetTransfer a, Account.ChainId a).

(** The rounds of [transferGas], as a relation between the accounts and
    transactions a call receives and those it returns: a call returns at
    once when a side is empty, and otherwise signs one transaction for the
    first deficit and the first surplus account and calls itself. *)
Inductive gasRounds (Signature : Type)
    (SignTx : Transaction.t -> Z -> Z -> option Signature) (gasPrice : Z)
  : list Account.t -> list (TransactionWithOriginator Signature) ->
    list Account.t -> list (TransactionWithOriginator Signature) -> Prop :=
| rounds_stop (accounts : list Account.t)
    (transactions : list (TransactionWithOriginator Signature)) :
    sortSlice lessNegatives (fst (separate gasPrice accounts)) = []
    \/ sortSlice lessPositives (snd (separate gasPrice accounts)) = [] ->
    gasRounds SignTx gasPrice accounts transactions
      (map (refreshAvailable gasPrice) accounts) transactions
| rounds_step (accounts : list Account.t)
    (transactions : list (TransactionWithOriginator Signature))
    (negative positive : Account.t) (negatives positives : list Account.t)
    (sig : Signature) (accounts' : list Account.t)
    (transactions' : list (TransactionWithOriginator Signature)) :
    sortSlice lessNegatives (fst (separate gasPrice accounts))
    = negative :: negatives ->
    sortSlice lessPositives (snd (separate gasPrice accounts))
    = positive :: positives ->
    SignTx
      (gasTransaction gasPrice (gasPrice * transferGasUnits) negative positive)
      (Account.ChainId positive) (Account.PrivateKey positive) = Some sig ->
    gasRounds SignTx gasPrice
      ((funded gasPrice (gasPrice * transferGasUnits) negative positive
          :: negatives)
         ++ charged gasPrice (gasPrice * transferGasUnits) negative positive
            :: positives)
      (transactions ++
         [mkOriginated (Account.Address positive)
            (mkSigned
               (gasTransaction gasPrice (gasPrice * transferGasUnits)
                  negative positive) sig)])
      accounts' transactions' ->
    gasRounds SignTx gasPrice accounts transactions accounts' transactions'.

(** The fee [sweepToken] charged for an emitted sweep, read off the gas
    limit of the transaction, and the fees of a list of sweeps. *)
Definition sweepFee (Signature : Type) (gasPrice : Z)
    (t : TransactionWithOriginator Signature) : Z :=
  gasPrice * int64_of_uint64 (Transaction.Gas (Tx (SignedTx t))).

Definition sweepFees (Signature : Type) (gasPrice : Z)
    (transactions : list (TransactionWithOriginator Signature)) : Z :=
  fold_right (fun t s => sweepFee gasPrice t + s) 0 transactions.

(** The nonces [first], [first + 1], ... of [count] consecutive
    transactions of an account, on [uint64]. *)
Definition consecutiveNonces (first : Z) (count : nat) : list Z :=
  map (fun i => (first + Z.of_nat i) mod uint64_modulus) (seq 0 count).

(** The gas units needed to sweep every token of a list. *)
Definition tokensGas (tokens : list Token.t) : Z :=
  fold_right (fun t s => Token.GasLimit t + s) 0 tokens.

(** The account [twoTokenAccount] with a balance of 1000. *)
Definition fundedTokenAccount : Account.t :=
  Account.set_Balance twoTokenAccount 1000.

(** What the loop of [transferBalances] adds for one account. *)
Definition drained (Signature : Type)
    (SignTx : Transaction.t -> Z -> Z -> option Signature)
    (destinationAddress : common.Address) (gasPrice : Z) (account : Account.t)
  : list (TransactionWithOriginator Signature) :=
  match getBalanceTx SignTx destinationAddress gasPrice account with
  | Returned (Some signedTx) =>
      [mkOriginated (Account.Address account) signedTx]
  | _ => []
  end.

(** The account of [exampleStore], and a node that reports a pending
    balance of 5 for every address. *)
Definition exampleAccountRef : Store.AccountRef.t :=
  Store.AccountRef.mk 1 1 (exampleAddress 1) [] 1%nat 2%nat 3%nat 7 4%nat.

Definition alwaysFive : common.Address -> option Z := fun _ => Some 5.

(** What a trace shows: the transactions printed, those handed to the
    node, those looked up, and the seconds slept. *)
Definition printedOf (Signature : Type) (trace : list (event Signature))
  : list (TransactionWithOriginator Signature) :=
  flat_map (fun e => match e with Printed t => [t] | _ => [] end) trace.

Definition sentOf (Signature : Type) (trace : list (event Signature))
  : list (SignedTransaction Signature) :=
  flat_map (fun e => match e with Sent t => [t] | _ => [] end) trace.

Definition queriedOf (Signature : Type) (trace : list (event Signature))
  : list (SignedTransaction Signature) :=
  flat_map (fun e => match e with Queried t => [t] | _ => [] end) trace.

Definition secondsSlept (Signature : Type) (trace : list (event Signature))
  : Z :=
  fold_right (fun e s => match e with Slept _ d => d + s | _ => s end) 0 trace.

(** A trace of a run that only printed. *)
Definition printsOnly (Signature : Type) (trace : list (event Signature))
  : Prop :=
  Forall (fun e => match e with
                   | Printed _ | Noticed _ => True
                   | _ => False
                   end) trace.

(** The nonces of the transactions of a list that an address originated,
    in the order of the list. *)
Definition noncesOf (Signature : Type) (address : common.Address)
    (transactions : list (TransactionWithOriginator Signature)) : list Z :=
  map (fun t => Transaction.Nonce (Tx (SignedTx t)))
    (filter (fun t => sameAddress (Originator t) address) transactions).

(** The accounts [after] a phase that emitted the transactions [emitted]
    are the accounts [before] it, each with the nonces of its emitted
    transactions used up in order. *)
Definition nonceLedger (Signature : Type) (before : list Account.t)
    (emitted : list (TransactionWithOriginator Signature))
    (after : list Account.t) : Prop :=
  Permutation (map Account.Address before) (map Account.Address after)
  /\ forall a', In a' after ->
       exists a count,
         In a before
         /\ Account.Address a = Account.Address a'
         /\ noncesOf (Account.Address a') emitted
            = consecutiveNonces (Account.Nonce a) count
         /\ Account.Nonce a'
            = (Account.Nonce a + Z.of_nat count) mod uint64_modulus.

(** Accounts with pairwise different addresses and [uint64] nonces. *)
Definition distinctAccounts (accounts : list Account.t) : Prop :=
  NoDup (map Account.Address accounts)
  /\ Forall (fun a => 0 <= Account.Nonce a < uint64_modulus) accounts.

(** The address and nonce of an account. *)
Definition book (a : Account.t) : common.Address * Z :=
  (Account.Address a, Account.Nonce a).

(** A node, for the evaluations below, that accepts every transaction,
    reports none as pending, and knows no pending balance. *)
Definition acceptsAll : unit -> SignedTransaction unit -> bool * unit :=
  fun node _ => (true, node).

Definition neverPending : unit -> SignedTransaction unit -> option bool :=
  fun _ _ => Some false.

Definition sleeps : unit -> Z -> unit := fun node _ => node.

Definition noPendingBalance : unit -> common.Address -> option Z :=
  fun _ _ => None.

(** The gas [scanLog] counts for one log entry of [contract] found for
    [holder]: nothing unless the entry makes it record a token. *)
Definition entryGas (NewToken : common.Address -> bool)
    (BalanceOf : common.Address -> common.Address -> option (option Z))
    (EstimateGas : common.Address -> list byte -> option Z)
    (overrideGasLimit : Z) (holder contract : common.Address) : Z :=
  match BalanceOf contract holder with
  | Some (Some bal) =>
      if NewToken contract && negb (bal =? 0)
      then RPC.tokenTransferGas
             (EstimateGas contract (estimateData holder bal)) overrideGasLimit
      else 0
  | _ => 0
  end.

Definition qualifies (NewToken : common.Address -> bool)
    (BalanceOf : common.Address -> common.Address -> option (option Z))
    (holder contract : common.Address) : bool :=
  match BalanceOf contract holder with
  | Some (Some bal) => NewToken contract && negb (bal =? 0)
  | _ => false
  end.

Definition sumOf (A : Type) (f : A -> Z) (l : list A) : Z :=
  fold_right (fun a s => f a + s) 0 l.
(** What [scanLog] records for [holder] in a map entry: the contract as
    key, the balance the contract reports and the gas counted for it. *)
Definition recorded (NewToken : common.Address -> bool)
    (BalanceOf : common.Address -> common.Address -> option (option Z))
    (EstimateGas : common.Address -> list byte -> option Z)
    (overrideGasLimit : Z) (holder : common.Address)
    (entry : common.Address * Token.t) : Prop :=
  Token.Contract (snd entry) = fst entry
  /\ BalanceOf (fst entry) holder = Some (Some (Token.Balance (snd entry)))
  /\ Token.GasLimit (snd entry)
     = entryGas NewToken BalanceOf EstimateGas overrideGasLimit holder
         (fst entry) mod uint64_modulus.

(** The fields of an account the token discovery never writes. *)
Definition discoveryFrame (a : Account.t)
  : Z * Z * common.Address * Z * Z * Z * Z :=
  (Account.PrivateKey a, Account.PublicKey a, Account.Address a,
   Account.Balance a, Account.Available a, Account.Nonce a,
   Account.ChainId a).

(** An account with balance 5 and no tokens yet; a token contract; a node
    that has no transfer log for any address, and one that has two log
    entries of the same contract for every address; contracts that report
    a balance of 10; a failing gas estimate. *)
Definition etherOnlyAccount : Account.t := exampleAccount 1 5 0.

Definition exampleContract : common.Address := exampleAddress 7.

Definition noLogs : common.Address -> option (list common.Address) :=
  fun _ => Some [].

Definition twoLogsOfOneContract
  : common.Address -> option (list common.Address) :=
  fun _ => Some [exampleContract; exampleContract].

Definition bindsAll : common.Address -> bool := fun _ => true.

Definition holdsTen : common.Address -> common.Address -> option (option Z) :=
  fun _ _ => Some (Some 10).

Definition noSymbol : common.Address -> option string := fun _ => None.

Definition noDecimals : common.Address -> option Z := fun _ => None.

Definition noEstimate : common.Address -> list byte -> option Z :=
  fun _ _ => None.

Definition insertionOrder
  : nat -> list (common.Address * Token.t) -> list (common.Address * Token.t) :=
  fun _ tokens => tokens.

(** [etherOnlyAccount] as the discovery leaves it when both log entries
    show [exampleContract] and the override is 100000. *)
Definition doubleCounted : Account.t :=
  Account.mk 1 1 (exampleAddress 1)
    [Token.mk exampleContract 10 "???" 0 100000] 5 200000 0 0 1.

(** The accounts [GetAccounts] derives before it removes duplicates:
    those of every mnemonic, then the one of every private key. *)
Definition derivedAccounts (fromMnemonic : string -> option (list Account.t))
    (fromPrivateKey : string -> option Account.t)
    (mnemonics privateKeys : list string) : list Account.t :=
  flat_map (fun mnemonic =>
              match fromMnemonic mnemonic with
              | Some accounts => accounts
              | None => []
              end) mnemonics
    ++ flat_map (fun privateKey =>
                   match fromPrivateKey privateKey with
                   | Some account => [account]
                   | None => []
                   end) privateKeys.
(** A map of accounts that holds exactly the addresses of [stored], each
    once, under its own address. *)
Definition holdsAccounts (stored : list Account.t)
    (m : list (common.Address * Account.t)) : Prop :=
  NoDup (map fst m)
  /\ Forall (fun entry => fst entry = Account.Address (snd entry)
                          /\ In (snd entry) stored) m
  /\ forall a, In a stored -> In (Account.Address a) (map fst m).

(** A key library for the evaluations below: every mnemonic is valid, a
    key is a number, the child [n] of the key [k] is 10 * k + n, a hex
    string stands for the key that is its length, and the address of the
    key [k] is [exampleAddress k]. *)
Definition everyMnemonic : string -> bool := fun _ => true.

Definition emptySeed : string -> string -> option (list byte) :=
  fun _ _ => Some [].

Definition masterZero : list byte -> option Z := fun _ => Some 0.

Definition threeLevels : Z -> Z -> Z -> option (list Z) :=
  fun account change index => Some [account; change; index].

Definition decimalChild : Z -> Z -> option Z := fun k n => Some (10 * k + n).

Definition keyItself : Z -> option Z := fun k => Some k.

Definition keyOfLength : string -> option Z :=
  fun s => Some (Z.of_nat (String.length s)).

Definition samePublic : Z -> Z := fun k => k.

Definition mapOrder
  : list (common.Address * Account.t) -> list (common.Address * Account.t) :=
  fun m => m.

(** The gas transfers and token sweeps of a run, as the planners return
    them: nothing when [transferGas] does not return. *)
Definition plannedTransfers (Signature : Type)
    (SignTx : Transaction.t -> Z -> Z -> option Signature) (fuel : nat)
    (destinationAddress : common.Address) (gasPrice : Z)
    (allAccounts : list Account.t)
  : list (TransactionWithOriginator Signature) :=
  match transferGas SignTx fuel gasPrice allAccounts [] with
  | Returned (updatedAccounts, gasTransactions) =>
      gasTransactions
        ++ snd (transferTokens SignTx destinationAddress gasPrice
                  updatedAccounts [])
  | _ => []
  end.

(** The token contracts of a list of accounts, account by account. *)
Definition tokenContracts (accounts : list Account.t) : list common.Address :=
  flat_map (fun a => map Token.Contract (Account.Tokens a)) accounts.

(** The gas budget of an account covers its tokens, whose gas limits are
    below 2^63. *)
Definition budgeted (a : Account.t) : Prop :=
  tokensGas (Account.Tokens a) <= Account.TotalAssetTransfer a
  /\ Forall (fun t => 0 <= Token.GasLimit t < 2 ^ 63) (Account.Tokens a).

(** An account with ether and no tokens, and an account without ether
    that holds one token and needs 100 gas to move it. *)
Definition donorAccount : Account.t := exampleAccount 1 1000000 0.

Definition holderAccount : Account.t :=
  Account.mk 2 2 (exampleAddress 2) [Token.mk exampleContract 10 "A" 18 100]
    0 100 0 0 1.

(** * Properties *)

(** ** sort.Slice *)

Example sortSlice_example :
  sortSlice Z.leb [3; 1; 2; 1] = [1; 1; 2; 3]
  /\ sortSlice (fun i j : Z * bool => fst i >=? fst j)
       [(5, true); (7, true); (5, false)]
     = [(7, true); (5, false); (5, true)].
Proof. split; reflexivity. Qed.

Section SortSliceFacts.
Variable A : Type.
Variable less : A -> A -> bool.

Lemma sinkLeft_perm (x : A) (before : list A) :
  Permutation (x :: before) (sinkLeft less x before).
Proof.
  induction before as [| p ps IH]; simpl.
  - apply Permutation_refl.
  - destruct (less x p).
    + eapply perm_trans; [apply perm_swap |].
      apply perm_skip. exact IH.
    + apply Permutation_refl.
Qed.

Lemma insertAll_perm (l before : list A) :
  Permutation (l ++ before)
    (fold_left (fun before x => sinkLeft less x before) l before).
Proof.
  revert before. induction l as [| x l IH]; intros before; simpl.
  - apply Permutation_refl.
  - eapply perm_trans; [| apply IH].
    eapply perm_trans; [apply Permutation_middle |].
    apply Permutation_app_head. apply sinkLeft_perm.
Qed.

Lemma sortSlice_perm (l : list A) : Permutation l (sortSlice less l).
Proof.
  unfold sortSlice.
  eapply perm_trans; [| apply Permutation_rev].
  rewrite <- (app_nil_r l) at 1. apply insertAll_perm.
Qed.

(** A closure that compares keys with a non-strict order is total and
    transitive; the insertion sort then leaves the slice in order. *)
Hypothesis less_total : forall x y, less x y = false -> less y x = true.
Hypothesis less_trans :
  forall x y z, less x y = true -> less y z = true -> less x z = true.

Let later (p q : A) : Prop := less q p = true.
Let earlier (p q : A) : Prop := less p q = true.

Lemma sinkLeft_sorted (x : A) (before : list A) :
  StronglySorted later before -> StronglySorted later (sinkLeft less x before).
Proof.
  induction before as [| p ps IH]; intros Hs; simpl.
  - repeat constructor.
  - inversion Hs as [| p' ps' Hps Hall]; subst.
    destruct (less x p) eqn:Hxp.
    + constructor; [apply IH; exact Hps |].
      eapply Permutation_Forall; [apply sinkLeft_perm |].
      constructor; [exact Hxp | exact Hall].
    + constructor; [exact Hs |].
      assert (Hpx : less p x = true) by (apply less_total; exact Hxp).
      constructor; [exact Hpx |].
      eapply Forall_impl; [| exact Hall].
      intros q Hq. unfold later in *. eapply less_trans; eassumption.
Qed.

Lemma insertAll_sorted (l before : list A) :
  StronglySorted later before ->
  StronglySorted later
    (fold_left (fun before x => sinkLeft less x before) l before).
Proof.
  revert before. induction l as [| x l IH]; intros before Hs; simpl.
  - exact Hs.
  - apply IH, sinkLeft_sorted, Hs.
Qed.

Lemma StronglySorted_snoc (R : A -> A -> Prop) (l : list A) (x : A) :
  StronglySorted R l -> Forall (fun y => R y x) l ->
  StronglySorted R (l ++ [x]).
Proof.
  induction l as [| y l IH]; intros Hs Hall; simpl.
  - repeat constructor.
  - inversion Hs as [| y' l' Hl Hy]; subst.
    inversion Hall as [| y' l' Hyx Hall']; subst.
    constructor; [apply IH; assumption |].
    apply Forall_app. split; [exact Hy | repeat constructor; exact Hyx].
Qed.

Lemma StronglySorted_rev (l : list A) :
  StronglySorted later l -> StronglySorted earlier (rev l).
Proof.
  induction l as [| p ps IH]; intros Hs; simpl.
  - constructor.
  - inversion Hs as [| p' ps' Hps Hall]; subst.
    apply StronglySorted_snoc; [apply IH; exact Hps |].
    apply Forall_rev. exact Hall.
Qed.

Lemma sortSlice_sorted (l : list A) :
  StronglySorted (fun p q => less p q = true) (sortSlice less l).
Proof.
  unfold sortSlice. apply StronglySorted_rev, insertAll_sorted. constructor.
Qed.
End SortSliceFacts.

(** ** Gas redistribution *)

Section GasFacts.
Variable Signature : Type.
Variable SignTx : Transaction.t -> Z -> Z -> option Signature.

(** The guard of line 133 never fails: the body of the inner loop
    always builds a transaction. *)
Lemma pair_eq (gasPrice transferCost : Z) (negative positive : Account.t) :
  pair SignTx gasPrice transferCost negative positive =
  match SignTx (gasTransaction gasPrice transferCost negative positive)
          (Account.ChainId positive) (Account.PrivateKey positive) with
  | None => SignFailed Signature
  | Some sig =>
      Transfer (funded gasPrice transferCost negative positive)
        (charged gasPrice transferCost negative positive)
        (mkOriginated (Account.Address positive)
           (mkSigned (gasTransaction gasPrice transferCost negative positive)
              sig))
  end.
Proof.
  unfold pair, gasTransaction, funded, charged, amountSent.
  destruct (Account.Available positive
            - (Account.TotalAssetTransferPrice negative gasPrice + transferCost)
            <? 0) eqn:Hlt.
  - simpl. reflexivity.
  - apply Z.ltb_ge in Hlt.
    destruct (Account.Available positive
              - (Account.TotalAssetTransferPrice negative gasPrice + transferCost)
              >=? 0) eqn:Hge.
    + reflexivity.
    + rewrite Z.geb_leb in Hge. apply Z.leb_gt in Hge. lia.
Qed.

Lemma forNegatives_no_positives (gasPrice transferCost : Z)
    (passed rest : list Account.t) :
  forNegatives SignTx gasPrice transferCost passed rest [] = NoMatch Signature.
Proof.
  revert passed. induction rest as [| n rest IH]; intros passed; simpl.
  - reflexivity.
  - apply IH.
Qed.

Lemma forNegatives_heads (gasPrice transferCost : Z)
    (negative positive : Account.t) (negatives positives : list Account.t) :
  forNegatives SignTx gasPrice transferCost [] (negative :: negatives)
    (positive :: positives) =
  match SignTx (gasTransaction gasPrice transferCost negative positive)
          (Account.ChainId positive) (Account.PrivateKey positive) with
  | None => MatchFatal Signature
  | Some sig =>
      Matched (funded gasPrice transferCost negative positive :: negatives)
        (charged gasPrice transferCost negative positive :: positives)
        (mkOriginated (Account.Address positive)
           (mkSigned (gasTransaction gasPrice transferCost negative positive)
              sig))
  end.
Proof.
  simpl. rewrite pair_eq.
  destruct (SignTx _ _ _); reflexivity.
Qed.
End GasFacts.

Lemma nonnegativeBalances_app (l1 l2 : list Account.t) :
  nonnegativeBalances (l1 ++ l2) = nonnegativeBalances l1 + nonnegativeBalances l2.
Proof.
  induction l1 as [| a l1 IH]; simpl; [reflexivity |]. rewrite IH. lia.
Qed.

Lemma nonnegativeBalances_perm (l1 l2 : list Account.t) :
  Permutation l1 l2 -> nonnegativeBalances l1 = nonnegativeBalances l2.
Proof. induction 1; simpl; lia. Qed.

Lemma nonnegativeBalances_nonneg (l : list Account.t) : 0 <= nonnegativeBalances l.
Proof.
  induction l as [| a l IH]; simpl; [lia |]. unfold nonnegativePart. lia.
Qed.

Lemma nonnegativeBalances_refresh (gasPrice : Z) (l : list Account.t) :
  nonnegativeBalances (map (refreshAvailable gasPrice) l) = nonnegativeBalances l.
Proof.
  induction l as [| a l IH]; simpl; [reflexivity |]. rewrite IH. reflexivity.
Qed.

Lemma surplusCount_app (gasPrice : Z) (l1 l2 : list Account.t) :
  surplusCount gasPrice (l1 ++ l2)
  = surplusCount gasPrice l1 + surplusCount gasPrice l2.
Proof.
  induction l1 as [| a l1 IH]; simpl; [reflexivity |]. rewrite IH. lia.
Qed.

Lemma surplusCount_perm (gasPrice : Z) (l1 l2 : list Account.t) :
  Permutation l1 l2 -> surplusCount gasPrice l1 = surplusCount gasPrice l2.
Proof. induction 1; simpl; lia. Qed.

Lemma surplusCount_bounds (gasPrice : Z) (l : list Account.t) :
  0 <= surplusCount gasPrice l <= Z.of_nat (length l).
Proof.
  induction l as [| a l IH]; simpl length; simpl surplusCount; [lia |].
  destruct (isNegative gasPrice a); lia.
Qed.

Lemma surplusCount_refresh (gasPrice : Z) (l : list Account.t) :
  surplusCount gasPrice (map (refreshAvailable gasPrice) l)
  = surplusCount gasPrice l.
Proof.
  induction l as [| a l IH]; simpl; [reflexivity |]. rewrite IH. reflexivity.
Qed.

Lemma separate_spec (gasPrice : Z) (accounts : list Account.t) :
  Permutation (map (refreshAvailable gasPrice) accounts)
    (fst (separate gasPrice accounts) ++ snd (separate gasPrice accounts))
  /\ Forall (inDeficit gasPrice) (fst (separate gasPrice accounts))
  /\ Forall (inSurplus gasPrice) (snd (separate gasPrice accounts)).
Proof.
  induction accounts as [| a rest IH]; simpl.
  - repeat split; constructor.
  - destruct IH as (Hperm & Hneg & Hpos).
    destruct (separate gasPrice rest) as [negatives positives]; simpl in *.
    unfold isNegative. destruct (Z.gtb_spec
      (Account.TotalAssetTransferPrice a gasPrice) (Account.Balance a)) as [Hgt | Hle];
      simpl.
    + repeat split; [apply perm_skip; exact Hperm | | exact Hpos].
      constructor; [| exact Hneg].
      unfold inDeficit, Account.TotalAssetTransferPrice in *; simpl.
      split; [lia | reflexivity].
    + repeat split; [| exact Hneg |].
      * eapply perm_trans; [apply perm_skip; exact Hperm |].
        apply Permutation_middle.
      * constructor; [| exact Hpos].
        unfold inSurplus, Account.TotalAssetTransferPrice in *; simpl.
        split; [lia | reflexivity].
Qed.

Lemma separate_budgets (gasPrice : Z) (accounts : list Account.t) :
  Forall (fun a => 0 <= Account.TotalAssetTransfer a) accounts ->
  Forall (fun a => 0 <= Account.TotalAssetTransfer a)
    (fst (separate gasPrice accounts))
  /\ Forall (fun a => 0 <= Account.TotalAssetTransfer a)
       (snd (separate gasPrice accounts)).
Proof.
  induction 1 as [| a rest Ha Hrest IH]; simpl.
  - split; constructor.
  - destruct IH as [Hneg Hpos].
    destruct (separate gasPrice rest) as [negatives positives]; simpl in *.
    destruct (isNegative gasPrice a); simpl; split;
      try assumption; constructor; assumption.
Qed.

(** One round of [transferGas] lowers the bound. *)
Lemma round_lowers_bound (gasPrice : Z) (negative positive : Account.t)
    (negatives positives : list Account.t) :
  0 < gasPrice ->
  0 <= Account.TotalAssetTransfer negative ->
  0 <= Account.TotalAssetTransfer positive ->
  inDeficit gasPrice negative ->
  inSurplus gasPrice positive ->
  (gasTransferBound gasPrice
     ((funded gasPrice (gasPrice * transferGasUnits) negative positive :: negatives)
        ++ charged gasPrice (gasPrice * transferGasUnits) negative positive
           :: positives)
   < gasTransferBound gasPrice ((negative :: negatives) ++ positive :: positives))%nat.
Proof.
  intros Hgp Hbn Hbp [Hdef Havn] [Hsur Havp].
  unfold gasTransferBound.
  set (fee := gasPrice * transferGasUnits).
  assert (Hfee : 0 < fee) by (unfold fee, transferGasUnits; lia).
  simpl length. rewrite !length_app. simpl length.
  set (n := Z.of_nat (S (length negatives + S (length positives)))).
  assert (Hn : 2 <= n) by (unfold n; lia).
  simpl nonnegativeBalances. simpl surplusCount.
  rewrite !nonnegativeBalances_app, !surplusCount_app.
  simpl nonnegativeBalances. simpl surplusCount.
  pose proof (nonnegativeBalances_nonneg negatives) as HF1.
  pose proof (nonnegativeBalances_nonneg positives) as HF2.
  pose proof (surplusCount_bounds gasPrice negatives) as HS1.
  pose proof (surplusCount_bounds gasPrice positives) as HS2.
  set (F1 := nonnegativeBalances negatives) in *.
  set (F2 := nonnegativeBalances positives) in *.
  set (S1 := surplusCount gasPrice negatives) in *.
  set (S2 := surplusCount gasPrice positives) in *.
  assert (Hneg1 : isNegative gasPrice negative = true).
  { unfold isNegative. apply Z.gtb_lt. lia. }
  assert (Hpos1 : isNegative gasPrice positive = false).
  { unfold isNegative. rewrite Z.gtb_ltb. apply Z.ltb_ge. lia. }
  rewrite Hneg1, Hpos1.
  unfold Account.TotalAssetTransferPrice in *.
  set (need := gasPrice * Account.TotalAssetTransfer negative) in *.
  set (own := gasPrice * Account.TotalAssetTransfer positive) in *.
  assert (Hneed : 0 <= need) by (unfold need; nia).
  assert (Hown : 0 <= own) by (unfold own; nia).
  set (Phi := nonnegativePart negative + (F1 + (nonnegativePart positive + F2))).
  set (Phi' := nonnegativePart (funded gasPrice fee negative positive)
               + (F1 + (nonnegativePart (charged gasPrice fee negative positive)
                        + F2))).
  set (Sur' := (if isNegative gasPrice (funded gasPrice fee negative positive)
                then 0 else 1)
               + (S1 + ((if isNegative gasPrice
                              (charged gasPrice fee negative positive)
                         then 0 else 1) + S2))).
  assert (HPhi : 0 <= Phi) by (unfold Phi, nonnegativePart; lia).
  assert (HdivPhi : 0 <= Phi / fee) by (apply Z.div_pos; lia).
  remember (S1 + S2) as S12 eqn:HS12.
  assert (Hcases :
            (Phi' <= Phi - fee /\ Sur' <= S12 + 2)
            \/ (Phi' <= Phi /\ Sur' = S12)).
  { unfold Phi', Phi, Sur', nonnegativePart, isNegative, funded, charged,
      amountSent, Account.TotalAssetTransferPrice.
    cbn [Account.Balance Account.TotalAssetTransfer Account.Available
         Account.set_Balance Account.set_Nonce].
    fold need own. rewrite Havp. fold own.
    destruct (Z.ltb_spec (Account.Balance positive - own - (need + fee)) 0)
      as [Hpart | Hfull].
    - destruct (Z.lt_ge_cases (Account.Balance positive - own) fee)
        as [Hsmall | Hbig].
      + right. split; [lia |].
        destruct (Z.gtb_spec need
                    (Account.Balance negative
                     + (Account.Balance positive - own - fee))); [| lia].
        destruct (Z.gtb_spec own
                    (Account.Balance positive - own - (need + fee))); lia.
      + left. split; [lia |].
        destruct (need >? _); destruct (own >? _); lia.
    - left. split; [lia |].
      destruct (need >? _); destruct (own >? _); lia. }
  assert (Hmono : forall x, x <= Phi - fee -> x / fee <= Phi / fee - 1).
  { intros x Hx.
    replace (Phi / fee - 1) with ((Phi + (-1) * fee) / fee)
      by (rewrite Z.div_add by lia; lia).
    apply Z.div_le_mono; lia. }
  assert (HQ : Phi' / fee <= Phi / fee - 1 /\ Sur' <= S12 + 2
               \/ Phi' / fee <= Phi / fee /\ Sur' = S12).
  { destruct Hcases as [[HP HS] | [HP HS]].
    - left. split; [apply Hmono; exact HP | exact HS].
    - right. split; [apply Z.div_le_mono; lia | exact HS]. }
  clearbody Phi Phi' Sur' n.
  generalize dependent (Phi' / fee). generalize dependent (Phi / fee).
  intros q Hq q' HQ. nia.
Qed.

Section GasTermination.
Variable Signature : Type.
Variable SignTx : Transaction.t -> Z -> Z -> option Signature.

Lemma transferGas_round (fuel : nat) (gasPrice : Z)
    (accounts : list Account.t)
    (transactions : list (TransactionWithOriginator Signature)) :
  transferGas SignTx (S fuel) gasPrice accounts transactions =
  match forNegatives SignTx gasPrice (gasPrice * transferGasUnits) []
          (sortSlice lessNegatives (fst (separate gasPrice accounts)))
          (sortSlice lessPositives (snd (separate gasPrice accounts))) with
  | NoMatch _ =>
      Returned (map (refreshAvailable gasPrice) accounts, transactions)
  | MatchFatal _ => Fatal
  | Matched negatives' positives' tx =>
      transferGas SignTx fuel gasPrice (negatives' ++ positives')
        (transactions ++ [tx])
  end.
Proof.
  simpl. destruct (separate gasPrice accounts) as [negatives positives].
  reflexivity.
Qed.

(** C3, as amended: for a positive gas price and accounts whose gas
    budgets are not negative, the recursion of [transferGas] ends: with
    any recursion budget above [gasTransferBound] the call either dies in
    [log.Fatal] on a signing error or returns, with the same number of
    accounts and with at most [gasTransferBound] transactions added, one
    per recursive call.  The bound is
    (n + 1) * (sum of the nonnegative balances / fee) + surplus accounts,
    not the number n of accounts. *)
Theorem transferGas_terminates (gasPrice : Z) (accounts : list Account.t)
    (transactions : list (TransactionWithOriginator Signature)) (fuel : nat) :
  0 < gasPrice ->
  Forall (fun a => 0 <= Account.TotalAssetTransfer a) accounts ->
  (gasTransferBound gasPrice accounts < fuel)%nat ->
  transferGas SignTx fuel gasPrice accounts transactions = Fatal
  \/ exists accounts' emitted,
       transferGas SignTx fuel gasPrice accounts transactions
       = Returned (accounts', transactions ++ emitted)
       /\ (length emitted <= gasTransferBound gasPrice accounts)%nat
       /\ length accounts' = length accounts.
Proof.
  revert gasPrice accounts transactions.
  induction fuel as [| fuel IH]; intros gasPrice accounts transactions
    Hgp Hbudgets Hfuel; [lia |].
  rewrite transferGas_round.
  destruct (separate_spec gasPrice accounts) as (Hperm & Hneg & Hpos).
  destruct (separate_budgets gasPrice Hbudgets) as [Hbneg Hbpos].
  pose proof (sortSlice_perm lessNegatives (fst (separate gasPrice accounts)))
    as Hpn.
  pose proof (sortSlice_perm lessPositives (snd (separate gasPrice accounts)))
    as Hpp.
  destruct (sortSlice lessNegatives (fst (separate gasPrice accounts)))
    as [| negative negatives] eqn:Hsn.
  { right. exists (map (refreshAvailable gasPrice) accounts), [].
    simpl. rewrite app_nil_r, length_map. repeat split; lia. }
  destruct (sortSlice lessPositives (snd (separate gasPrice accounts)))
    as [| positive positives] eqn:Hsp.
  { right. exists (map (refreshAvailable gasPrice) accounts), [].
    rewrite forNegatives_no_positives, app_nil_r, length_map.
    repeat split; simpl; lia. }
  rewrite forNegatives_heads.
  destruct (SignTx _ _ _) as [sig |]; [| left; reflexivity].
  set (fee := gasPrice * transferGasUnits).
  set (tx := mkOriginated _ _).
  assert (Hall : Permutation (map (refreshAvailable gasPrice) accounts)
                   ((negative :: negatives) ++ positive :: positives)).
  { eapply perm_trans; [exact Hperm |]. apply Permutation_app; assumption. }
  assert (Hdn : Forall (inDeficit gasPrice) (negative :: negatives))
    by (eapply Permutation_Forall; eassumption).
  assert (Hsp' : Forall (inSurplus gasPrice) (positive :: positives))
    by (eapply Permutation_Forall; eassumption).
  assert (Hbn : Forall (fun a => 0 <= Account.TotalAssetTransfer a)
                  (negative :: negatives))
    by (eapply Permutation_Forall; eassumption).
  assert (Hbp : Forall (fun a => 0 <= Account.TotalAssetTransfer a)
                  (positive :: positives))
    by (eapply Permutation_Forall; eassumption).
  inversion Hdn as [| ? ? Hd1 _]; subst.
  inversion Hsp' as [| ? ? Hs1 _]; subst.
  inversion Hbn as [| ? ? Hb1 Hb1']; subst.
  inversion Hbp as [| ? ? Hb2 Hb2']; subst.
  assert (Hbound : gasTransferBound gasPrice accounts
                   = gasTransferBound gasPrice
                       ((negative :: negatives) ++ positive :: positives)).
  { unfold gasTransferBound.
    rewrite <- (Permutation_length Hall), length_map.
    rewrite <- (nonnegativeBalances_perm Hall), nonnegativeBalances_refresh.
    rewrite <- (surplusCount_perm gasPrice Hall), surplusCount_refresh.
    reflexivity. }
  pose proof (round_lowers_bound negatives positives Hgp Hb1 Hb2 Hd1 Hs1)
    as Hlower.
  fold fee in Hlower.
  set (next := (funded gasPrice fee negative positive :: negatives)
                 ++ charged gasPrice fee negative positive :: positives) in *.
  assert (Hnext : Forall (fun a => 0 <= Account.TotalAssetTransfer a) next).
  { unfold next. apply Forall_app. split; constructor; assumption. }
  destruct (IH gasPrice next (transactions ++ [tx]) Hgp Hnext)
    as [Hfatal | (accounts' & emitted & Hrun & Hlen & Hsame)]; [lia | |].
  - left. exact Hfatal.
  - right. exists accounts', (tx :: emitted).
    rewrite Hrun, <- app_assoc. simpl.
    repeat split; [lia |].
    rewrite Hsame. unfold next.
    rewrite <- (length_map (refreshAvailable gasPrice) accounts).
    rewrite (Permutation_length Hall), !length_app. simpl. reflexivity.
Qed.
End GasTermination.

(** ** The gas limit recorded for a token *)

(** C9, at the failing input: the estimate fails (so the fallback 40000 is
    used, which inflates to 68000) and no override is configured (the
    setting is left at 0).  The claim stores the inflated estimate 68000;
    the code stores the override, whatever it is, because it tests the
    estimate and not the override: the token is recorded with gas limit 0
    and nothing is added to the account's gas budget. *)
Theorem gas_limit_override_unrequested :
  RPC.inflated RPC.defaultGasLimit = 68000
  /\ (forall overrideGasLimit : Z,
        RPC.tokenTransferGas None overrideGasLimit = overrideGasLimit)
  /\ RPC.tokenTransferGas None 0 = 0
  /\ (forall (account : Account.t) (contract : common.Address)
             (symbol : string) (decimals bal : Z),
        let recorded := RPC.recordToken account contract symbol decimals bal None 0 in
        Token.GasLimit (snd recorded) = 0
        /\ Account.TotalAssetTransfer (fst recorded)
           = Account.TotalAssetTransfer account).
Proof.
  split; [vm_compute; reflexivity |].
  split; [intros overrideGasLimit; reflexivity |].
  split; [reflexivity |].
  intros account contract symbol decimals bal. simpl.
  split; [reflexivity |].
  change (RPC.tokenTransferGas None 0) with 0. lia.
Qed.

(** ** Gas redistribution on concrete snapshots *)

(** C1, at the failing input: gas price 1, account 1 with balance 0 and a
    gas budget of 2, account 2 with balance 100000 and a gas budget of 10.
    One transaction of value 2 goes from account 2 to account 1; the fee is
    21000.  The receiver's balance grows by 2, but the sender's balance
    falls from 100000 to 78988, that is by 21012 and not by 2 + 21000:
    line 142 subtracts the total from [Available], not from [Balance].
    In general the receiver's balance grows by the value sent and the
    sender's balance becomes [Available] - (need + fee). *)
Theorem gas_transfer_debits_available :
  gasOutcome
    (transferGas alwaysSigns 3 1
       [exampleAccount 1 0 2; exampleAccount 2 100000 10] [])
  = Some ([(1, 2, 0, 0); (2, 78988, 78978, 1)],
          [(exampleAddress 2, exampleAddress 1, 2)])
  /\ 100000 - 78988 <> 2 + 1 * transferGasUnits
  /\ (forall (Signature : Type)
             (SignTx : Transaction.t -> Z -> Z -> option Signature)
             (gasPrice : Z) (negative positive : Account.t),
        match pair SignTx gasPrice (gasPrice * transferGasUnits)
                negative positive with
        | Transfer negative' positive' tx =>
            Account.Balance negative'
            = Account.Balance negative + Transaction.Value (Tx (SignedTx tx))
            /\ Account.Balance positive'
               = Account.Available positive
                 - (Account.TotalAssetTransferPrice negative gasPrice
                    + gasPrice * transferGasUnits)
        | _ => True
        end).
Proof.
  split; [vm_compute; reflexivity |].
  split; [unfold transferGasUnits; lia |].
  intros Signature SignTx gasPrice negative positive.
  rewrite pair_eq. destruct (SignTx _ _ _); [| exact I].
  split; reflexivity.
Qed.

(** C2, at the failing input (the scenario of section 8 of the
    specification): gas price 1, account 1 with balance 0 and a gas budget
    of 2, account 2 with balance 10 and no tokens.  Account 2 cannot cover
    2 + 21000, so the branch of line 126 sets the amount to
    10 - 21000 = -20990; the guard of line 133 then tests a value that was
    just set to 0, and a transaction of value -20990 is emitted.  Account 2
    is left with balance and [Available] -20992, not 0. *)
Theorem gas_transfer_negative_amount :
  gasOutcome
    (transferGas alwaysSigns 3 1
       [exampleAccount 1 0 2; exampleAccount 2 10 0] [])
  = Some ([(1, -20990, -20992, 0); (2, -20992, -20992, 1)],
          [(exampleAddress 2, exampleAddress 1, -20990)]).
Proof. vm_compute. reflexivity. Qed.

(** C6, at the failing input: gas price 1, two deficit accounts with
    balance 0, account 1 needing 5 and account 2 needing 1, and account 3
    with balance 1000000 and no tokens.  [Available] is -5 and -1; the
    ascending sort of line 109 puts account 1, the most deficient, first,
    and it is funded first. *)
Theorem most_deficient_funded_first :
  gasOutcome
    (transferGas alwaysSigns 4 1
       [exampleAccount 1 0 5; exampleAccount 2 0 1; exampleAccount 3 1000000 0]
       [])
  = Some ([(2, 1, 0, 0); (3, 957994, 957994, 2); (1, 5, 0, 0)],
          [(exampleAddress 3, exampleAddress 1, 5);
           (exampleAddress 3, exampleAddress 2, 1)])
  /\ map Account.Available
       (sortSlice lessNegatives
          (fst (separate 1 [exampleAccount 1 0 5; exampleAccount 2 0 1;
                            exampleAccount 3 1000000 0])))
     = [-5; -1].
Proof. split; vm_compute; reflexivity. Qed.

(** C3, counterexample to the bound: four accounts, five transactions.
    Account 4 funds accounts 1 and 2 in full; both then join the surplus
    side, and accounts 1, 2 and 4 each give what they have left. *)
Lemma five_transfers_from_four_accounts :
  exists accounts' transactions,
    transferGas alwaysSigns 7 1 fourAccounts [] = Returned (accounts', transactions)
    /\ transfers transactions
       = [(exampleAddress 4, exampleAddress 1, 500000);
          (exampleAddress 4, exampleAddress 2, 450000);
          (exampleAddress 1, exampleAddress 3, 79000);
          (exampleAddress 2, exampleAddress 1, 69000);
          (exampleAddress 4, exampleAddress 1, 29000)]
    /\ (length fourAccounts < length transactions)%nat.
Proof.
  destruct (transferGas alwaysSigns 7 1 fourAccounts [])
    as [[accounts' transactions] | |] eqn:Hrun; try (vm_compute in Hrun; discriminate).
  exists accounts', transactions. split; [reflexivity |].
  vm_compute in Hrun. injection Hrun as _ Htx. subst transactions.
  split; [reflexivity | simpl; lia].
Qed.

Lemma transferGas_terminates_witness :
  0 < 1
  /\ Forall (fun a => 0 <= Account.TotalAssetTransfer a) fourAccounts
  /\ (gasTransferBound 1 fourAccounts < 2602)%nat
  /\ (transferGas alwaysSigns 2602 1 fourAccounts [] = Fatal
      \/ exists accounts' emitted,
           transferGas alwaysSigns 2602 1 fourAccounts []
           = Returned (accounts', [] ++ emitted)
           /\ (length emitted <= gasTransferBound 1 fourAccounts)%nat
           /\ length accounts' = length fourAccounts).
Proof.
  assert (H1 : 0 < 1) by lia.
  assert (H2 : Forall (fun a => 0 <= Account.TotalAssetTransfer a) fourAccounts)
    by (repeat constructor; simpl; lia).
  assert (H3 : (gasTransferBound 1 fourAccounts < 2602)%nat)
    by (vm_compute; lia).
  repeat split; try assumption.
  exact (transferGas_terminates alwaysSigns [] H1 H2 H3).
Defined.

(** ** Balance drain *)

Section DrainClaims.
Variable Signature : Type.
Variable SignTx : Transaction.t -> Z -> Z -> option Signature.

(** C4: [getBalanceTx] is total (its recursion is well founded on the gas
    price, lowered by [gasPriceDecrement] on every retry) and never runs
    out of budget; when it returns a transaction, the gas price of the
    transaction is positive, is the initial price lowered a whole number of
    times, the value is positive, and value + gas price * 21000 is the
    account's balance. *)
Theorem getBalanceTx_exact (destinationAddress : common.Address)
    (gasPrice : Z) (account : Account.t) :
  match getBalanceTx SignTx destinationAddress gasPrice account with
  | Returned (Some signedTx) =>
      let tx := Tx signedTx in
      0 < Transaction.GasPrice tx
      /\ (exists retries : Z,
            0 <= retries
            /\ Transaction.GasPrice tx = gasPrice - retries * gasPriceDecrement)
      /\ 0 < Transaction.Value tx
      /\ Transaction.Value tx + Transaction.GasPrice tx * transferGasUnits
         = Account.Balance account
      /\ Transaction.To tx = destinationAddress
      /\ Transaction.Nonce tx = Account.Nonce account
      /\ Transaction.Gas tx = transferGasUnits
  | Returned None => True
  | Fatal => True
  | OutOfFuel => False
  end.
Proof.
  funelim (getBalanceTx SignTx destinationAddress gasPrice account).
  - destruct (SignTx _ _ _) as [sig |]; simpl; [| exact I].
    destruct (andb_prop _ _ e) as [Hvalue Hprice].
    apply Z.gtb_lt in Hvalue. apply Z.gtb_lt in Hprice.
    repeat split; try lia.
    exists 0. lia.
  - destruct (getBalanceTx SignTx destinationAddress
                (gasPrice - gasPriceDecrement) account)
      as [[signedTx |] | |]; simpl in *; try exact I; try contradiction.
    destruct H as (Hprice & (retries & Hretries & Hlowered) & Hrest).
    repeat split; try tauto.
    exists (retries + 1). lia.
  - exact I.
Qed.
(** Every transaction the drain adds carries a positive value at a
    positive gas price. *)
Lemma getBalanceTx_positive (destinationAddress : common.Address)
    (gasPrice : Z) (account : Account.t) :
  match getBalanceTx SignTx destinationAddress gasPrice account with
  | Returned (Some signedTx) =>
      0 < Transaction.Value (Tx signedTx)
      /\ 0 < Transaction.GasPrice (Tx signedTx)
  | Returned None => True
  | Fatal => True
  | OutOfFuel => False
  end.
Proof.
  funelim (getBalanceTx SignTx destinationAddress gasPrice account).
  - destruct (SignTx _ _ _) as [sig |]; simpl; [| exact I].
    destruct (andb_prop _ _ e) as [Hvalue Hprice].
    apply Z.gtb_lt in Hvalue. apply Z.gtb_lt in Hprice.
    split; assumption.
  - exact H.
  - exact I.
Qed.

Variable PendingBalanceAt : common.Address -> option Z.

Lemma drain_positive (destinationAddress : common.Address) (gasPrice : Z)
    (accounts : list Account.t) :
  forall transactions : list (TransactionWithOriginator Signature),
    match drain SignTx destinationAddress gasPrice accounts transactions with
    | Returned transactions' =>
        exists added,
          transactions' = transactions ++ added
          /\ (length added <= length accounts)%nat
          /\ Forall (fun t => 0 < Transaction.Value (Tx (SignedTx t))
                              /\ 0 < Transaction.GasPrice (Tx (SignedTx t)))
               added
    | Fatal => True
    | OutOfFuel => False
    end.
Proof.
  induction accounts as [| account rest IH]; intros transactions; simpl.
  - exists []. rewrite app_nil_r. repeat split; [simpl; lia | constructor].
  - pose proof (getBalanceTx_positive destinationAddress gasPrice account)
      as Hcall.
    destruct (getBalanceTx SignTx destinationAddress gasPrice account)
      as [[signedTx |] | |]; try exact I; try contradiction.
    + specialize (IH (transactions ++
                        [mkOriginated (Account.Address account) signedTx])).
      destruct (drain SignTx destinationAddress gasPrice rest _)
        as [transactions' | |]; try exact I; try contradiction.
      destruct IH as (added & Heq & Hlen & Hall).
      exists (mkOriginated (Account.Address account) signedTx :: added).
      rewrite Heq, <- app_assoc. simpl.
      repeat split; [lia |]. constructor; [exact Hcall | exact Hall].
    + specialize (IH transactions).
      destruct (drain SignTx destinationAddress gasPrice rest transactions)
        as [transactions' | |]; try exact I; try contradiction.
      destruct IH as (added & Heq & Hlen & Hall).
      exists added. repeat split; [exact Heq | lia | exact Hall].
Qed.

Lemma transferBalances_positive (destinationAddress : common.Address)
    (gasPrice : Z) (accounts : list Account.t) (simulate : bool)
    (transactions : list (TransactionWithOriginator Signature)) :
  match transferBalances SignTx PendingBalanceAt destinationAddress gasPrice
          accounts simulate transactions with
  | Returned transactions' =>
      exists added,
        transactions' = transactions ++ added
        /\ (length added <= length accounts)%nat
        /\ Forall (fun t => 0 < Transaction.Value (Tx (SignedTx t))
                            /\ 0 < Transaction.GasPrice (Tx (SignedTx t)))
             added
  | Fatal => True
  | OutOfFuel => False
  end.
Proof.
  unfold transferBalances.
  destruct simulate; [apply drain_positive |].
  pose proof (drain_positive destinationAddress gasPrice
                (GetPendingBalances PendingBalanceAt accounts) transactions)
    as Hdrain.
  unfold GetPendingBalances in Hdrain at 2. rewrite length_map in Hdrain.
  exact Hdrain.
Qed.
End DrainClaims.

(** The scenario of section 8 of the specification: balance 100 at gas
    price 1.  The first price leaves nothing to send, the lowered price is
    negative, and no transaction is built. *)
Example getBalanceTx_dust :
  getBalanceTx alwaysSigns (exampleAddress 9) 1 (exampleAccount 1 100 0)
  = Returned None.
Proof. reflexivity. Qed.

(** ** Ordering *)

Lemma StronglySorted_weaken (A : Type) (R S : A -> A -> Prop) (l : list A) :
  (forall x y, R x y -> S x y) -> StronglySorted R l -> StronglySorted S l.
Proof.
  intros Himp. induction 1 as [| x l Hl IH Hall]; constructor.
  - exact IH.
  - eapply Forall_impl; [| exact Hall]. intros y. apply Himp.
Qed.

Lemma lessPositives_total (x y : Account.t) :
  lessPositives x y = false -> lessPositives y x = true.
Proof. unfold lessPositives. rewrite !Z.geb_leb. lia. Qed.

Lemma lessPositives_trans (x y z : Account.t) :
  lessPositives x y = true -> lessPositives y z = true ->
  lessPositives x z = true.
Proof. unfold lessPositives. rewrite !Z.geb_leb. lia. Qed.

Lemma lessNegatives_total (x y : Account.t) :
  lessNegatives x y = false -> lessNegatives y x = true.
Proof. unfold lessNegatives. lia. Qed.

Lemma lessNegatives_trans (x y z : Account.t) :
  lessNegatives x y = true -> lessNegatives y z = true ->
  lessNegatives x z = true.
Proof. unfold lessNegatives. lia. Qed.

Lemma lessTokens_total (x y : Token.t) :
  lessTokens x y = false -> lessTokens y x = true.
Proof. unfold lessTokens. rewrite !Z.geb_leb. lia. Qed.

Lemma lessTokens_trans (x y z : Token.t) :
  lessTokens x y = true -> lessTokens y z = true -> lessTokens x z = true.
Proof. unfold lessTokens. rewrite !Z.geb_leb. lia. Qed.

Lemma sortTokens_descending (tokens : list Token.t) :
  StronglySorted (fun t u => Token.Balance t >= Token.Balance u)
    (sortSlice lessTokens tokens).
Proof.
  eapply StronglySorted_weaken;
    [| apply (@sortSlice_sorted _ lessTokens lessTokens_total lessTokens_trans)].
  intros t u H. unfold lessTokens in H. rewrite Z.geb_leb in H. lia.
Qed.

Lemma sortPositives_descending (accounts : list Account.t) :
  StronglySorted (fun a b => Account.Available a >= Account.Available b)
    (sortSlice lessPositives accounts).
Proof.
  eapply StronglySorted_weaken;
    [| apply (@sortSlice_sorted _ lessPositives lessPositives_total lessPositives_trans)].
  intros a b H. unfold lessPositives in H. rewrite Z.geb_leb in H. lia.
Qed.

Lemma sortNegatives_ascending (accounts : list Account.t) :
  StronglySorted (fun a b => Account.Available a <= Account.Available b)
    (sortSlice lessNegatives accounts).
Proof.
  eapply StronglySorted_weaken;
    [| apply (@sortSlice_sorted _ lessNegatives lessNegatives_total lessNegatives_trans)].
  intros a b H. unfold lessNegatives in H. lia.
Qed.

(** C5, counterexample: the same three accounts at the same gas price,
    listed in two orders (the order in which [GetAccounts] ranges over its
    map is not fixed).  Accounts 1 and 2 tie on [Available]; no second key
    separates them, and the one that pays is the one listed second. *)
Lemma tied_accounts_follow_input_order :
  Permutation twoDonors twoDonorsSwapped
  /\ option_map snd (gasOutcome (transferGas alwaysSigns 3 1 twoDonors []))
     = Some [(exampleAddress 2, exampleAddress 3, 5)]
  /\ option_map snd (gasOutcome (transferGas alwaysSigns 3 1 twoDonorsSwapped []))
     = Some [(exampleAddress 1, exampleAddress 3, 5)]
  /\ option_map snd (gasOutcome (transferGas alwaysSigns 3 1 twoDonors []))
     <> option_map snd
          (gasOutcome (transferGas alwaysSigns 3 1 twoDonorsSwapped [])).
Proof.
  split; [apply perm_swap |].
  split; [vm_compute; reflexivity |].
  split; [vm_compute; reflexivity |].
  vm_compute. discriminate.
Qed.

(** C5, as amended: each sort returns a permutation of its input in the
    order of its one key (surplus accounts by descending [Available],
    deficit accounts by ascending [Available], tokens by descending
    balance) and compares nothing else: of two elements with equal keys
    the one given second comes out first, whatever their addresses. *)
Theorem sorts_compare_one_key :
  (forall accounts : list Account.t,
      Permutation accounts (sortSlice lessPositives accounts)
      /\ StronglySorted
           (fun a b => Account.Available a >= Account.Available b)
           (sortSlice lessPositives accounts)
      /\ Permutation accounts (sortSlice lessNegatives accounts)
      /\ StronglySorted
           (fun a b => Account.Available a <= Account.Available b)
           (sortSlice lessNegatives accounts))
  /\ (forall tokens : list Token.t,
        Permutation tokens (sortSlice lessTokens tokens)
        /\ StronglySorted (fun t u => Token.Balance t >= Token.Balance u)
             (sortSlice lessTokens tokens))
  /\ (forall a b : Account.t,
        Account.Available a = Account.Available b ->
        sortSlice lessPositives [a; b] = [b; a]
        /\ sortSlice lessNegatives [a; b] = [b; a])
  /\ (forall t u : Token.t,
        Token.Balance t = Token.Balance u ->
        sortSlice lessTokens [t; u] = [u; t]).
Proof.
  split; [| split; [| split]].
  - intros accounts. repeat split.
    + apply sortSlice_perm.
    + apply sortPositives_descending.
    + apply sortSlice_perm.
    + apply sortNegatives_ascending.
  - intros tokens. split; [apply sortSlice_perm | apply sortTokens_descending].
  - intros a b Heq. unfold sortSlice, lessPositives, lessNegatives. simpl.
    rewrite Heq.
    replace (Account.Available b >=? Account.Available b) with true
      by (symmetry; rewrite Z.geb_leb; apply Z.leb_refl).
    rewrite Z.leb_refl. split; reflexivity.
  - intros t u Heq. unfold sortSlice, lessTokens. simpl. rewrite Heq.
    replace (Token.Balance u >=? Token.Balance u) with true
      by (symmetry; rewrite Z.geb_leb; apply Z.leb_refl).
    reflexivity.
Qed.

Lemma sorts_compare_one_key_witness :
  Account.Available (exampleAccount 1 50000 0)
  = Account.Available (exampleAccount 2 70000 0)
  /\ sortSlice lessPositives [exampleAccount 1 50000 0; exampleAccount 2 70000 0]
     = [exampleAccount 2 70000 0; exampleAccount 1 50000 0]
  /\ sortSlice lessNegatives [exampleAccount 1 50000 0; exampleAccount 2 70000 0]
     = [exampleAccount 2 70000 0; exampleAccount 1 50000 0].
Proof.
  split; [reflexivity |].
  apply (proj1 (proj2 (proj2 sorts_compare_one_key))). reflexivity.
Defined.

(** ** Token sweep *)

(** C7, counterexample: at gas price 1 the fee of the token, gas price
    times gas limit, is 2^64 - 1 and exceeds the balance 0; the code
    computes the fee from [int64(GasLimit)], which is -1, finds the balance
    sufficient, emits the sweep and credits the account with 1. *)
Lemma sweep_with_wrapped_fee :
  1 * Token.GasLimit hugeGasLimitToken > Account.Balance hugeGasLimitAccount
  /\ (let '(account', transactions) :=
        sweepAccount alwaysSigns (exampleAddress 9) 1 hugeGasLimitAccount [] in
      map (fun t => Transaction.Gas (Tx (SignedTx t))) transactions
      = [2 ^ 64 - 1]
      /\ Account.Balance account' = 1).
Proof. split; [vm_compute; reflexivity |]. vm_compute. split; reflexivity. Qed.

Section SweepClaims.
Variable Signature : Type.
Variable SignTx : Transaction.t -> Z -> Z -> option Signature.

Lemma sweepToken_cases (destinationAddress : common.Address) (gasPrice : Z)
    (account : Account.t)
    (transactions : list (TransactionWithOriginator Signature))
    (token : Token.t) :
  sweepToken SignTx destinationAddress gasPrice (account, transactions) token =
  if Account.Balance account >=? Token.TotalTransferPrice token gasPrice then
    match SignTx (sweepTransaction destinationAddress gasPrice account token)
            (Account.ChainId account) (Account.PrivateKey account) with
    | None => (account, transactions)
    | Some sig =>
        (swept gasPrice account token,
         transactions ++
           [mkOriginated (Account.Address account)
              (mkSigned
                 (sweepTransaction destinationAddress gasPrice account token)
                 sig)])
    end
  else (account, transactions).
Proof. reflexivity. Qed.

(** C7, as amended.  The tokens of an account are evaluated in the order
    [sortSlice lessTokens] gives them: a permutation of the holdings in
    descending order of balance.  At the moment a token is evaluated (after
    the tokens [before] it), with fee = gas price * int64(GasLimit):
    - if the balance is below the fee, nothing is emitted and the account
      is unchanged;
    - otherwise, unless signing fails (then also nothing changes), exactly
      one transaction is appended, the balance falls by the fee and the
      nonce advances by one;
    - in every case the tokens [after] it are evaluated next.
    The fee is gas price * GasLimit whenever GasLimit is below 2^63. *)
Theorem sweep_affordable_tokens_in_order (destinationAddress : common.Address)
    (gasPrice : Z) (account : Account.t)
    (transactions : list (TransactionWithOriginator Signature)) :
  let tokens := sortSlice lessTokens (Account.Tokens account) in
  Permutation (Account.Tokens account) tokens
  /\ StronglySorted (fun t u => Token.Balance t >= Token.Balance u) tokens
  /\ forall (before after : list Token.t) (token : Token.t),
       tokens = before ++ token :: after ->
       let st :=
         fold_left (sweepToken SignTx destinationAddress gasPrice) before
           (Account.set_Tokens account tokens, transactions) in
       let fee := gasPrice * int64_of_uint64 (Token.GasLimit token) in
       let st' := sweepToken SignTx destinationAddress gasPrice st token in
       sweepAccount SignTx destinationAddress gasPrice account transactions
       = fold_left (sweepToken SignTx destinationAddress gasPrice) after st'
       /\ (Token.GasLimit token < 2 ^ 63 ->
           fee = gasPrice * Token.GasLimit token)
       /\ (Account.Balance (fst st) < fee -> st' = st)
       /\ (fee <= Account.Balance (fst st) ->
           match SignTx
                   (sweepTransaction destinationAddress gasPrice (fst st) token)
                   (Account.ChainId (fst st)) (Account.PrivateKey (fst st)) with
           | None => st' = st
           | Some sig =>
               snd st' =
               snd st ++
                 [mkOriginated (Account.Address (fst st))
                    (mkSigned
                       (sweepTransaction destinationAddress gasPrice (fst st)
                          token) sig)]
               /\ Account.Balance (fst st') = Account.Balance (fst st) - fee
               /\ Account.Nonce (fst st') = uint64_succ (Account.Nonce (fst st))
               /\ fst st' = swept gasPrice (fst st) token
           end).
Proof.
  intros tokens. split; [apply sortSlice_perm |].
  split; [apply sortTokens_descending |].
  intros before after token Hsplit st fee st'.
  split.
  { unfold sweepAccount. fold tokens. rewrite Hsplit at 1.
    rewrite fold_left_app. reflexivity. }
  split.
  { intros Hsmall. unfold fee, int64_of_uint64.
    destruct (Z.ltb_spec (Token.GasLimit token) (2 ^ 63)); [reflexivity | lia]. }
  unfold st'. destruct st as [account0 transactions0]. simpl fst. simpl snd.
  rewrite sweepToken_cases. unfold Token.TotalTransferPrice. fold fee.
  split.
  - intros Hlow.
    destruct (Z.geb_spec (Account.Balance account0) fee); [lia | reflexivity].
  - intros Hhigh.
    destruct (Z.geb_spec (Account.Balance account0) fee); [| lia].
    destruct (SignTx _ _ _) as [sig |]; [| reflexivity].
    simpl. repeat split.
Qed.
End SweepClaims.

Lemma sweep_affordable_tokens_in_order_witness :
  sortSlice lessTokens (Account.Tokens twoTokenAccount)
  = [largerToken] ++ smallerToken :: []
  /\ sweepAccount alwaysSigns (exampleAddress 9) 1 twoTokenAccount []
     = fold_left (sweepToken alwaysSigns (exampleAddress 9) 1) []
         (sweepToken alwaysSigns (exampleAddress 9) 1
            (fold_left (sweepToken alwaysSigns (exampleAddress 9) 1)
               [largerToken]
               (Account.set_Tokens twoTokenAccount
                  (sortSlice lessTokens (Account.Tokens twoTokenAccount)), []))
            smallerToken).
Proof.
  assert (Hsplit : sortSlice lessTokens (Account.Tokens twoTokenAccount)
                   = [largerToken] ++ smallerToken :: [])
    by reflexivity.
  split; [exact Hsplit |].
  exact (proj1 (proj2 (proj2 (sweep_affordable_tokens_in_order
                                alwaysSigns (exampleAddress 9) 1
                                twoTokenAccount []))
                  _ _ _ Hsplit)).
Defined.

(** ** Call data of a token sweep *)

(** The digest of the empty message, as published for Keccak-256. *)
Example LegacyKeccak256_empty :
  sha3.LegacyKeccak256 []
  = [xc5; xd2; x46; x01; x86; xf7; x23; x3c; x92; x7e; x7d; xb2; xdc; xc7;
     x03; xc0; xe5; x00; xb6; x53; xca; x82; x27; x3b; x7b; xfa; xd8; x04;
     x5d; x85; xa4; x70].
Proof. vm_compute. reflexivity. Qed.

Lemma Z_of_byte_of_Z (z : Z) : Z_of_byte (byte_of_Z z) = z mod 256.
Proof.
  assert (Hrange : 0 <= z mod 256 < 256) by (apply Z.mod_pos_bound; lia).
  unfold Z_of_byte, byte_of_Z.
  destruct (Byte.of_N (Z.to_N (z mod 256))) as [b |] eqn:Hb.
  - apply Byte.to_of_N in Hb. rewrite Hb. apply Z2N.id. lia.
  - apply Byte.of_N_None_iff in Hb. lia.
Qed.

Lemma bigEndianValue_snoc (bytes : list byte) (b : byte) :
  bigEndianValue (bytes ++ [b]) = bigEndianValue bytes * 256 + Z_of_byte b.
Proof. unfold bigEndianValue. rewrite fold_left_app. reflexivity. Qed.

Lemma bigEndianValue_zeros (k : nat) (bytes : list byte) :
  bigEndianValue (repeat x00 k ++ bytes) = bigEndianValue bytes.
Proof.
  unfold bigEndianValue. rewrite fold_left_app. f_equal.
  induction k as [| k IH]; simpl; [reflexivity | exact IH].
Qed.

Lemma magnitudeLE_value (n : Z) :
  0 <= n -> bigEndianValue (rev (magnitudeLE n)) = n.
Proof.
  funelim (magnitudeLE n); intros Hn.
  - simpl. unfold bigEndianValue. simpl. lia.
  - simpl rev. rewrite bigEndianValue_snoc, Z_of_byte_of_Z.
    rewrite H by (apply Z.div_pos; lia).
    pose proof (Z.div_mod n 256). lia.
Qed.

Lemma magnitudeLE_length (n : Z) :
  forall k : nat, 0 <= n < 256 ^ Z.of_nat k -> (length (magnitudeLE n) <= k)%nat.
Proof.
  funelim (magnitudeLE n); intros k Hn.
  - simpl. lia.
  - destruct k as [| k]; [simpl in Hn; lia |].
    simpl length. apply le_n_S. apply H.
    rewrite Nat2Z.inj_succ, Z.pow_succ_r in Hn by lia.
    split; [apply Z.div_pos; lia |].
    apply Z.div_lt_upper_bound; lia.
Qed.

Lemma LeftPadBytes_amount (tokenBalance : Z) :
  0 <= tokenBalance < 2 ^ 256 ->
  length (LeftPadBytes (big.Bytes tokenBalance) 32) = 32%nat
  /\ bigEndianValue (LeftPadBytes (big.Bytes tokenBalance) 32) = tokenBalance.
Proof.
  intros Hrange. unfold LeftPadBytes, big.Bytes.
  rewrite Z.abs_eq by lia.
  assert (Hlen : (length (rev (magnitudeLE tokenBalance)) <= 32)%nat).
  { rewrite length_rev. apply magnitudeLE_length.
    change (256 ^ Z.of_nat 32) with (2 ^ 256). exact Hrange. }
  destruct (Nat.leb_spec 32 (length (rev (magnitudeLE tokenBalance))))
    as [Hfull | Hshort].
  - split; [lia | apply magnitudeLE_value; lia].
  - split.
    + rewrite length_app, repeat_length. lia.
    + rewrite bigEndianValue_zeros. apply magnitudeLE_value. lia.
Qed.

Lemma AddressHashBytes_right_aligned (a : common.Address) :
  length a = common.AddressLength ->
  AddressHashBytes a = repeat x00 12 ++ a.
Proof.
  intros Hlen. unfold AddressHashBytes, BytesToHash, common.HashLength.
  rewrite Hlen. unfold common.AddressLength. simpl skipn.
  rewrite Hlen. reflexivity.
Qed.

Lemma methodID_bytes : methodID = [xa9; x05; x9c; xbb].
Proof. vm_compute. reflexivity. Qed.

(** C8, counterexample: the selector is the first four bytes of the hash,
    a9 05 9c bb; the four low-order bytes of the hash are 47 c9 04 9b. *)
Lemma selector_is_not_low_order :
  sha3.LegacyKeccak256 transferSignature
  = [xa9; x05; x9c; xbb; x2a; xb0; x9e; xb2; x19; x58; x3f; x4a; x59; xa5;
     xd0; x62; x3a; xde; x34; x6d; x96; x2b; xcd; x4e; x46; xb1; x1d; xa0;
     x47; xc9; x04; x9b]
  /\ skipn 28 (sha3.LegacyKeccak256 transferSignature) = [x47; xc9; x04; x9b]
  /\ methodID <> skipn 28 (sha3.LegacyKeccak256 transferSignature).
Proof.
  split; [vm_compute; reflexivity |].
  split; [vm_compute; reflexivity |].
  vm_compute. discriminate.
Qed.

(** C8, as amended: for a 20-byte destination and a token amount below
    2^256, the call data is 68 bytes: the first four bytes of the
    Keccak-256 hash of [transfer(address,uint256)] (a9 05 9c bb), twelve
    zero bytes followed by the destination, and a 32-byte field whose
    big-endian value is the amount.  It is the data of the transaction
    [sweepToken] builds for a token. *)
Theorem transfer_call_data (destinationAddress : common.Address)
    (tokenBalance : Z) :
  length destinationAddress = common.AddressLength ->
  0 <= tokenBalance < 2 ^ 256 ->
  methodID
  = firstn 4
      (sha3.LegacyKeccak256 (list_byte_of_string "transfer(address,uint256)"))
  /\ methodID = [xa9; x05; x9c; xbb]
  /\ (exists amount : list byte,
        transferData destinationAddress tokenBalance
        = methodID ++ (repeat x00 12 ++ destinationAddress) ++ amount
        /\ length amount = 32%nat
        /\ bigEndianValue amount = tokenBalance)
  /\ length (transferData destinationAddress tokenBalance) = 68%nat
  /\ (forall (gasPrice : Z) (account : Account.t) (token : Token.t),
        Token.Balance token = tokenBalance ->
        Transaction.Data
          (sweepTransaction destinationAddress gasPrice account token)
        = transferData destinationAddress tokenBalance).
Proof.
  intros Hlen Hrange.
  destruct (LeftPadBytes_amount Hrange) as [Hlen32 Hvalue].
  split; [reflexivity |].
  split; [exact methodID_bytes |].
  split.
  { exists (LeftPadBytes (big.Bytes tokenBalance) 32).
    split; [| split; assumption].
    unfold transferData.
    rewrite (AddressHashBytes_right_aligned _ Hlen), <- app_assoc.
    reflexivity. }
  split.
  { unfold transferData.
    rewrite (AddressHashBytes_right_aligned _ Hlen), methodID_bytes.
    rewrite !length_app, Hlen32, repeat_length, Hlen. reflexivity. }
  intros gasPrice account token Htoken. simpl. rewrite Htoken. reflexivity.
Qed.

Lemma transfer_call_data_witness :
  length (exampleAddress 9) = common.AddressLength
  /\ 0 <= 1000 < 2 ^ 256
  /\ length (transferData (exampleAddress 9) 1000) = 68%nat.
Proof.
  assert (H1 : length (exampleAddress 9) = common.AddressLength) by reflexivity.
  assert (H2 : 0 <= 1000 < 2 ^ 256) by (split; [lia | reflexivity]).
  split; [exact H1 |]. split; [exact H2 |].
  exact (proj1 (proj2 (proj2 (proj2 (transfer_call_data _ H1 H2))))).
Defined.

(** ** The balance drain writes nothing *)

Lemma preserved_refl (s : Store.state) : preserved s s.
Proof. split; [reflexivity |]. exists []. symmetry. apply app_nil_r. Qed.

Lemma preserved_trans (s1 s2 s3 : Store.state) :
  preserved s1 s2 -> preserved s2 s3 -> preserved s1 s3.
Proof.
  intros [Ha [added Hi]] [Ha' [added' Hi']]. split; [congruence |].
  exists (added ++ added'). rewrite Hi', Hi, app_assoc. reflexivity.
Qed.

Lemma preserved_alloc (s : Store.state) (v : Z) : preserved s (Store.alloc s v).
Proof. split; [reflexivity |]. exists [v]. reflexivity. Qed.

Lemma preserved_costed (s : Store.state) (gasPrice : Store.loc)
    (account : Store.AccountRef.t) :
  preserved s (Store.costed s gasPrice account).
Proof.
  unfold Store.costed.
  eapply preserved_trans; [| apply preserved_alloc].
  eapply preserved_trans; [| apply preserved_alloc].
  apply preserved_alloc.
Qed.

Lemma preserved_lowered (s : Store.state) (gasPrice : Store.loc) :
  preserved s (Store.lowered s gasPrice).
Proof.
  unfold Store.lowered.
  eapply preserved_trans; [| apply preserved_alloc].
  apply preserved_alloc.
Qed.

Lemma preserved_load (s s' : Store.state) (l : Store.loc) :
  preserved s s' -> (l < Store.fresh s)%nat -> Store.load s' l = Store.load s l.
Proof.
  intros [_ [added Hi]] Hl. unfold Store.load. rewrite Hi.
  apply app_nth1. exact Hl.
Qed.

Lemma update_length (l : Store.loc) (v : Z) (cells : list Z) :
  length (Store.update l v cells) = length cells.
Proof.
  revert l. induction cells as [| c cells IH]; intros [| l]; simpl;
    try reflexivity.
  rewrite IH. reflexivity.
Qed.

Lemma update_other (l l' : Store.loc) (v : Z) (cells : list Z) :
  l <> l' -> nth l' (Store.update l v cells) 0 = nth l' cells 0.
Proof.
  revert l l'. induction cells as [| c cells IH]; intros [| l] [| l'] Hne;
    simpl; try reflexivity; try congruence.
  apply IH. congruence.
Qed.

Section DrainFrame.
Variable Signature : Type.
Variable SignTx : Transaction.t -> Z -> Z -> option Signature.
Variable PendingBalanceAt : common.Address -> option Z.

Lemma getBalanceTx_preserves (s : Store.state)
    (destinationAddress : common.Address) (gasPrice : Store.loc)
    (account : Store.AccountRef.t) :
  match Store.getBalanceTx SignTx s destinationAddress gasPrice account with
  | Returned (_, s') => preserved s s'
  | Fatal => True
  | OutOfFuel => False
  end.
Proof.
  funelim (Store.getBalanceTx SignTx s destinationAddress gasPrice account).
  - destruct (SignTx _ _ _); [apply preserved_costed | exact I].
  - destruct (Store.getBalanceTx SignTx _ _ _ _) as [[result s'] | |];
      try exact I; try contradiction.
    eapply preserved_trans; [apply preserved_costed |].
    eapply preserved_trans; [apply preserved_lowered | exact H].
  - apply preserved_costed.
Qed.

Lemma drain_preserves (n : nat) :
  forall (x : nat) (s : Store.state) (destinationAddress : common.Address)
         (gasPrice : Store.loc)
         (transactions : list (TransactionWithOriginator Signature)),
    match Store.drain SignTx n x s destinationAddress gasPrice transactions with
    | Returned (_, s') => preserved s s'
    | Fatal => True
    | OutOfFuel => False
    end.
Proof.
  induction n as [| n IH]; intros x s destinationAddress gasPrice transactions;
    simpl.
  - apply preserved_refl.
  - destruct (nth_error (Store.accounts s) x) as [account |];
      [| apply preserved_refl].
    pose proof (getBalanceTx_preserves s destinationAddress gasPrice account)
      as Hcall.
    destruct (Store.getBalanceTx SignTx s destinationAddress gasPrice account)
      as [[[signedTx |] s1] | |]; try exact I; try contradiction.
    + specialize (IH (S x) s1 destinationAddress gasPrice
                    (transactions ++
                       [mkOriginated (Store.AccountRef.Address account)
                          signedTx])).
      destruct (Store.drain SignTx n (S x) s1 _ _ _) as [[result s2] | |];
        try exact I; try contradiction.
      eapply preserved_trans; eassumption.
    + specialize (IH (S x) s1 destinationAddress gasPrice transactions).
      destruct (Store.drain SignTx n (S x) s1 _ _ _) as [[result s2] | |];
        try exact I; try contradiction.
      eapply preserved_trans; eassumption.
Qed.

(** The refresh writes the [Balance] cells of the accounts and nothing
    else. *)
Lemma GetPendingBalances_frame (n : nat) :
  forall (x : nat) (s : Store.state),
    let s' := Store.GetPendingBalances PendingBalanceAt n x s in
    Store.accounts s' = Store.accounts s
    /\ length (Store.ints s') = length (Store.ints s)
    /\ forall l : Store.loc,
         Forall (fun a => Store.AccountRef.Balance a <> l) (Store.accounts s) ->
         Store.load s' l = Store.load s l.
Proof.
  induction n as [| n IH]; intros x s; simpl.
  - repeat split.
  - destruct (nth_error (Store.accounts s) x) as [account |] eqn:Hx;
      [| repeat split].
    destruct (PendingBalanceAt (Store.AccountRef.Address account)) as [bal |].
    + destruct (IH (S x) (Store.setInt s (Store.AccountRef.Balance account) bal))
        as (Ha & Hl & Hframe).
      simpl in *. split; [exact Ha |]. split.
      * rewrite Hl. apply update_length.
      * intros l Hall. rewrite (Hframe l Hall). unfold Store.load. simpl.
        apply update_other.
        apply nth_error_In in Hx.
        rewrite Forall_forall in Hall. apply Hall. exact Hx.
    + apply IH.
Qed.

(** C10: [getBalanceTx] and the loop of [transferBalances] only allocate.
    The accounts slice (so every [Nonce] and every token list) is the one
    the phase started with, and every cell that existed when the loop
    started (every [Balance], [Available], gas budget and token balance)
    holds the value it held then.  When simulating the loop starts from
    the state [transferBalances] was called in; otherwise from that state
    after [GetPendingBalances], which leaves the slice alone too and writes
    [Balance] cells only. *)
Theorem drain_reads_only (s : Store.state)
    (destinationAddress : common.Address) (gasPrice : Store.loc)
    (simulate : bool)
    (transactions : list (TransactionWithOriginator Signature)) :
  let refreshed :=
    if simulate then s
    else Store.GetPendingBalances PendingBalanceAt
           (length (Store.accounts s)) 0 s in
  Store.accounts refreshed = Store.accounts s
  /\ length (Store.ints refreshed) = length (Store.ints s)
  /\ match Store.transferBalances SignTx PendingBalanceAt s destinationAddress
             gasPrice simulate transactions with
     | Returned (_, s') =>
         Store.accounts s' = Store.accounts s
         /\ exists added, Store.ints s' = Store.ints refreshed ++ added
     | Fatal => True
     | OutOfFuel => False
     end
  /\ forall account : Store.AccountRef.t,
       match Store.getBalanceTx SignTx s destinationAddress gasPrice account with
       | Returned (_, s') =>
           Store.accounts s' = Store.accounts s
           /\ exists added, Store.ints s' = Store.ints s ++ added
       | Fatal => True
       | OutOfFuel => False
       end.
Proof.
  intros refreshed.
  assert (Hrefresh : Store.accounts refreshed = Store.accounts s
                     /\ length (Store.ints refreshed) = length (Store.ints s)).
  { unfold refreshed. destruct simulate; [split; reflexivity |].
    destruct (GetPendingBalances_frame (length (Store.accounts s)) 0 s)
      as (Ha & Hl & _). split; assumption. }
  destruct Hrefresh as [Ha Hl].
  split; [exact Ha |]. split; [exact Hl |]. split.
  - unfold Store.transferBalances. fold refreshed.
    pose proof (drain_preserves (length (Store.accounts s)) 0 refreshed
                  destinationAddress gasPrice transactions) as Hdrain.
    destruct (Store.drain SignTx _ _ refreshed _ _ _) as [[result s'] | |];
      try exact I; try contradiction.
    destruct Hdrain as [Hacc Hints]. split; [congruence | exact Hints].
  - intros account.
    pose proof (getBalanceTx_preserves s destinationAddress gasPrice account)
      as Hcall.
    destruct (Store.getBalanceTx SignTx s destinationAddress gasPrice account)
      as [[result s'] | |]; try exact I; try contradiction.
    exact Hcall.
Qed.
End DrainFrame.

(** The drain of [exampleStore] when simulating: two retries are needed
    before one unit is left to send at gas price 1000000; the five cells
    and the slice are as before, thirteen cells were allocated. *)
Example drain_example :
  match Store.transferBalances alwaysSigns (fun _ => None) exampleStore
          (exampleAddress 9) 0%nat true [] with
  | Returned (transactions, s') =>
      map (fun t => (Transaction.Nonce (Tx (SignedTx t)),
                     Transaction.Value (Tx (SignedTx t)),
                     Transaction.GasPrice (Tx (SignedTx t)))) transactions
      = [(7, 1, 1000000)]
      /\ firstn 5 (Store.ints s') = Store.ints exampleStore
      /\ length (Store.ints s') = 18%nat
      /\ Store.accounts s' = Store.accounts exampleStore
  | _ => False
  end.
Proof. vm_compute. repeat split. Qed.

(** ** The two models of the drain agree *)

Lemma load_costed_total (s : Store.state) (gasPrice : Store.loc)
    (account : Store.AccountRef.t) :
  (gasPrice < Store.fresh s)%nat ->
  (Store.AccountRef.Balance account < Store.fresh s)%nat ->
  Store.load (Store.costed s gasPrice account) (Store.totalAmountToTransfer s)
  = Store.load s (Store.AccountRef.Balance account)
    - Store.load s gasPrice * transferGasUnits.
Proof.
  intros Hg Hb. unfold Store.costed, Store.totalAmountToTransfer.
  set (s1 := Store.alloc s transferGasUnits).
  set (s2 := Store.alloc s1 (Store.load s1 gasPrice * Store.load s1 (Store.fresh s))).
  assert (H1 : Store.fresh s1 = S (Store.fresh s)) by apply Store.fresh_alloc.
  assert (H2 : Store.fresh s2 = S (Store.fresh s1)) by apply Store.fresh_alloc.
  replace (Store.fresh s + 2)%nat with (Store.fresh s2) by lia.
  rewrite Store.load_alloc_fresh.
  unfold s2 at 1 2. rewrite !Store.load_alloc_old by lia.
  rewrite Store.load_alloc_fresh.
  unfold s1. rewrite !Store.load_alloc_old by lia.
  rewrite Store.load_alloc_fresh. reflexivity.
Qed.

Lemma view_preserved (s s' : Store.state) (a : Store.AccountRef.t) :
  allocated s a -> preserved s s' -> view s' a = view s a.
Proof.
  intros (Hb & Ht & Ha & Hc & Htokens) Hpre. unfold view.
  rewrite !(preserved_load Hpre) by assumption.
  f_equal. apply map_ext_in. intros t Hin.
  rewrite Forall_forall in Htokens. specialize (Htokens t Hin).
  unfold viewToken. rewrite (preserved_load Hpre) by assumption. reflexivity.
Qed.

Lemma allocated_preserved (s s' : Store.state) (a : Store.AccountRef.t) :
  allocated s a -> preserved s s' -> allocated s' a.
Proof.
  intros (Hb & Ht & Ha & Hc & Htokens) [_ [added Hints]].
  assert (Hgrow : (Store.fresh s <= Store.fresh s')%nat).
  { unfold Store.fresh. rewrite Hints, length_app. lia. }
  repeat split; try lia.
  eapply Forall_impl; [| exact Htokens]. simpl. intros t Hlt. lia.
Qed.

Section DrainAgreement.
Variable Signature : Type.
Variable SignTx : Transaction.t -> Z -> Z -> option Signature.

Lemma getBalanceTx_body (destinationAddress : common.Address) (gasPrice : Z)
    (account : Account.t) :
  getBalanceTx SignTx destinationAddress gasPrice account =
  if (Account.Balance account - gasPrice * transferGasUnits >? 0)
     && (gasPrice >? 0)
  then
    match SignTx
            (Transaction.mk (Account.Nonce account) destinationAddress
               (Account.Balance account - gasPrice * transferGasUnits)
               transferGasUnits gasPrice [])
            (Account.ChainId account) (Account.PrivateKey account) with
    | None => Fatal
    | Some sig =>
        Returned
          (Some
             (mkSigned
                (Transaction.mk (Account.Nonce account) destinationAddress
                   (Account.Balance account - gasPrice * transferGasUnits)
                   transferGasUnits gasPrice []) sig))
    end
  else if gasPrice >? 0
       then getBalanceTx SignTx destinationAddress
              (gasPrice - gasPriceDecrement) account
       else Returned None.
Proof.
  funelim (getBalanceTx SignTx destinationAddress gasPrice account).
  - rewrite e. reflexivity.
  - rewrite (not_true_is_false _ n).
    replace (gasPrice >? 0) with true by (symmetry; apply Z.gtb_lt; lia).
    reflexivity.
  - rewrite (not_true_is_false _ n).
    replace (gasPrice >? 0) with false
      by (symmetry; rewrite Z.gtb_ltb; apply Z.ltb_ge; lia).
    reflexivity.
Qed.

(** X13: On allocated pointers the drain over the store builds the transaction
    the drain over values builds from the contents of the cells. *)
Lemma getBalanceTx_agrees (s : Store.state)
    (destinationAddress : common.Address) (gasPrice : Store.loc)
    (account : Store.AccountRef.t) :
  (gasPrice < Store.fresh s)%nat ->
  allocated s account ->
  match Store.getBalanceTx SignTx s destinationAddress gasPrice account with
  | Returned (result, _) =>
      getBalanceTx SignTx destinationAddress (Store.load s gasPrice)
        (view s account) = Returned result
  | Fatal =>
      getBalanceTx SignTx destinationAddress (Store.load s gasPrice)
        (view s account) = Fatal
  | OutOfFuel => False
  end.
Proof.
  funelim (Store.getBalanceTx SignTx s destinationAddress gasPrice account);
    intros Hg Hall; clear Heqcall; try clear Heq0; try clear Heq;
    pose proof Hall as (Hb & _ & _ & Hc & _);
    pose proof (@load_costed_total s gasPrice account Hg Hb) as Htotal;
    pose proof (@Store.load_costed_old s gasPrice account gasPrice Hg) as Hprice;
    pose proof (@Store.load_costed_old s gasPrice account _ Hc) as Hchain.
  - rewrite Htotal, Hprice in e. rewrite Htotal, Hprice, Hchain.
    rewrite getBalanceTx_body. unfold view at 1 2. simpl.
    rewrite e. unfold view. simpl.
    destruct (SignTx _ _ _); reflexivity.
  - rewrite Htotal, Hprice in n. rewrite Hprice in g.
    set (s1 := Store.costed s gasPrice account) in *.
    assert (Hpre : preserved s (Store.lowered s1 gasPrice)).
    { eapply preserved_trans;
        [apply preserved_costed | apply preserved_lowered]. }
    assert (Hnew : Store.load (Store.lowered s1 gasPrice)
                     (Store.loweredGasPrice s1)
                   = Store.load s gasPrice - gasPriceDecrement).
    { rewrite Store.load_lowered_new
        by (unfold s1; rewrite Store.fresh_costed; lia).
      rewrite Hprice. reflexivity. }
    assert (Hfresh : (Store.loweredGasPrice s1
                      < Store.fresh (Store.lowered s1 gasPrice))%nat).
    { rewrite Store.fresh_lowered. unfold Store.loweredGasPrice. lia. }
    specialize (H Hfresh (allocated_preserved Hall Hpre)).
    rewrite Hnew, (view_preserved Hall Hpre) in H.
    rewrite getBalanceTx_body. unfold view at 1 2. simpl.
    rewrite (not_true_is_false _ n).
    replace (Store.load s gasPrice >? 0) with true
      by (symmetry; apply Z.gtb_lt; lia).
    exact H.
  - rewrite Htotal, Hprice in n. rewrite Hprice in n0.
    rewrite getBalanceTx_body. unfold view at 1 2. simpl.
    rewrite (not_true_is_false _ n).
    replace (Store.load s gasPrice >? 0) with false
      by (symmetry; rewrite Z.gtb_ltb; apply Z.ltb_ge; lia).
    reflexivity.
Qed.
End DrainAgreement.

(** * Further properties of the planners *)

(** ** The rounds of the gas redistribution *)

Section GasRounds.
Variable Signature : Type.
Variable SignTx : Transaction.t -> Z -> Z -> option Signature.

Lemma transferGas_rounds (fuel : nat) :
  forall (gasPrice : Z) (accounts : list Account.t)
         (transactions : list (TransactionWithOriginator Signature))
         (accounts' : list Account.t)
         (transactions' : list (TransactionWithOriginator Signature)),
    transferGas SignTx fuel gasPrice accounts transactions
    = Returned (accounts', transactions') ->
    gasRounds SignTx gasPrice accounts transactions accounts' transactions'.
Proof.
  induction fuel as [| fuel IH];
    intros gasPrice accounts transactions accounts' transactions' Hrun;
    [discriminate |].
  rewrite transferGas_round in Hrun.
  destruct (sortSlice lessNegatives (fst (separate gasPrice accounts)))
    as [| negative negatives] eqn:Hsn.
  { simpl in Hrun. injection Hrun as <- <-.
    apply rounds_stop. left. exact Hsn. }
  destruct (sortSlice lessPositives (snd (separate gasPrice accounts)))
    as [| positive positives] eqn:Hsp.
  { rewrite forNegatives_no_positives in Hrun. injection Hrun as <- <-.
    apply rounds_stop. right. exact Hsp. }
  rewrite forNegatives_heads in Hrun.
  destruct (SignTx _ _ _) as [sig |] eqn:Hsig; [| discriminate].
  eapply rounds_step; try eassumption.
  apply IH. exact Hrun.
Qed.

Lemma sorted_sides (gasPrice : Z) (accounts : list Account.t) :
  Permutation (map (refreshAvailable gasPrice) accounts)
    (sortSlice lessNegatives (fst (separate gasPrice accounts))
       ++ sortSlice lessPositives (snd (separate gasPrice accounts)))
  /\ Forall (inDeficit gasPrice)
       (sortSlice lessNegatives (fst (separate gasPrice accounts)))
  /\ Forall (inSurplus gasPrice)
       (sortSlice lessPositives (snd (separate gasPrice accounts))).
Proof.
  destruct (separate_spec gasPrice accounts) as (Hperm & Hneg & Hpos).
  split; [| split].
  - eapply perm_trans; [exact Hperm |].
    apply Permutation_app; apply sortSlice_perm.
  - eapply Permutation_Forall; [apply sortSlice_perm | exact Hneg].
  - eapply Permutation_Forall; [apply sortSlice_perm | exact Hpos].
Qed.
End GasRounds.

Lemma identity_refresh (gasPrice : Z) (accounts : list Account.t) :
  map identity (map (refreshAvailable gasPrice) accounts) = map identity accounts.
Proof. rewrite map_map. apply map_ext. intros a. reflexivity. Qed.

Lemma round_identity (gasPrice : Z) (accounts : list Account.t)
    (negative positive : Account.t) (negatives positives : list Account.t) :
  sortSlice lessNegatives (fst (separate gasPrice accounts))
  = negative :: negatives ->
  sortSlice lessPositives (snd (separate gasPrice accounts))
  = positive :: positives ->
  Permutation (map identity accounts)
    (map identity
       ((funded gasPrice (gasPrice * transferGasUnits) negative positive
           :: negatives)
          ++ charged gasPrice (gasPrice * transferGasUnits) negative positive
             :: positives)).
Proof.
  intros Hsn Hsp.
  destruct (sorted_sides gasPrice accounts) as (Hperm & _ & _).
  rewrite Hsn, Hsp in Hperm.
  apply (Permutation_map identity) in Hperm.
  rewrite identity_refresh in Hperm.
  eapply perm_trans; [exact Hperm |].
  rewrite !map_app. simpl. apply Permutation_refl.
Qed.

Lemma address_of_identity (accounts : list Account.t) :
  map Account.Address accounts
  = map (fun i => snd (fst (fst (fst i)))) (map identity accounts).
Proof. rewrite map_map. apply map_ext. intros a. reflexivity. Qed.

Section GasRoundFacts.
Variable Signature : Type.
Variable SignTx : Transaction.t -> Z -> Z -> option Signature.

(** X1: When [transferGas] returns, every account carries
    [Available = Balance - gasPrice * TotalAssetTransfer], and one side is
    empty: either no returned account is in deficit or none is in
    surplus. *)
Theorem transferGas_returns_one_sided (fuel : nat) (gasPrice : Z)
    (accounts : list Account.t)
    (transactions : list (TransactionWithOriginator Signature)) :
  match transferGas SignTx fuel gasPrice accounts transactions with
  | Returned (accounts', _) =>
      Forall (inSurplus gasPrice) accounts'
      \/ Forall (inDeficit gasPrice) accounts'
  | _ => True
  end.
Proof.
  destruct (transferGas SignTx fuel gasPrice accounts transactions)
    as [[accounts' transactions'] | |] eqn:Hrun; try exact I.
  apply transferGas_rounds in Hrun.
  induction Hrun as [accounts transactions Hside | ]; [| assumption].
  destruct (sorted_sides gasPrice accounts) as (Hperm & Hneg & Hpos).
  destruct Hside as [Hempty | Hempty]; rewrite Hempty in Hperm.
  - left. eapply Permutation_Forall; [apply Permutation_sym; exact Hperm |].
    exact Hpos.
  - right. rewrite app_nil_r in Hperm.
    eapply Permutation_Forall; [apply Permutation_sym; exact Hperm |].
    exact Hneg.
Qed.

(** X2: [transferGas] returns the accounts it was given, in some order, with
    nothing but [Balance], [Available] and [Nonce] written: keys, address,
    tokens, gas budget and chain id are those of the input; and it only
    appends to the transactions it was given. *)
Theorem transferGas_keeps_accounts (fuel : nat) (gasPrice : Z)
    (accounts : list Account.t)
    (transactions : list (TransactionWithOriginator Signature)) :
  match transferGas SignTx fuel gasPrice accounts transactions with
  | Returned (accounts', transactions') =>
      Permutation (map identity accounts) (map identity accounts')
      /\ exists emitted, transactions' = transactions ++ emitted
  | _ => True
  end.
Proof.
  destruct (transferGas SignTx fuel gasPrice accounts transactions)
    as [[accounts' transactions'] | |] eqn:Hrun; try exact I.
  apply transferGas_rounds in Hrun.
  induction Hrun as [accounts transactions Hside
                    | accounts transactions negative positive negatives
                        positives sig accounts' transactions' Hsn Hsp Hsig
                        Hrest IH].
  - split.
    + rewrite identity_refresh. apply Permutation_refl.
    + exists []. symmetry. apply app_nil_r.
  - destruct IH as [Hperm [emitted Hemitted]]. split.
    + eapply perm_trans; [apply (@round_identity _ _ _ _ _ _ Hsn Hsp) | exact Hperm].
    + eexists. rewrite Hemitted, <- app_assoc. reflexivity.
Qed.

(** X3: Every transaction [transferGas] adds is a plain transfer between two
    of the accounts it was given: 21000 gas at the given gas price, no
    call data, paid by one input account to another. *)
Theorem transferGas_transfers_between_accounts (fuel : nat) (gasPrice : Z)
    (accounts : list Account.t)
    (transactions : list (TransactionWithOriginator Signature)) :
  match transferGas SignTx fuel gasPrice accounts transactions with
  | Returned (_, transactions') =>
      exists emitted,
        transactions' = transactions ++ emitted
        /\ Forall
             (fun t =>
                In (Originator t) (map Account.Address accounts)
                /\ In (Transaction.To (Tx (SignedTx t)))
                     (map Account.Address accounts)
                /\ Transaction.Gas (Tx (SignedTx t)) = transferGasUnits
                /\ Transaction.GasPrice (Tx (SignedTx t)) = gasPrice
                /\ Transaction.Data (Tx (SignedTx t)) = [])
             emitted
  | _ => True
  end.
Proof.
  destruct (transferGas SignTx fuel gasPrice accounts transactions)
    as [[accounts' transactions'] | |] eqn:Hrun; try exact I.
  apply transferGas_rounds in Hrun.
  induction Hrun as [accounts transactions Hside
                    | accounts transactions negative positive negatives
                        positives sig accounts' transactions' Hsn Hsp Hsig
                        Hrest IH].
  - exists []. split; [symmetry; apply app_nil_r | constructor].
  - destruct IH as (emitted & Hemitted & Hall).
    pose proof (@round_identity _ _ _ _ _ _ Hsn Hsp) as Hid.
    apply (Permutation_map (fun i => snd (fst (fst (fst i))))) in Hid.
    rewrite <- !address_of_identity in Hid.
    destruct (sorted_sides gasPrice accounts) as (Hperm & _ & _).
    rewrite Hsn, Hsp in Hperm.
    apply (Permutation_map Account.Address) in Hperm.
    rewrite map_map in Hperm.
    change (map (fun x => Account.Address (refreshAvailable gasPrice x)) accounts)
      with (map Account.Address accounts) in Hperm.
    eexists. split; [rewrite Hemitted, <- app_assoc; reflexivity |].
    constructor.
    + cbn [Originator SignedTx Tx gasTransaction Transaction.To
             Transaction.Gas Transaction.GasPrice Transaction.Data].
      repeat split.
      * eapply Permutation_in; [apply Permutation_sym; exact Hperm |].
        apply in_map. apply in_or_app. right. left. reflexivity.
      * eapply Permutation_in; [apply Permutation_sym; exact Hperm |].
        apply in_map. left. reflexivity.
    + eapply Forall_impl; [| exact Hall].
      intros t (Hfrom & Hto & Hrest'). repeat split; try tauto.
      * eapply Permutation_in; [apply Permutation_sym; exact Hid | exact Hfrom].
      * eapply Permutation_in; [apply Permutation_sym; exact Hid | exact Hto].
Qed.
End GasRoundFacts.

Lemma separate_all_surplus (gasPrice : Z) (accounts : list Account.t) :
  Forall (fun a => Account.TotalAssetTransferPrice a gasPrice
                   <= Account.Balance a) accounts ->
  separate gasPrice accounts = ([], map (refreshAvailable gasPrice) accounts).
Proof.
  induction 1 as [| a rest Ha Hrest IH]; simpl; [reflexivity |].
  rewrite IH. unfold isNegative.
  destruct (Z.gtb_spec (Account.TotalAssetTransferPrice a gasPrice)
              (Account.Balance a)); [lia | reflexivity].
Qed.

Lemma separate_all_deficit (gasPrice : Z) (accounts : list Account.t) :
  Forall (fun a => Account.TotalAssetTransferPrice a gasPrice
                   > Account.Balance a) accounts ->
  separate gasPrice accounts = (map (refreshAvailable gasPrice) accounts, []).
Proof.
  induction 1 as [| a rest Ha Hrest IH]; simpl; [reflexivity |].
  rewrite IH. unfold isNegative.
  destruct (Z.gtb_spec (Account.TotalAssetTransferPrice a gasPrice)
              (Account.Balance a)); [reflexivity | lia].
Qed.

Section GasEdgeCases.
Variable Signature : Type.
Variable SignTx : Transaction.t -> Z -> Z -> option Signature.

(** X4: When every account can pay for its own sweep, or when none can,
    [transferGas] moves nothing: it returns at its first call, whatever the
    signer does, with the transactions it was given and the accounts in
    their order, only [Available] recomputed.  The empty account list is a
    case of both. *)
Theorem transferGas_nothing_to_move (fuel : nat) (gasPrice : Z)
    (accounts : list Account.t)
    (transactions : list (TransactionWithOriginator Signature)) :
  Forall (fun a => Account.TotalAssetTransferPrice a gasPrice
                   <= Account.Balance a) accounts
  \/ Forall (fun a => Account.TotalAssetTransferPrice a gasPrice
                      > Account.Balance a) accounts ->
  transferGas SignTx (S fuel) gasPrice accounts transactions
  = Returned (map (refreshAvailable gasPrice) accounts, transactions).
Proof.
  intros [Hall | Hall]; rewrite transferGas_round.
  - rewrite (@separate_all_surplus _ _ Hall). reflexivity.
  - rewrite (@separate_all_deficit _ _ Hall). simpl snd.
    change (sortSlice lessPositives []) with (@nil Account.t).
    rewrite forNegatives_no_positives. reflexivity.
Qed.

(** X5: The conservation law of a transfer holds in one case only.  For a
    surplus account whose [Available] is current, at a positive gas price,
    the sender's balance falls by exactly value + fee if and only if the
    sender has no gas budget of its own and covers the receiver's whole
    need plus the fee. *)
Theorem gas_transfer_conserves_iff (gasPrice : Z)
    (negative positive : Account.t) :
  0 < gasPrice ->
  0 <= Account.TotalAssetTransfer positive ->
  Account.Available positive
  = Account.Balance positive - Account.TotalAssetTransferPrice positive gasPrice ->
  match pair SignTx gasPrice (gasPrice * transferGasUnits) negative positive with
  | Transfer _ positive' tx =>
      Account.Balance positive - Account.Balance positive'
      = Transaction.Value (Tx (SignedTx tx)) + gasPrice * transferGasUnits
      <-> Account.TotalAssetTransfer positive = 0
          /\ Account.TotalAssetTransferPrice negative gasPrice
             + gasPrice * transferGasUnits <= Account.Available positive
  | _ => True
  end.
Proof.
  intros Hgp Hbudget Havailable.
  rewrite pair_eq. destruct (SignTx _ _ _) as [sig |]; [| exact I].
  cbn [SignedTx Tx gasTransaction Transaction.Value charged
         Account.Balance Account.set_Nonce Account.set_Balance].
  unfold amountSent. rewrite Havailable.
  unfold Account.TotalAssetTransferPrice in *.
  set (need := gasPrice * Account.TotalAssetTransfer negative).
  set (fee := gasPrice * transferGasUnits).
  destruct (Z.ltb_spec
              (Account.Balance positive
               - gasPrice * Account.TotalAssetTransfer positive
               - (need + fee)) 0) as [Hpartial | Hfull].
  - split; [intros Heq; nia | intros [Hzero Hcover]; lia].
  - split.
    + intros Heq. split; [nia | lia].
    + intros [Hzero Hcover]. rewrite Hzero. lia.
Qed.
End GasEdgeCases.

Lemma transferGas_nothing_to_move_witness :
  (Forall (fun a => Account.TotalAssetTransferPrice a 1 <= Account.Balance a)
     [exampleAccount 1 50000 0; exampleAccount 2 7 5]
   \/ Forall (fun a => Account.TotalAssetTransferPrice a 1 > Account.Balance a)
        [exampleAccount 1 50000 0; exampleAccount 2 7 5])
  /\ transferGas alwaysSigns 1 1
       [exampleAccount 1 50000 0; exampleAccount 2 7 5] []
     = Returned
         (map (refreshAvailable 1)
            [exampleAccount 1 50000 0; exampleAccount 2 7 5], []).
Proof.
  assert (H : Forall (fun a => Account.TotalAssetTransferPrice a 1
                               <= Account.Balance a)
                [exampleAccount 1 50000 0; exampleAccount 2 7 5]
              \/ Forall (fun a => Account.TotalAssetTransferPrice a 1
                                  > Account.Balance a)
                   [exampleAccount 1 50000 0; exampleAccount 2 7 5]).
  { left. repeat constructor; vm_compute; discriminate. }
  split; [exact H |].
  exact (@transferGas_nothing_to_move unit alwaysSigns 0 1 _ [] H).
Defined.

Lemma gas_transfer_conserves_iff_witness :
  0 < 1
  /\ 0 <= Account.TotalAssetTransfer
            (refreshAvailable 1 (exampleAccount 2 100000 0))
  /\ match pair alwaysSigns 1 (1 * transferGasUnits) (exampleAccount 1 0 2)
             (refreshAvailable 1 (exampleAccount 2 100000 0)) with
     | Transfer _ positive' tx =>
         Account.Balance (refreshAvailable 1 (exampleAccount 2 100000 0))
         - Account.Balance positive'
         = Transaction.Value (Tx (SignedTx tx)) + 1 * transferGasUnits
         <-> Account.TotalAssetTransfer
               (refreshAvailable 1 (exampleAccount 2 100000 0)) = 0
             /\ Account.TotalAssetTransferPrice (exampleAccount 1 0 2) 1
                + 1 * transferGasUnits
                <= Account.Available
                     (refreshAvailable 1 (exampleAccount 2 100000 0))
     | _ => True
     end.
Proof.
  assert (H1 : 0 < 1) by lia.
  assert (H2 : 0 <= Account.TotalAssetTransfer
                      (refreshAvailable 1 (exampleAccount 2 100000 0)))
    by (simpl; lia).
  split; [exact H1 |]. split; [exact H2 |].
  exact (@gas_transfer_conserves_iff unit alwaysSigns 1 (exampleAccount 1 0 2)
           (refreshAvailable 1 (exampleAccount 2 100000 0)) H1 H2 eq_refl).
Defined.

(** ** Accounting of the token sweep *)

Lemma consecutiveNonces_cons (first : Z) (count : nat) :
  0 <= first < uint64_modulus ->
  consecutiveNonces first (S count)
  = first :: consecutiveNonces (uint64_succ first) count.
Proof.
  intros Hrange. unfold consecutiveNonces. simpl seq. simpl map.
  f_equal.
  - rewrite Z.add_0_r. apply Z.mod_small. exact Hrange.
  - rewrite <- seq_shift, map_map. apply map_ext. intros i.
    unfold uint64_succ. rewrite Zplus_mod_idemp_l. f_equal. lia.
Qed.

Lemma uint64_succ_range (u : Z) : 0 <= uint64_succ u < uint64_modulus.
Proof. unfold uint64_succ. apply Z.mod_pos_bound. reflexivity. Qed.

Section SweepAccounting.
Variable Signature : Type.
Variable SignTx : Transaction.t -> Z -> Z -> option Signature.

Lemma sweep_fold_accounting (destinationAddress : common.Address)
    (gasPrice : Z) (tokens : list Token.t) :
  forall (account : Account.t)
         (transactions : list (TransactionWithOriginator Signature)),
    0 <= Account.Nonce account < uint64_modulus ->
    let st := fold_left (sweepToken SignTx destinationAddress gasPrice) tokens
                (account, transactions) in
    exists emitted,
      snd st = transactions ++ emitted
      /\ (length emitted <= length tokens)%nat
      /\ Account.Nonce (fst st)
         = (Account.Nonce account + Z.of_nat (length emitted)) mod uint64_modulus
      /\ map (fun t => Transaction.Nonce (Tx (SignedTx t))) emitted
         = consecutiveNonces (Account.Nonce account) (length emitted)
      /\ Account.Balance (fst st)
         = Account.Balance account - sweepFees gasPrice emitted
      /\ Forall (fun t => Originator t = Account.Address account
                          /\ Transaction.Value (Tx (SignedTx t)) = 0
                          /\ Transaction.GasPrice (Tx (SignedTx t)) = gasPrice)
           emitted
      /\ Account.set_Nonce (Account.set_Balance (fst st) 0) 0
         = Account.set_Nonce (Account.set_Balance account 0) 0.
Proof.
  induction tokens as [| token rest IH]; intros account transactions Hnonce st;
    subst st; cbn [fold_left].
  - exists []. cbn -[Z.modulo uint64_modulus].
    rewrite app_nil_r, Z.add_0_r, Z.mod_small by exact Hnonce.
    repeat split; try lia. constructor.
  - assert (Hskip :
              exists emitted,
                snd (fold_left (sweepToken SignTx destinationAddress gasPrice)
                       rest (account, transactions))
                = transactions ++ emitted
                /\ (length emitted <= length (token :: rest))%nat
                /\ Account.Nonce
                     (fst (fold_left
                             (sweepToken SignTx destinationAddress gasPrice)
                             rest (account, transactions)))
                   = (Account.Nonce account + Z.of_nat (length emitted))
                     mod uint64_modulus
                /\ map (fun t => Transaction.Nonce (Tx (SignedTx t))) emitted
                   = consecutiveNonces (Account.Nonce account) (length emitted)
                /\ Account.Balance
                     (fst (fold_left
                             (sweepToken SignTx destinationAddress gasPrice)
                             rest (account, transactions)))
                   = Account.Balance account - sweepFees gasPrice emitted
                /\ Forall
                     (fun t => Originator t = Account.Address account
                               /\ Transaction.Value (Tx (SignedTx t)) = 0
                               /\ Transaction.GasPrice (Tx (SignedTx t))
                                  = gasPrice) emitted
                /\ Account.set_Nonce
                     (Account.set_Balance
                        (fst (fold_left
                                (sweepToken SignTx destinationAddress gasPrice)
                                rest (account, transactions))) 0) 0
                   = Account.set_Nonce (Account.set_Balance account 0) 0).
    { destruct (IH account transactions Hnonce)
        as (emitted & Htx & Hlen & Hrest).
      exists emitted. split; [exact Htx |].
      split; [simpl; lia | exact Hrest]. }
    rewrite sweepToken_cases.
    destruct (Account.Balance account >=? Token.TotalTransferPrice token gasPrice);
      [| exact Hskip].
    destruct (SignTx _ _ _) as [sig |]; [| exact Hskip].
    clear Hskip.
    set (tx := mkOriginated _ _).
    destruct (IH (swept gasPrice account token) (transactions ++ [tx]))
      as (emitted & Htx & Hlen & Hn & Hseq & Hbal & Hall & Hsame).
    { apply uint64_succ_range. }
    exists (tx :: emitted).
    split; [rewrite Htx, <- app_assoc; reflexivity |].
    split; [simpl; lia |].
    split.
    { rewrite Hn. cbn [swept Account.Nonce]. unfold uint64_succ.
      rewrite Zplus_mod_idemp_l. f_equal. simpl length. lia. }
    split.
    { simpl length. rewrite consecutiveNonces_cons by exact Hnonce.
      simpl map. f_equal. exact Hseq. }
    split.
    { rewrite Hbal. cbn [swept Account.Balance].
      change (sweepFees gasPrice (tx :: emitted))
        with (Token.TotalTransferPrice token gasPrice
              + sweepFees gasPrice emitted).
      lia. }
    split.
    { constructor; [repeat split | exact Hall]. }
    rewrite Hsame. reflexivity.
Qed.

(** X6: What [sweepAccount] leaves of an account whose nonce is a [uint64]:
    the transactions it adds (at most one per token) all originate from the
    account, carry value 0 at the given gas price and the consecutive
    nonces starting at the account's nonce; the nonce advances by their
    number, the balance falls by the sum of their fees, and nothing else
    changes but the order of the tokens. *)
Theorem sweepAccount_accounting (destinationAddress : common.Address)
    (gasPrice : Z) (account : Account.t)
    (transactions : list (TransactionWithOriginator Signature)) :
  0 <= Account.Nonce account < uint64_modulus ->
  let account' :=
    fst (sweepAccount SignTx destinationAddress gasPrice account transactions) in
  exists emitted,
    snd (sweepAccount SignTx destinationAddress gasPrice account transactions)
    = transactions ++ emitted
    /\ (length emitted <= length (Account.Tokens account))%nat
    /\ Account.Nonce account'
       = (Account.Nonce account + Z.of_nat (length emitted)) mod uint64_modulus
    /\ map (fun t => Transaction.Nonce (Tx (SignedTx t))) emitted
       = consecutiveNonces (Account.Nonce account) (length emitted)
    /\ Account.Balance account'
       = Account.Balance account - sweepFees gasPrice emitted
    /\ Forall (fun t => Originator t = Account.Address account
                        /\ Transaction.Value (Tx (SignedTx t)) = 0
                        /\ Transaction.GasPrice (Tx (SignedTx t)) = gasPrice)
         emitted
    /\ Permutation (Account.Tokens account) (Account.Tokens account')
    /\ (Account.PrivateKey account', Account.PublicKey account',
        Account.Address account', Account.TotalAssetTransfer account',
        Account.Available account', Account.ChainId account')
       = (Account.PrivateKey account, Account.PublicKey account,
          Account.Address account, Account.TotalAssetTransfer account,
          Account.Available account, Account.ChainId account).
Proof.
  intros Hnonce account'. subst account'. unfold sweepAccount.
  set (tokens := sortSlice lessTokens (Account.Tokens account)).
  destruct (sweep_fold_accounting destinationAddress gasPrice tokens
              (Account.set_Tokens account tokens) transactions Hnonce)
    as (emitted & Htx & Hlen & Hn & Hseq & Hbal & Hall & Hsame).
  set (st := fold_left _ tokens _) in *.
  exists emitted.
  split; [exact Htx |].
  split; [unfold tokens in Hlen; rewrite <- (Permutation_length
            (sortSlice_perm lessTokens (Account.Tokens account))) in Hlen;
          exact Hlen |].
  split; [exact Hn |]. split; [exact Hseq |]. split; [exact Hbal |].
  split; [exact Hall |].
  assert (Hfields :
            Account.Tokens (fst st) = tokens
            /\ Account.PrivateKey (fst st) = Account.PrivateKey account
            /\ Account.PublicKey (fst st) = Account.PublicKey account
            /\ Account.Address (fst st) = Account.Address account
            /\ Account.TotalAssetTransfer (fst st)
               = Account.TotalAssetTransfer account
            /\ Account.Available (fst st) = Account.Available account
            /\ Account.ChainId (fst st) = Account.ChainId account).
  { destruct (fst st); simpl in Hsame. injection Hsame. intros. subst.
    repeat split. }
  destruct Hfields as (Ht & Hk & Hp & Ha & Hb & Hv & Hc).
  split.
  - rewrite Ht. apply sortSlice_perm.
  - rewrite Hk, Hp, Ha, Hb, Hv, Hc. reflexivity.
Qed.
End SweepAccounting.

Lemma tokensGas_perm (l1 l2 : list Token.t) :
  Permutation l1 l2 -> tokensGas l1 = tokensGas l2.
Proof. induction 1; simpl; lia. Qed.

Lemma tokensGas_nonneg (tokens : list Token.t) :
  Forall (fun t => 0 <= Token.GasLimit t < 2 ^ 63) tokens ->
  0 <= tokensGas tokens.
Proof. induction 1 as [| t rest Ht Hrest IH]; simpl; lia. Qed.

Section SweepFacts.
Variable Signature : Type.
Variable SignTx : Transaction.t -> Z -> Z -> option Signature.

Lemma sweep_fold_solvent (destinationAddress : common.Address) (gasPrice : Z)
    (tokens : list Token.t) :
  forall (account : Account.t)
         (transactions : list (TransactionWithOriginator Signature)),
    0 <= Account.Balance account ->
    0 <= Account.Balance
           (fst (fold_left (sweepToken SignTx destinationAddress gasPrice)
                   tokens (account, transactions))).
Proof.
  induction tokens as [| token rest IH]; intros account transactions Hbalance;
    cbn [fold_left]; [exact Hbalance |].
  rewrite sweepToken_cases.
  destruct (Z.geb_spec (Account.Balance account)
              (Token.TotalTransferPrice token gasPrice)) as [Hpays | Hshort];
    [| apply IH; exact Hbalance].
  destruct (SignTx _ _ _) as [sig |]; [| apply IH; exact Hbalance].
  apply IH. cbn [swept Account.Balance]. lia.
Qed.

(** X7: The token sweep never overdraws: an account whose balance is not
    negative leaves [sweepAccount] with a balance that is not negative,
    whatever the gas price, the gas limits and the signer. *)
Theorem sweepAccount_never_overdraws (destinationAddress : common.Address)
    (gasPrice : Z) (account : Account.t)
    (transactions : list (TransactionWithOriginator Signature)) :
  0 <= Account.Balance account ->
  0 <= Account.Balance
         (fst (sweepAccount SignTx destinationAddress gasPrice account
                 transactions)).
Proof.
  intros Hbalance. unfold sweepAccount.
  apply sweep_fold_solvent. exact Hbalance.
Qed.

Lemma sweep_fold_frame (destinationAddress : common.Address) (gasPrice : Z)
    (tokens : list Token.t) :
  forall (account : Account.t)
         (transactions : list (TransactionWithOriginator Signature)),
    fold_left (sweepToken SignTx destinationAddress gasPrice) tokens
      (account, transactions)
    = (fst (fold_left (sweepToken SignTx destinationAddress gasPrice) tokens
              (account, [])),
       transactions
         ++ snd (fold_left (sweepToken SignTx destinationAddress gasPrice)
                   tokens (account, []))).
Proof.
  induction tokens as [| token rest IH]; intros account transactions;
    cbn [fold_left].
  - simpl. rewrite app_nil_r. reflexivity.
  - rewrite !sweepToken_cases.
    destruct (Account.Balance account >=? Token.TotalTransferPrice token gasPrice);
      [| apply IH].
    destruct (SignTx _ _ _) as [sig |]; [| apply IH].
    rewrite IH. rewrite (IH _ ([] ++ _)). simpl.
    rewrite <- app_assoc. reflexivity.
Qed.

(** X8: [transferTokens] sweeps every account on its own: the account it
    returns for an input account, and the transactions it adds for it, do
    not depend on the other accounts nor on the transactions planned
    before; the plan is the given transactions followed by the sweeps of
    the accounts in their order. *)
Theorem transferTokens_account_by_account
    (destinationAddress : common.Address) (gasPrice : Z)
    (accounts : list Account.t)
    (transactions : list (TransactionWithOriginator Signature)) :
  transferTokens SignTx destinationAddress gasPrice accounts transactions
  = (map (fun a => fst (sweepAccount SignTx destinationAddress gasPrice a []))
       accounts,
     transactions
       ++ flat_map
            (fun a => snd (sweepAccount SignTx destinationAddress gasPrice a []))
            accounts).
Proof.
  revert transactions.
  induction accounts as [| account rest IH]; intros transactions; simpl.
  - rewrite app_nil_r. reflexivity.
  - unfold sweepAccount at 1. rewrite sweep_fold_frame.
    fold (sweepAccount SignTx destinationAddress gasPrice account []).
    rewrite IH, <- app_assoc. reflexivity.
Qed.

Lemma sweep_fold_affordable (destinationAddress : common.Address)
    (gasPrice : Z) (tokens : list Token.t) :
  forall (account : Account.t)
         (transactions : list (TransactionWithOriginator Signature)),
    (forall tx, SignTx tx (Account.ChainId account) (Account.PrivateKey account)
                <> None) ->
    0 <= gasPrice ->
    Forall (fun t => 0 <= Token.GasLimit t < 2 ^ 63) tokens ->
    gasPrice * tokensGas tokens <= Account.Balance account ->
    let st := fold_left (sweepToken SignTx destinationAddress gasPrice) tokens
                (account, transactions) in
    exists emitted,
      snd st = transactions ++ emitted
      /\ map (fun t => Transaction.To (Tx (SignedTx t))) emitted
         = map Token.Contract tokens
      /\ Account.Balance (fst st)
         = Account.Balance account - gasPrice * tokensGas tokens.
Proof.
  induction tokens as [| token rest IH];
    intros account transactions Hsigns Hgp Hlimits Hcovers st; subst st;
    cbn [fold_left].
  - exists []. simpl. rewrite app_nil_r. repeat split. lia.
  - inversion Hlimits as [| ? ? Hlimit Hrest]; subst.
    pose proof (tokensGas_nonneg Hrest) as Hnonneg.
    simpl tokensGas in Hcovers.
    rewrite sweepToken_cases.
    assert (Hfee : Token.TotalTransferPrice token gasPrice
                   = gasPrice * Token.GasLimit token).
    { unfold Token.TotalTransferPrice, int64_of_uint64.
      destruct (Z.ltb_spec (Token.GasLimit token) (2 ^ 63)); [reflexivity | lia]. }
    destruct (Z.geb_spec (Account.Balance account)
                (Token.TotalTransferPrice token gasPrice)) as [Hpays | Hshort];
      [| nia].
    destruct (SignTx _ _ _) as [sig |] eqn:Hsig;
      [| exfalso; exact (Hsigns _ Hsig)].
    set (tx := mkOriginated _ _).
    destruct (IH (swept gasPrice account token) (transactions ++ [tx]))
      as (emitted & Htx & Hto & Hbal); try assumption.
    { cbn [swept Account.Balance]. rewrite Hfee. lia. }
    exists (tx :: emitted).
    split; [rewrite Htx, <- app_assoc; reflexivity |].
    split; [simpl; f_equal; exact Hto |].
    rewrite Hbal. cbn [swept Account.Balance]. rewrite Hfee.
    simpl tokensGas. lia.
Qed.

(** X9: An account that holds enough for all its tokens loses none: when the
    signer accepts the account's transactions, the gas price is not
    negative, every gas limit is below 2^63 and the balance covers
    gas price * (sum of the gas limits), [sweepAccount] emits one sweep per
    token, in descending order of token balance, and charges exactly that
    amount. *)
Theorem sweepAccount_sweeps_all_when_funded
    (destinationAddress : common.Address) (gasPrice : Z) (account : Account.t)
    (transactions : list (TransactionWithOriginator Signature)) :
  (forall tx, SignTx tx (Account.ChainId account) (Account.PrivateKey account)
              <> None) ->
  0 <= gasPrice ->
  Forall (fun t => 0 <= Token.GasLimit t < 2 ^ 63) (Account.Tokens account) ->
  gasPrice * tokensGas (Account.Tokens account) <= Account.Balance account ->
  exists emitted,
    snd (sweepAccount SignTx destinationAddress gasPrice account transactions)
    = transactions ++ emitted
    /\ map (fun t => Transaction.To (Tx (SignedTx t))) emitted
       = map Token.Contract (sortSlice lessTokens (Account.Tokens account))
    /\ length emitted = length (Account.Tokens account)
    /\ Account.Balance
         (fst (sweepAccount SignTx destinationAddress gasPrice account
                 transactions))
       = Account.Balance account - gasPrice * tokensGas (Account.Tokens account).
Proof.
  intros Hsigns Hgp Hlimits Hcovers. unfold sweepAccount.
  set (tokens := sortSlice lessTokens (Account.Tokens account)).
  assert (Hperm : Permutation (Account.Tokens account) tokens)
    by apply sortSlice_perm.
  destruct (@sweep_fold_affordable destinationAddress gasPrice tokens
              (Account.set_Tokens account tokens) transactions)
    as (emitted & Htx & Hto & Hbal); try assumption.
  - eapply Permutation_Forall; eassumption.
  - rewrite <- (tokensGas_perm Hperm). exact Hcovers.
  - exists emitted. split; [exact Htx |]. split; [exact Hto |].
    split.
    + rewrite <- (length_map (fun t => Transaction.To (Tx (SignedTx t)))), Hto.
      rewrite length_map. symmetry. apply Permutation_length. exact Hperm.
    + rewrite Hbal, <- (tokensGas_perm Hperm). reflexivity.
Qed.
End SweepFacts.

Lemma sweepAccount_accounting_witness :
  0 <= Account.Nonce twoTokenAccount < uint64_modulus
  /\ exists emitted,
       snd (sweepAccount alwaysSigns (exampleAddress 9) 1 twoTokenAccount [])
       = [] ++ emitted
       /\ map (fun t => Transaction.Nonce (Tx (SignedTx t))) emitted
          = consecutiveNonces (Account.Nonce twoTokenAccount) (length emitted).
Proof.
  assert (H : 0 <= Account.Nonce twoTokenAccount < uint64_modulus)
    by (vm_compute; split; [discriminate | reflexivity]).
  split; [exact H |].
  destruct (@sweepAccount_accounting unit alwaysSigns (exampleAddress 9) 1
              twoTokenAccount [] H)
    as (emitted & Htx & _ & _ & Hseq & _).
  exists emitted. split; [exact Htx | exact Hseq].
Defined.

Lemma sweepAccount_never_overdraws_witness :
  0 <= Account.Balance twoTokenAccount
  /\ 0 <= Account.Balance
            (fst (sweepAccount alwaysSigns (exampleAddress 9) 1
                    twoTokenAccount [])).
Proof.
  assert (H : 0 <= Account.Balance twoTokenAccount)
    by (vm_compute; discriminate).
  split; [exact H |].
  exact (@sweepAccount_never_overdraws unit alwaysSigns (exampleAddress 9) 1
           twoTokenAccount [] H).
Defined.

Lemma sweepAccount_sweeps_all_when_funded_witness :
  (forall tx, alwaysSigns tx (Account.ChainId fundedTokenAccount)
                (Account.PrivateKey fundedTokenAccount) <> None)
  /\ 0 <= 1
  /\ Forall (fun t => 0 <= Token.GasLimit t < 2 ^ 63)
       (Account.Tokens fundedTokenAccount)
  /\ 1 * tokensGas (Account.Tokens fundedTokenAccount)
     <= Account.Balance fundedTokenAccount
  /\ exists emitted,
       snd (sweepAccount alwaysSigns (exampleAddress 9) 1 fundedTokenAccount [])
       = [] ++ emitted
       /\ length emitted = length (Account.Tokens fundedTokenAccount).
Proof.
  assert (H1 : forall tx, alwaysSigns tx (Account.ChainId fundedTokenAccount)
                            (Account.PrivateKey fundedTokenAccount) <> None)
    by (intros tx; discriminate).
  assert (H2 : 0 <= 1) by lia.
  assert (H3 : Forall (fun t => 0 <= Token.GasLimit t < 2 ^ 63)
                 (Account.Tokens fundedTokenAccount))
    by (repeat constructor; vm_compute; discriminate).
  assert (H4 : 1 * tokensGas (Account.Tokens fundedTokenAccount)
               <= Account.Balance fundedTokenAccount)
    by (vm_compute; discriminate).
  split; [exact H1 |]. split; [exact H2 |]. split; [exact H3 |].
  split; [exact H4 |].
  destruct (@sweepAccount_sweeps_all_when_funded unit alwaysSigns
              (exampleAddress 9) 1 fundedTokenAccount [] H1 H2 H3 H4)
    as (emitted & Htx & _ & Hlen & _).
  exists emitted. split; [exact Htx | exact Hlen].
Defined.

(** ** The gas price the drain settles on *)

Section DrainFacts.
Variable Signature : Type.
Variable SignTx : Transaction.t -> Z -> Z -> option Signature.
Variable PendingBalanceAt : common.Address -> option Z.

(** X10: [getBalanceTx] takes the first price of the sequence gasPrice,
    gasPrice - 1000000, ... that leaves something to send: when it builds a
    transaction, every higher price of the sequence costs the whole balance
    or more; when it builds none, so does every positive price of the
    sequence. *)
Theorem getBalanceTx_highest_price (destinationAddress : common.Address)
    (gasPrice : Z) (account : Account.t) :
  match getBalanceTx SignTx destinationAddress gasPrice account with
  | Returned (Some signedTx) =>
      forall retries : Z,
        0 <= retries ->
        Transaction.GasPrice (Tx signedTx)
        < gasPrice - retries * gasPriceDecrement ->
        Account.Balance account
        <= (gasPrice - retries * gasPriceDecrement) * transferGasUnits
  | Returned None =>
      forall retries : Z,
        0 <= retries ->
        0 < gasPrice - retries * gasPriceDecrement ->
        Account.Balance account
        <= (gasPrice - retries * gasPriceDecrement) * transferGasUnits
  | Fatal => True
  | OutOfFuel => False
  end.
Proof.
  funelim (getBalanceTx SignTx destinationAddress gasPrice account).
  - destruct (SignTx _ _ _) as [sig |]; [| exact I].
    cbn [Tx Transaction.GasPrice]. intros retries Hretries Hhigher.
    unfold gasPriceDecrement in Hhigher. nia.
  - assert (Hfirst : Account.Balance account <= gasPrice * transferGasUnits).
    { destruct (Z.gtb_spec (Account.Balance account - gasPrice * transferGasUnits)
                  0) as [Hpos | Hle]; [| lia].
      exfalso. apply n. apply andb_true_intro. split; [reflexivity |].
      apply Z.gtb_lt. lia. }
    destruct (getBalanceTx SignTx destinationAddress
                (gasPrice - gasPriceDecrement) account)
      as [[signedTx |] | |]; try exact I; try contradiction.
    + intros retries Hretries Hhigher.
      destruct (Z.eq_dec retries 0) as [-> | Hnz];
        [rewrite Z.mul_0_l, Z.sub_0_r; exact Hfirst |].
      specialize (H (retries - 1)).
      replace (gasPrice - gasPriceDecrement - (retries - 1) * gasPriceDecrement)
        with (gasPrice - retries * gasPriceDecrement) in H by ring.
      apply H; [lia | exact Hhigher].
    + intros retries Hretries Hpositive.
      destruct (Z.eq_dec retries 0) as [-> | Hnz];
        [rewrite Z.mul_0_l, Z.sub_0_r; exact Hfirst |].
      specialize (H (retries - 1)).
      replace (gasPrice - gasPriceDecrement - (retries - 1) * gasPriceDecrement)
        with (gasPrice - retries * gasPriceDecrement) in H by ring.
      apply H; [lia | exact Hpositive].
  - intros retries Hretries Hpositive.
    unfold gasPriceDecrement in Hpositive. nia.
Qed.

Lemma drain_account_by_account (destinationAddress : common.Address)
    (gasPrice : Z) (accounts : list Account.t) :
  forall transactions : list (TransactionWithOriginator Signature),
    match drain SignTx destinationAddress gasPrice accounts transactions with
    | Returned transactions' =>
        transactions'
        = transactions
            ++ flat_map (drained SignTx destinationAddress gasPrice) accounts
    | Fatal =>
        exists account,
          In account accounts
          /\ getBalanceTx SignTx destinationAddress gasPrice account = Fatal
    | OutOfFuel => False
    end.
Proof.
  induction accounts as [| account rest IH]; intros transactions;
    cbn [drain flat_map].
  - rewrite app_nil_r. reflexivity.
  - unfold drained at 1.
    pose proof (getBalanceTx_positive SignTx destinationAddress gasPrice account)
      as Hcall.
    destruct (getBalanceTx SignTx destinationAddress gasPrice account)
      as [[signedTx |] | |] eqn:Hone; try contradiction.
    + specialize (IH (transactions ++
                        [mkOriginated (Account.Address account) signedTx])).
      destruct (drain SignTx destinationAddress gasPrice rest _)
        as [transactions' | |]; try contradiction.
      * rewrite IH, <- app_assoc. reflexivity.
      * destruct IH as (culprit & Hin & Hfatal).
        exists culprit. split; [right; exact Hin | exact Hfatal].
    + specialize (IH transactions).
      destruct (drain SignTx destinationAddress gasPrice rest transactions)
        as [transactions' | |]; try contradiction.
      * exact IH.
      * destruct IH as (culprit & Hin & Hfatal).
        exists culprit. split; [right; exact Hin | exact Hfatal].
    + exists account. split; [left; reflexivity | exact Hone].
Qed.

(** X11: [transferBalances] drains every account on its own, in the order of
    the accounts: it keeps the transactions it was given and adds, for each
    account, the transaction [getBalanceTx] builds for it, if any, with the
    account as originator; the balances are the given ones when simulating
    and the refreshed ones otherwise.  It dies only if signing fails for
    some account. *)
Theorem transferBalances_account_by_account
    (destinationAddress : common.Address) (gasPrice : Z)
    (accounts : list Account.t) (simulate : bool)
    (transactions : list (TransactionWithOriginator Signature)) :
  let drainedAccounts :=
    if simulate then accounts
    else GetPendingBalances PendingBalanceAt accounts in
  match transferBalances SignTx PendingBalanceAt destinationAddress gasPrice
          accounts simulate transactions with
  | Returned transactions' =>
      transactions'
      = transactions
          ++ flat_map (drained SignTx destinationAddress gasPrice)
               drainedAccounts
  | Fatal =>
      exists account,
        In account drainedAccounts
        /\ getBalanceTx SignTx destinationAddress gasPrice account = Fatal
  | OutOfFuel => False
  end.
Proof.
  intros drainedAccounts. unfold transferBalances. fold drainedAccounts.
  apply drain_account_by_account.
Qed.
End DrainFacts.

(** ** The balance refresh over the store *)

Lemma update_same (l : Store.loc) (v : Z) (cells : list Z) :
  (l < length cells)%nat -> nth l (Store.update l v cells) 0 = v.
Proof.
  revert l. induction cells as [| c cells IH]; intros [| l] Hl; simpl in *;
    try lia; try reflexivity.
  apply IH. lia.
Qed.

Lemma NoDup_map_nth_error (A B : Type) (f : A -> B) (l : list A) :
  NoDup (map f l) ->
  forall (i j : nat) (a b : A),
    nth_error l i = Some a -> nth_error l j = Some b -> f a = f b -> i = j.
Proof.
  intros Hnodup i j a b Hi Hj Hf.
  rewrite NoDup_nth_error in Hnodup. apply Hnodup.
  - rewrite length_map. apply nth_error_Some. congruence.
  - rewrite !nth_error_map, Hi, Hj. simpl. congruence.
Qed.

Section RefreshFacts.
Variable PendingBalanceAt : common.Address -> option Z.

Lemma GetPendingBalances_from (n : nat) :
  forall (x : nat) (s : Store.state),
    NoDup (map Store.AccountRef.Balance (Store.accounts s)) ->
    Forall (fun a => (Store.AccountRef.Balance a < Store.fresh s)%nat)
      (Store.accounts s) ->
    forall (i : nat) (account : Store.AccountRef.t),
      nth_error (Store.accounts s) i = Some account ->
      Store.load (Store.GetPendingBalances PendingBalanceAt n x s)
        (Store.AccountRef.Balance account)
      = if ((x <=? i) && (i <? x + n))%nat
        then match PendingBalanceAt (Store.AccountRef.Address account) with
             | Some bal => bal
             | None => Store.load s (Store.AccountRef.Balance account)
             end
        else Store.load s (Store.AccountRef.Balance account).
Proof.
  induction n as [| n IH]; intros x s Hnodup Hvalid i account Hi;
    cbn [Store.GetPendingBalances].
  - replace ((x <=? i) && (i <? x + 0))%nat with false; [reflexivity |].
    symmetry. apply andb_false_iff.
    destruct (Nat.leb_spec x i); [right; apply Nat.ltb_ge; lia | left; reflexivity].
  - destruct (nth_error (Store.accounts s) x) as [current |] eqn:Hx.
    2:{ apply nth_error_None in Hx.
        assert (Hlt : (i < length (Store.accounts s))%nat)
          by (apply nth_error_Some; congruence).
        replace (x <=? i)%nat with false
          by (symmetry; apply Nat.leb_gt; lia).
        reflexivity. }
    destruct (PendingBalanceAt (Store.AccountRef.Address current))
      as [bal |] eqn:Hbal.
    + set (s1 := Store.setInt s (Store.AccountRef.Balance current) bal).
      assert (Hfresh : Store.fresh s1 = Store.fresh s)
        by (unfold Store.fresh, s1; simpl; apply update_length).
      rewrite (IH (S x) s1 Hnodup
                 (eq_ind_r (fun f => Forall (fun a =>
                    (Store.AccountRef.Balance a < f)%nat) (Store.accounts s))
                    Hvalid Hfresh) i account Hi).
      destruct (Nat.eq_dec i x) as [-> | Hne].
      * assert (account = current) by congruence. subst current.
        replace ((S x <=? x) && (x <? S x + n))%nat with false
          by (symmetry; apply andb_false_iff; left; apply Nat.leb_gt; lia).
        replace ((x <=? x) && (x <? x + S n))%nat with true
          by (symmetry; apply andb_true_iff; split;
              [apply Nat.leb_le | apply Nat.ltb_lt]; lia).
        rewrite Hbal. unfold Store.load, s1. simpl. apply update_same.
        rewrite Forall_forall in Hvalid.
        apply (Hvalid account). eapply nth_error_In. exact Hi.
      * assert (Hother : Store.load s1 (Store.AccountRef.Balance account)
                         = Store.load s (Store.AccountRef.Balance account)).
        { unfold Store.load, s1. simpl. apply update_other.
          intros Heq. apply Hne.
          exact (NoDup_map_nth_error _ _ Hnodup _ _ Hi Hx (eq_sym Heq)). }
        rewrite Hother.
        replace ((S x <=? i) && (i <? S x + n))%nat
          with ((x <=? i) && (i <? x + S n))%nat; [reflexivity |].
        destruct (Nat.leb_spec x i), (Nat.leb_spec (S x) i),
          (Nat.ltb_spec i (x + S n)), (Nat.ltb_spec i (S x + n));
          simpl; try reflexivity; lia.
    + rewrite (IH (S x) s Hnodup Hvalid i account Hi).
      destruct (Nat.eq_dec i x) as [-> | Hne].
      * assert (account = current) by congruence. subst current.
        rewrite Hbal.
        destruct ((S x <=? x) && (x <? S x + n))%nat,
          ((x <=? x) && (x <? x + S n))%nat; reflexivity.
      * replace ((S x <=? i) && (i <? S x + n))%nat
          with ((x <=? i) && (i <? x + S n))%nat; [reflexivity |].
        destruct (Nat.leb_spec x i), (Nat.leb_spec (S x) i),
          (Nat.ltb_spec i (x + S n)), (Nat.ltb_spec i (S x + n));
          simpl; try reflexivity; lia.
Qed.

(** X12: When the accounts have pairwise different, allocated [Balance] cells,
    [GetPendingBalances] leaves in each account's cell the pending balance
    the node reports for its address, and the old balance where the node
    returns an error. *)
Theorem GetPendingBalances_refreshes (s : Store.state) :
  NoDup (map Store.AccountRef.Balance (Store.accounts s)) ->
  Forall (fun a => (Store.AccountRef.Balance a < Store.fresh s)%nat)
    (Store.accounts s) ->
  forall account : Store.AccountRef.t,
    In account (Store.accounts s) ->
    Store.load
      (Store.GetPendingBalances PendingBalanceAt
         (length (Store.accounts s)) 0 s)
      (Store.AccountRef.Balance account)
    = match PendingBalanceAt (Store.AccountRef.Address account) with
      | Some bal => bal
      | None => Store.load s (Store.AccountRef.Balance account)
      end.
Proof.
  intros Hnodup Hvalid account Hin.
  destruct (In_nth_error _ _ Hin) as [i Hi].
  rewrite (@GetPendingBalances_from (length (Store.accounts s)) 0 s
             Hnodup Hvalid i account Hi).
  assert (Hlt : (i < length (Store.accounts s))%nat)
    by (apply nth_error_Some; congruence).
  replace ((0 <=? i) && (i <? 0 + length (Store.accounts s)))%nat with true;
    [reflexivity |].
  symmetry. apply andb_true_iff. split; [apply Nat.leb_le | apply Nat.ltb_lt]; lia.
Qed.
End RefreshFacts.

Lemma getBalanceTx_highest_price_witness :
  0 <= 1
  /\ 1000000 < 3000000 - 1 * gasPriceDecrement
  /\ Account.Balance (exampleAccount 1 21000000001 0)
     <= (3000000 - 1 * gasPriceDecrement) * transferGasUnits.
Proof.
  pose proof (@getBalanceTx_highest_price unit alwaysSigns (exampleAddress 9)
                3000000 (exampleAccount 1 21000000001 0)) as H.
  assert (E : getBalanceTx alwaysSigns (exampleAddress 9) 3000000
                (exampleAccount 1 21000000001 0)
              = Returned (Some (mkSigned
                  (Transaction.mk 0 (exampleAddress 9) 1 21000 1000000 []) tt)))
    by (vm_compute; reflexivity).
  rewrite E in H. cbn [Tx Transaction.GasPrice] in H.
  assert (H0 : 0 <= 1) by lia.
  assert (H1 : 1000000 < 3000000 - 1 * gasPriceDecrement)
    by (vm_compute; reflexivity).
  split; [exact H0 |]. split; [exact H1 |].
  exact (H 1 H0 H1).
Defined.

Lemma GetPendingBalances_refreshes_witness :
  NoDup (map Store.AccountRef.Balance (Store.accounts exampleStore))
  /\ Forall (fun a => (Store.AccountRef.Balance a < Store.fresh exampleStore)%nat)
       (Store.accounts exampleStore)
  /\ In exampleAccountRef (Store.accounts exampleStore)
  /\ Store.load
       (Store.GetPendingBalances alwaysFive
          (length (Store.accounts exampleStore)) 0 exampleStore)
       (Store.AccountRef.Balance exampleAccountRef)
     = match alwaysFive (Store.AccountRef.Address exampleAccountRef) with
       | Some bal => bal
       | None => Store.load exampleStore
                   (Store.AccountRef.Balance exampleAccountRef)
       end.
Proof.
  assert (H0 : NoDup (map Store.AccountRef.Balance
                        (Store.accounts exampleStore)))
    by (simpl; constructor; [intros [] | constructor]).
  assert (H1 : Forall (fun a => (Store.AccountRef.Balance a
                                 < Store.fresh exampleStore)%nat)
                 (Store.accounts exampleStore))
    by (constructor; [vm_compute; lia | constructor]).
  assert (H2 : In exampleAccountRef (Store.accounts exampleStore))
    by (left; reflexivity).
  split; [exact H0 |]. split; [exact H1 |]. split; [exact H2 |].
  exact (@GetPendingBalances_refreshes alwaysFive exampleStore H0 H1
           exampleAccountRef H2).
Defined.

Lemma getBalanceTx_agrees_witness :
  (0 < Store.fresh exampleStore)%nat
  /\ allocated exampleStore exampleAccountRef
  /\ match Store.getBalanceTx alwaysSigns exampleStore (exampleAddress 9) 0%nat
             exampleAccountRef with
     | Returned (result, _) =>
         getBalanceTx alwaysSigns (exampleAddress 9)
           (Store.load exampleStore 0%nat) (view exampleStore exampleAccountRef)
         = Returned result
     | Fatal =>
         getBalanceTx alwaysSigns (exampleAddress 9)
           (Store.load exampleStore 0%nat) (view exampleStore exampleAccountRef)
         = Fatal
     | OutOfFuel => False
     end.
Proof.
  assert (H0 : (0 < Store.fresh exampleStore)%nat) by (vm_compute; lia).
  assert (H1 : allocated exampleStore exampleAccountRef)
    by (unfold allocated; repeat split; try (vm_compute; lia); constructor).
  split; [exact H0 |]. split; [exact H1 |].
  exact (@getBalanceTx_agrees unit alwaysSigns exampleStore (exampleAddress 9)
           0%nat exampleAccountRef H0 H1).
Defined.

(** ** Sending and awaiting *)

Section TraceFacts.
Variable Signature : Type.

Lemma printedOf_app (t1 t2 : list (event Signature)) :
  printedOf (t1 ++ t2) = printedOf t1 ++ printedOf t2.
Proof. apply flat_map_app. Qed.

Lemma sentOf_app (t1 t2 : list (event Signature)) :
  sentOf (t1 ++ t2) = sentOf t1 ++ sentOf t2.
Proof. apply flat_map_app. Qed.

Lemma queriedOf_app (t1 t2 : list (event Signature)) :
  queriedOf (t1 ++ t2) = queriedOf t1 ++ queriedOf t2.
Proof. apply flat_map_app. Qed.

Lemma secondsSlept_app (t1 t2 : list (event Signature)) :
  secondsSlept (t1 ++ t2) = secondsSlept t1 + secondsSlept t2.
Proof.
  induction t1 as [| e t1 IH]; simpl; [reflexivity |].
  destruct e; rewrite ?IH; lia.
Qed.

Lemma printsOnly_app (t1 t2 : list (event Signature)) :
  printsOnly t1 -> printsOnly t2 -> printsOnly (t1 ++ t2).
Proof. intros H1 H2. apply Forall_app. split; assumption. Qed.

Lemma printsOnly_printed (transactions : list (TransactionWithOriginator Signature)) :
  printsOnly (map (@Printed Signature) transactions).
Proof.
  induction transactions as [| t rest IH]; constructor; [exact I | exact IH].
Qed.
End TraceFacts.

Section SendingFacts.
Variable Signature : Type.
Variable Node : Type.
Variable SendTransaction :
  Node -> SignedTransaction Signature -> bool * Node.
Variable TransactionByHash :
  Node -> SignedTransaction Signature -> option bool.
Variable Sleep : Node -> Z -> Node.

Lemma sendLoop_simulate
    (transactions : list (TransactionWithOriginator Signature)) :
  forall (node : Node) (trace : list (event Signature)),
    sendLoop SendTransaction transactions true node trace
    = (node, trace ++ map (@Printed Signature) transactions).
Proof.
  induction transactions as [| t rest IH]; intros node trace; simpl.
  - rewrite app_nil_r. reflexivity.
  - rewrite IH, <- app_assoc. reflexivity.
Qed.

(** X14: When simulating, [sendTransactions] prints every transaction, in
    order, and does nothing else: it sends nothing, asks the node nothing
    and does not wait, and the node is as it was. *)
Theorem sendTransactions_simulate_prints_only
    (transactions : list (TransactionWithOriginator Signature))
    (node : Node) (trace : list (event Signature)) :
  sendTransactions SendTransaction TransactionByHash Sleep transactions true
    node trace
  = (node, trace ++ map (@Printed Signature) transactions).
Proof.
  unfold sendTransactions.
  revert node trace.
  induction transactions as [| t rest IH]; intros node trace.
  - simpl. rewrite app_nil_r. reflexivity.
  - cbn [sendLoop map].
    specialize (IH node (trace ++ [Printed t])).
    destruct (sendLoop SendTransaction rest true node (trace ++ [Printed t]))
      as [node' trace'].
    rewrite IH, <- app_assoc. reflexivity.
Qed.

(** X15: When not simulating, [sendTransactions] prints each transaction and
    hands it to the node, once and in the order of the list, whether or
    not the node accepts the ones before it; it looks nothing up and does
    not wait while sending, and [AwaitTransactions] runs once, after the
    last transaction was sent. *)
Theorem sendTransactions_sends_each_once
    (transactions : list (TransactionWithOriginator Signature)) :
  forall (node : Node) (trace : list (event Signature)),
  exists (node1 : Node) (sending : list (event Signature)),
    sendTransactions SendTransaction TransactionByHash Sleep transactions
      false node trace
    = AwaitTransactions TransactionByHash Sleep transactions node1
        (trace ++ sending)
    /\ printedOf sending = transactions
    /\ sentOf sending = map (@SignedTx Signature) transactions
    /\ queriedOf sending = []
    /\ secondsSlept sending = 0.
Proof.
  unfold sendTransactions.
  assert (Hloop : forall (node : Node) (trace : list (event Signature)),
             exists (node1 : Node) (sending : list (event Signature)),
               sendLoop SendTransaction transactions false node trace
               = (node1, trace ++ sending)
               /\ printedOf sending = transactions
               /\ sentOf sending = map (@SignedTx Signature) transactions
               /\ queriedOf sending = []
               /\ secondsSlept sending = 0).
  { induction transactions as [| t rest IH]; intros node trace.
    - exists node, []. simpl. rewrite app_nil_r. repeat split.
    - cbn [sendLoop].
      destruct (SendTransaction node (SignedTx t)) as [[|] node0].
      + destruct (IH node0 ((trace ++ [Printed t]) ++ [Sent (SignedTx t)]))
          as (node1 & sending & Hrun & Hp & Hs & Hq & Hz).
        exists node1, (Printed t :: Sent (SignedTx t) :: sending).
        split; [rewrite Hrun, <- !app_assoc; reflexivity |].
        simpl. rewrite Hz. fold (printedOf sending). fold (sentOf sending).
        fold (queriedOf sending). rewrite Hp, Hs, Hq. repeat split.
      + destruct (IH node0 (((trace ++ [Printed t]) ++ [Sent (SignedTx t)])
                              ++ [Logged Signature]))
          as (node1 & sending & Hrun & Hp & Hs & Hq & Hz).
        exists node1,
          (Printed t :: Sent (SignedTx t) :: Logged Signature :: sending).
        split; [rewrite Hrun, <- !app_assoc; reflexivity |].
        simpl. rewrite Hz. fold (printedOf sending). fold (sentOf sending).
        fold (queriedOf sending). rewrite Hp, Hs, Hq. repeat split. }
  intros node trace.
  destruct (Hloop node trace) as (node1 & sending & Hrun & Hfacts).
  exists node1, sending. rewrite Hrun. split; [reflexivity | exact Hfacts].
Qed.

(** X16: [AwaitTransactions] looks every transaction up once, in the order of
    the list, and never again: it waits 2 seconds, then 15 more for each
    transaction it finds pending or cannot look up, so at most
    2 + 15 * n seconds for n transactions, and it sends nothing. *)
Theorem AwaitTransactions_polls_each_once
    (transactions : list (TransactionWithOriginator Signature))
    (node : Node) (trace : list (event Signature)) :
  exists polling : list (event Signature),
    snd (AwaitTransactions TransactionByHash Sleep transactions node trace)
    = trace ++ Slept Signature 2 :: polling
    /\ queriedOf polling = map (@SignedTx Signature) transactions
    /\ sentOf polling = []
    /\ printedOf polling = []
    /\ 0 <= secondsSlept polling <= 15 * Z.of_nat (length transactions).
Proof.
  unfold AwaitTransactions.
  assert (Hloop : forall (node : Node) (trace : list (event Signature)),
             exists polling : list (event Signature),
               snd (awaitLoop TransactionByHash Sleep transactions node trace)
               = trace ++ polling
               /\ queriedOf polling = map (@SignedTx Signature) transactions
               /\ sentOf polling = []
               /\ printedOf polling = []
               /\ 0 <= secondsSlept polling
                  <= 15 * Z.of_nat (length transactions)).
  { clear node trace.
    induction transactions as [| t rest IH]; intros node trace.
    - exists []. simpl. rewrite app_nil_r. repeat split; lia.
    - cbn [awaitLoop].
      destruct (match TransactionByHash node (SignedTx t) with
                | Some isPending => isPending
                | None => true
                end).
      + destruct (IH (Sleep node 15)
                    ((trace ++ [Queried (SignedTx t)]) ++ [Slept Signature 15]))
          as (polling & Hrun & Hq & Hs & Hp & Hz).
        exists (Queried (SignedTx t) :: Slept Signature 15 :: polling).
        split; [rewrite Hrun, <- !app_assoc; reflexivity |].
        cbn [queriedOf sentOf printedOf flat_map secondsSlept fold_right
               app map length].
        fold (queriedOf polling). fold (sentOf polling).
        fold (printedOf polling). fold (secondsSlept polling).
        rewrite Hq, Hs, Hp. repeat split; lia.
      + destruct (IH node (trace ++ [Queried (SignedTx t)]))
          as (polling & Hrun & Hq & Hs & Hp & Hz).
        exists (Queried (SignedTx t) :: polling).
        split; [rewrite Hrun, <- !app_assoc; reflexivity |].
        cbn [queriedOf sentOf printedOf flat_map secondsSlept fold_right
               app map length].
        fold (queriedOf polling). fold (sentOf polling).
        fold (printedOf polling). fold (secondsSlept polling).
        rewrite Hq, Hs, Hp. repeat split; lia. }
  destruct (Hloop (Sleep node 2) (trace ++ [Slept Signature 2]))
    as (polling & Hrun & Hfacts).
  exists polling. rewrite Hrun, <- app_assoc. split; [reflexivity | exact Hfacts].
Qed.
End SendingFacts.

(** ** Nonces across the three phases *)

Lemma sameAddress_refl (a : common.Address) : sameAddress a a = true.
Proof. unfold sameAddress. destruct (list_eq_dec _ a a); congruence. Qed.

Lemma sameAddress_other (a b : common.Address) :
  a <> b -> sameAddress a b = false.
Proof. unfold sameAddress. destruct (list_eq_dec _ a b); congruence. Qed.

Lemma seq_from (start len : nat) :
  seq start len = map (Nat.add start) (seq 0 len).
Proof.
  induction start as [| start IH]; simpl.
  - symmetry. apply map_id.
  - rewrite <- seq_shift, IH, map_map. reflexivity.
Qed.

Lemma consecutiveNonces_app (first : Z) (c1 c2 : nat) :
  consecutiveNonces first (c1 + c2)
  = consecutiveNonces first c1
      ++ consecutiveNonces ((first + Z.of_nat c1) mod uint64_modulus) c2.
Proof.
  unfold consecutiveNonces. rewrite seq_app, map_app. f_equal.
  simpl. rewrite (seq_from c1 c2), map_map. apply map_ext. intros i.
  rewrite Zplus_mod_idemp_l, Nat2Z.inj_add. f_equal. lia.
Qed.

Lemma book_refresh (gasPrice : Z) (accounts : list Account.t) :
  map book (map (refreshAvailable gasPrice) accounts) = map book accounts.
Proof. rewrite map_map. apply map_ext. intros a. reflexivity. Qed.

Lemma address_of_book (accounts : list Account.t) :
  map Account.Address accounts = map fst (map book accounts).
Proof. rewrite map_map. apply map_ext. intros a. reflexivity. Qed.

Lemma NoDup_address_inj (accounts : list Account.t) (a b : Account.t) :
  NoDup (map Account.Address accounts) ->
  In a accounts -> In b accounts ->
  Account.Address a = Account.Address b -> a = b.
Proof.
  induction accounts as [| x rest IH]; intros Hnodup Ha Hb Heq; [contradiction |].
  simpl in Hnodup. inversion Hnodup as [| ? ? Hnotin Hrest]; subst.
  destruct Ha as [-> | Ha], Hb as [-> | Hb].
  - reflexivity.
  - exfalso. apply Hnotin. rewrite Heq. apply in_map. exact Hb.
  - exfalso. apply Hnotin. rewrite <- Heq. apply in_map. exact Ha.
  - apply IH; assumption.
Qed.

Section NonceFacts.
Variable Signature : Type.
Variable SignTx : Transaction.t -> Z -> Z -> option Signature.

Lemma noncesOf_app (address : common.Address)
    (e1 e2 : list (TransactionWithOriginator Signature)) :
  noncesOf address (e1 ++ e2) = noncesOf address e1 ++ noncesOf address e2.
Proof. unfold noncesOf. rewrite filter_app, map_app. reflexivity. Qed.

Lemma noncesOf_other (address : common.Address)
    (emitted : list (TransactionWithOriginator Signature)) :
  Forall (fun t => Originator t <> address) emitted ->
  noncesOf address emitted = [].
Proof.
  induction 1 as [| t rest Ht _ IH]; [reflexivity |].
  unfold noncesOf in *. simpl. rewrite (sameAddress_other Ht). exact IH.
Qed.

Lemma noncesOf_own (address : common.Address)
    (emitted : list (TransactionWithOriginator Signature)) :
  Forall (fun t => Originator t = address) emitted ->
  noncesOf address emitted
  = map (fun t => Transaction.Nonce (Tx (SignedTx t))) emitted.
Proof.
  induction 1 as [| t rest Ht _ IH]; [reflexivity |].
  unfold noncesOf in *. simpl. rewrite Ht, sameAddress_refl. simpl.
  rewrite IH. reflexivity.
Qed.

Lemma noncesOf_elsewhere (address : common.Address)
    (addresses : list common.Address)
    (emitted : list (TransactionWithOriginator Signature)) :
  Forall (fun t => In (Originator t) addresses) emitted ->
  ~ In address addresses ->
  noncesOf address emitted = [].
Proof.
  intros Hall Hnotin. apply noncesOf_other.
  eapply Forall_impl; [| exact Hall].
  intros t Hin Heq. apply Hnotin. rewrite <- Heq. exact Hin.
Qed.

Lemma ledger_distinct (before after : list Account.t)
    (emitted : list (TransactionWithOriginator Signature)) :
  nonceLedger before emitted after ->
  distinctAccounts before -> distinctAccounts after.
Proof.
  intros [Hperm Hledger] [Hnodup Hrange]. split.
  - eapply Permutation_NoDup; eassumption.
  - apply Forall_forall. intros a' Hin.
    destruct (Hledger a' Hin) as (a & count & _ & _ & _ & ->).
    apply Z.mod_pos_bound. reflexivity.
Qed.

Lemma ledger_trans (l0 l1 l2 : list Account.t)
    (e1 e2 : list (TransactionWithOriginator Signature)) :
  nonceLedger l0 e1 l1 -> nonceLedger l1 e2 l2 ->
  nonceLedger l0 (e1 ++ e2) l2.
Proof.
  intros [Hperm1 H1] [Hperm2 H2]. split.
  - eapply perm_trans; eassumption.
  - intros a2 Hin2.
    destruct (H2 a2 Hin2) as (a1 & c2 & Hin1 & Haddr2 & Hn2 & Hlast2).
    destruct (H1 a1 Hin1) as (a0 & c1 & Hin0 & Haddr1 & Hn1 & Hlast1).
    exists a0, (c1 + c2)%nat. split; [exact Hin0 |].
    split; [congruence |]. split.
    + rewrite noncesOf_app, consecutiveNonces_app, <- Hlast1, <- Hn2.
      rewrite <- Haddr2, Hn1. reflexivity.
    + rewrite Hlast2, Hlast1, Zplus_mod_idemp_l, Nat2Z.inj_add.
      f_equal. lia.
Qed.

Lemma ledger_rebook (before after : list Account.t) :
  Permutation (map book before) (map book after) ->
  Forall (fun a => 0 <= Account.Nonce a < uint64_modulus) before ->
  nonceLedger before (@nil (TransactionWithOriginator Signature)) after.
Proof.
  intros Hperm Hrange. split.
  - rewrite !address_of_book. apply Permutation_map. exact Hperm.
  - intros a' Hin.
    assert (Hbook : In (book a') (map book before)).
    { eapply Permutation_in; [apply Permutation_sym; exact Hperm |].
      apply in_map. exact Hin. }
    apply in_map_iff in Hbook. destruct Hbook as (a & Hsame & Hina).
    exists a, 0%nat. split; [exact Hina |].
    injection Hsame as Haddr Hnonce.
    split; [exact Haddr |]. split; [reflexivity |].
    rewrite <- Hnonce, Z.add_0_r. symmetry. apply Z.mod_small.
    rewrite Forall_forall in Hrange. apply Hrange. exact Hina.
Qed.

Lemma ledger_close (l0 l1 : list Account.t)
    (e1 e2 : list (TransactionWithOriginator Signature)) :
  nonceLedger l0 e1 l1 ->
  distinctAccounts l0 ->
  (forall a, In a l1 ->
     exists count,
       noncesOf (Account.Address a) e2
       = consecutiveNonces (Account.Nonce a) count) ->
  forall a, In a l0 ->
    exists count,
      noncesOf (Account.Address a) (e1 ++ e2)
      = consecutiveNonces (Account.Nonce a) count.
Proof.
  intros [Hperm Hledger] [Hnodup _] Hlast a0 Hin0.
  assert (Hin1 : In (Account.Address a0) (map Account.Address l1)).
  { eapply Permutation_in; [exact Hperm |]. apply in_map. exact Hin0. }
  apply in_map_iff in Hin1. destruct Hin1 as (a1 & Haddr & Hin1).
  destruct (Hledger a1 Hin1) as (a & c1 & Hin & Haddr1 & Hn1 & Hlast1).
  assert (a = a0)
    by (apply (NoDup_address_inj l0); try assumption; congruence).
  subst a.
  destruct (Hlast a1 Hin1) as (c2 & Hn2).
  exists (c1 + c2)%nat.
  rewrite noncesOf_app, consecutiveNonces_app, <- Hlast1, <- Hn2.
  rewrite <- Haddr, Hn1. reflexivity.
Qed.

(** One round of the gas redistribution. *)
Lemma ledger_gas_round (gasPrice : Z) (negative positive : Account.t)
    (negatives positives : list Account.t) (sig : Signature) :
  distinctAccounts ((negative :: negatives) ++ positive :: positives) ->
  nonceLedger ((negative :: negatives) ++ positive :: positives)
    [mkOriginated (Account.Address positive)
       (mkSigned
          (gasTransaction gasPrice (gasPrice * transferGasUnits)
             negative positive) sig)]
    ((funded gasPrice (gasPrice * transferGasUnits) negative positive
        :: negatives)
       ++ charged gasPrice (gasPrice * transferGasUnits) negative positive
          :: positives).
Proof.
  intros [Hnodup Hrange].
  assert (Hothers : forall a,
             In a ((negative :: negatives) ++ positives) ->
             Account.Address a <> Account.Address positive).
  { intros a Hin Heq. rewrite map_app in Hnodup. simpl map in Hnodup.
    apply NoDup_remove_2 in Hnodup. apply Hnodup.
    change (Account.Address negative :: map Account.Address negatives)
      with (map Account.Address (negative :: negatives)).
    rewrite <- map_app, <- Heq. apply in_map. exact Hin. }
  assert (Hsmall : forall a,
             In a ((negative :: negatives) ++ positive :: positives) ->
             Account.Nonce a = (Account.Nonce a + Z.of_nat 0) mod uint64_modulus).
  { intros a Hin. rewrite Z.add_0_r. symmetry. apply Z.mod_small.
    rewrite Forall_forall in Hrange. apply Hrange. exact Hin. }
  split.
  - rewrite !map_app. simpl. apply Permutation_refl.
  - intros a' Hin.
    assert (Hquiet : forall a,
               In a ((negative :: negatives) ++ positives) ->
               noncesOf (Account.Address a)
                 [mkOriginated (Account.Address positive)
                    (mkSigned
                       (gasTransaction gasPrice (gasPrice * transferGasUnits)
                          negative positive) sig)] = []).
    { intros a Ha. apply noncesOf_other. constructor; [| constructor].
      simpl. intros Heq. apply (Hothers a Ha). symmetry. exact Heq. }
    apply in_app_or in Hin. destruct Hin as [[<- | Hin] | [<- | Hin]].
    + exists negative, 0%nat. split; [left; reflexivity |].
      split; [reflexivity |]. split.
      * apply (Hquiet negative). left. reflexivity.
      * apply (Hsmall negative). left. reflexivity.
    + exists a', 0%nat. split; [right; apply in_or_app; left; exact Hin |].
      split; [reflexivity |]. split.
      * apply (Hquiet a'). right. apply in_or_app. left. exact Hin.
      * apply (Hsmall a'). right. apply in_or_app. left. exact Hin.
    + exists positive, 1%nat.
      split; [apply in_or_app; right; left; reflexivity |].
      split; [reflexivity |]. split.
      * unfold noncesOf. simpl. rewrite sameAddress_refl. simpl.
        unfold consecutiveNonces. simpl. rewrite Z.add_0_r.
        f_equal. symmetry. apply Z.mod_small.
        rewrite Forall_forall in Hrange. apply Hrange.
        apply in_or_app. right. left. reflexivity.
      * reflexivity.
    + exists a', 0%nat.
      split; [apply in_or_app; right; right; exact Hin |].
      split; [reflexivity |]. split.
      * apply (Hquiet a'). apply in_or_app. right. exact Hin.
      * apply (Hsmall a'). apply in_or_app. right. right. exact Hin.
Qed.

Lemma ledger_gas_rounds (gasPrice : Z) (accounts accounts' : list Account.t)
    (transactions transactions' : list (TransactionWithOriginator Signature)) :
  gasRounds SignTx gasPrice accounts transactions accounts' transactions' ->
  distinctAccounts accounts ->
  exists emitted,
    transactions' = transactions ++ emitted
    /\ nonceLedger accounts emitted accounts'.
Proof.
  induction 1 as [accounts transactions Hside
                 | accounts transactions negative positive negatives positives
                     sig accounts' transactions' Hsn Hsp Hsig Hrest IH];
    intros Hdistinct.
  - exists []. rewrite app_nil_r. split; [reflexivity |].
    apply ledger_rebook; [| apply Hdistinct].
    rewrite book_refresh. apply Permutation_refl.
  - assert (Hsorted : nonceLedger accounts
                        (@nil (TransactionWithOriginator Signature))
                        ((negative :: negatives) ++ positive :: positives)).
    { apply ledger_rebook; [| apply Hdistinct].
      destruct (sorted_sides gasPrice accounts) as (Hperm & _ & _).
      rewrite Hsn, Hsp in Hperm.
      rewrite <- (book_refresh gasPrice accounts).
      apply Permutation_map. exact Hperm. }
    pose proof (ledger_distinct Hsorted Hdistinct) as Hdistinct1.
    pose proof (ledger_gas_round gasPrice sig Hdistinct1) as Hround.
    pose proof (ledger_distinct Hround Hdistinct1) as Hdistinct2.
    destruct (IH Hdistinct2) as (emitted & Hemitted & Hledger).
    exists ([mkOriginated (Account.Address positive)
               (mkSigned
                  (gasTransaction gasPrice (gasPrice * transferGasUnits)
                     negative positive) sig)] ++ emitted).
    split; [rewrite Hemitted, <- app_assoc; reflexivity |].
    change ([mkOriginated (Account.Address positive)
               (mkSigned
                  (gasTransaction gasPrice (gasPrice * transferGasUnits)
                     negative positive) sig)] ++ emitted)
      with ([] ++ [mkOriginated (Account.Address positive)
               (mkSigned
                  (gasTransaction gasPrice (gasPrice * transferGasUnits)
                     negative positive) sig)] ++ emitted).
    eapply ledger_trans; [exact Hsorted |].
    eapply ledger_trans; [exact Hround | exact Hledger].
Qed.
End NonceFacts.

Section PhaseNonces.
Variable Signature : Type.
Variable SignTx : Transaction.t -> Z -> Z -> option Signature.

Lemma ledger_sweep (destinationAddress : common.Address) (gasPrice : Z)
    (accounts : list Account.t) :
  forall transactions : list (TransactionWithOriginator Signature),
    distinctAccounts accounts ->
    exists emitted,
      snd (transferTokens SignTx destinationAddress gasPrice accounts
             transactions)
      = transactions ++ emitted
      /\ Forall (fun t => In (Originator t) (map Account.Address accounts))
           emitted
      /\ nonceLedger accounts emitted
           (fst (transferTokens SignTx destinationAddress gasPrice accounts
                   transactions)).
Proof.
  induction accounts as [| account rest IH]; intros transactions [Hnodup Hrange].
  - exists []. simpl. rewrite app_nil_r. split; [reflexivity |].
    split; [constructor |]. split; [apply Permutation_refl |].
    intros a' [].
  - cbn [transferTokens].
    destruct (sweepAccount SignTx destinationAddress gasPrice account
                transactions) as [account' transactions1] eqn:Hsweep.
    unfold sweepAccount in Hsweep.
    inversion Hnodup as [| ? ? Hfresh Hnodup']; subst.
    inversion Hrange as [| ? ? Hnonce Hrange']; subst.
    destruct (@sweep_fold_accounting Signature SignTx destinationAddress
                gasPrice (sortSlice lessTokens (Account.Tokens account))
                (Account.set_Tokens account
                   (sortSlice lessTokens (Account.Tokens account)))
                transactions Hnonce)
      as (swept & Hsnd & _ & Hlast & Hnonces & _ & Hown & Hsame).
    rewrite Hsweep in Hsnd, Hlast, Hsame. cbn [fst snd] in Hsnd, Hlast, Hsame.
    assert (Haddr : Account.Address account' = Account.Address account)
      by (apply (f_equal Account.Address) in Hsame; exact Hsame).
    cbn [Account.set_Tokens Account.Nonce] in Hlast, Hnonces.
    assert (Hown' : Forall (fun t => Originator t = Account.Address account)
                      swept).
    { eapply Forall_impl; [| exact Hown]. intros t (Ht & _). exact Ht. }
    destruct (IH transactions1 (conj Hnodup' Hrange'))
      as (emitted & Hemitted & Hfrom & Hperm & Hledger).
    destruct (transferTokens SignTx destinationAddress gasPrice rest
                transactions1) as [rest' transactions2].
    cbn [fst snd] in *.
    exists (swept ++ emitted).
    split; [rewrite Hemitted, Hsnd, <- app_assoc; reflexivity |].
    split.
    { apply Forall_app. split.
      - eapply Forall_impl; [| exact Hown']. intros t ->. left. reflexivity.
      - eapply Forall_impl; [| exact Hfrom]. intros t Ht. right. exact Ht. }
    split.
    { simpl. rewrite Haddr. apply perm_skip. exact Hperm. }
    intros a' [<- | Hin].
    + exists account, (length swept). split; [left; reflexivity |].
      split; [symmetry; exact Haddr |]. split; [| exact Hlast].
      rewrite noncesOf_app, Haddr, (noncesOf_own Hown'), Hnonces.
      rewrite (@noncesOf_elsewhere _ _ _ _ Hfrom Hfresh). apply app_nil_r.
    + destruct (Hledger a' Hin) as (a & count & Hina & Hsameaddr & Hn & Hl).
      exists a, count. split; [right; exact Hina |].
      split; [exact Hsameaddr |]. split; [| exact Hl].
      rewrite noncesOf_app, noncesOf_other; [exact Hn |].
      eapply Forall_impl; [| exact Hown']. intros t -> Heq.
      apply Hfresh. rewrite Heq, <- Hsameaddr. apply in_map. exact Hina.
Qed.

Lemma getBalanceTx_nonce (destinationAddress : common.Address) (gasPrice : Z)
    (account : Account.t) (signedTx : SignedTransaction Signature) :
  getBalanceTx SignTx destinationAddress gasPrice account
  = Returned (Some signedTx) ->
  Transaction.Nonce (Tx signedTx) = Account.Nonce account.
Proof.
  funelim (getBalanceTx SignTx destinationAddress gasPrice account);
    intros Hrun.
  - destruct (SignTx _ _ _) as [sig |]; [| discriminate].
    injection Hrun as <-. reflexivity.
  - apply H. exact Hrun.
  - discriminate.
Qed.

Lemma drained_nonces (destinationAddress : common.Address) (gasPrice : Z)
    (accounts : list Account.t) :
  distinctAccounts accounts ->
  Forall (fun t => In (Originator t) (map Account.Address accounts))
    (flat_map (drained SignTx destinationAddress gasPrice) accounts)
  /\ forall a, In a accounts ->
       exists count,
         noncesOf (Account.Address a)
           (flat_map (drained SignTx destinationAddress gasPrice) accounts)
         = consecutiveNonces (Account.Nonce a) count.
Proof.
  induction accounts as [| account rest IH]; intros [Hnodup Hrange].
  - split; [constructor | intros a []].
  - inversion Hnodup as [| ? ? Hfresh Hnodup']; subst.
    inversion Hrange as [| ? ? Hnonce Hrange']; subst.
    destruct (IH (conj Hnodup' Hrange')) as (Hfrom & Hrest).
    assert (Hown : Forall (fun t => Originator t = Account.Address account)
                     (drained SignTx destinationAddress gasPrice account)).
    { unfold drained.
      destruct (getBalanceTx SignTx destinationAddress gasPrice account)
        as [[signedTx |] | |]; repeat constructor. }
    assert (Hone : exists count,
               map (fun t => Transaction.Nonce (Tx (SignedTx t)))
                 (drained SignTx destinationAddress gasPrice account)
               = consecutiveNonces (Account.Nonce account) count).
    { unfold drained.
      destruct (getBalanceTx SignTx destinationAddress gasPrice account)
        as [[signedTx |] | |] eqn:Hrun; try (exists 0%nat; reflexivity).
      exists 1%nat. simpl. rewrite (@getBalanceTx_nonce _ _ _ _ Hrun).
      unfold consecutiveNonces. simpl. rewrite Z.add_0_r.
      f_equal. symmetry. apply Z.mod_small. exact Hnonce. }
    cbn [flat_map]. split.
    + apply Forall_app. split.
      * eapply Forall_impl; [| exact Hown]. intros t ->. left. reflexivity.
      * eapply Forall_impl; [| exact Hfrom]. intros t Ht. right. exact Ht.
    + intros a [<- | Hin].
      * destruct Hone as (count & Hcount). exists count.
        rewrite noncesOf_app, (noncesOf_own Hown), Hcount.
        rewrite (@noncesOf_elsewhere _ _ _ _ Hfrom Hfresh). apply app_nil_r.
      * destruct (Hrest a Hin) as (count & Hcount). exists count.
        rewrite noncesOf_app, noncesOf_other; [exact Hcount |].
        eapply Forall_impl; [| exact Hown]. intros t -> Heq.
        apply Hfresh. rewrite Heq. apply in_map. exact Hin.
Qed.

Lemma book_GetPendingBalances (PendingBalanceAt : common.Address -> option Z)
    (accounts : list Account.t) :
  map book (GetPendingBalances PendingBalanceAt accounts) = map book accounts.
Proof.
  unfold GetPendingBalances. rewrite map_map. apply map_ext. intros a.
  destruct (PendingBalanceAt (Account.Address a)); reflexivity.
Qed.
End PhaseNonces.

Section MigrationFacts.
Variable Signature : Type.
Variable SignTx : Transaction.t -> Z -> Z -> option Signature.
Variable Node : Type.
Variable SendTransaction :
  Node -> SignedTransaction Signature -> bool * Node.
Variable TransactionByHash :
  Node -> SignedTransaction Signature -> option bool.
Variable Sleep : Node -> Z -> Node.
Variable PendingBalanceAt : Node -> common.Address -> option Z.

Lemma sendLoop_shows
    (transactions : list (TransactionWithOriginator Signature))
    (simulate : bool) :
  forall (node : Node) (trace : list (event Signature)),
    let trace' := snd (sendLoop SendTransaction transactions simulate node
                         trace) in
    printedOf trace' = printedOf trace ++ transactions
    /\ sentOf trace'
       = sentOf trace
           ++ (if simulate then []
               else map (@SignedTx Signature) transactions).
Proof.
  induction transactions as [| t rest IH]; intros node trace; cbn [sendLoop].
  - simpl. destruct simulate; rewrite !app_nil_r; split; reflexivity.
  - destruct simulate.
    + destruct (IH node (trace ++ [Printed t])) as (Hp & Hs).
      cbn zeta in Hp, Hs. rewrite Hp, Hs, printedOf_app, sentOf_app.
      simpl. rewrite <- !app_assoc. split; reflexivity.
    + destruct (SendTransaction node (SignedTx t)) as [[|] node0].
      * destruct (IH node0 ((trace ++ [Printed t]) ++ [Sent (SignedTx t)]))
          as (Hp & Hs).
        cbn zeta in Hp, Hs.
        rewrite Hp, Hs, !printedOf_app, !sentOf_app.
        simpl. rewrite <- !app_assoc. split; reflexivity.
      * destruct (IH node0 (((trace ++ [Printed t]) ++ [Sent (SignedTx t)])
                              ++ [Logged Signature])) as (Hp & Hs).
        cbn zeta in Hp, Hs.
        rewrite Hp, Hs, !printedOf_app, !sentOf_app.
        simpl. rewrite <- !app_assoc. split; reflexivity.
Qed.

Lemma awaitLoop_shows
    (transactions : list (TransactionWithOriginator Signature)) :
  forall (node : Node) (trace : list (event Signature)),
    let trace' := snd (awaitLoop TransactionByHash Sleep transactions node
                         trace) in
    printedOf trace' = printedOf trace /\ sentOf trace' = sentOf trace.
Proof.
  induction transactions as [| t rest IH]; intros node trace; cbn [awaitLoop].
  - split; reflexivity.
  - destruct (match TransactionByHash node (SignedTx t) with
              | Some isPending => isPending
              | None => true
              end).
    + destruct (IH (Sleep node 15)
                  ((trace ++ [Queried (SignedTx t)]) ++ [Slept Signature 15]))
        as (Hp & Hs).
      cbn zeta in Hp, Hs. rewrite Hp, Hs, !printedOf_app, !sentOf_app.
      simpl. rewrite !app_nil_r. split; reflexivity.
    + destruct (IH node (trace ++ [Queried (SignedTx t)])) as (Hp & Hs).
      cbn zeta in Hp, Hs. rewrite Hp, Hs, !printedOf_app, !sentOf_app.
      simpl. rewrite !app_nil_r. split; reflexivity.
Qed.

Lemma sendTransactions_shows
    (transactions : list (TransactionWithOriginator Signature))
    (simulate : bool) (node : Node) (trace : list (event Signature)) :
  let trace' := snd (sendTransactions SendTransaction TransactionByHash Sleep
                       transactions simulate node trace) in
  printedOf trace' = printedOf trace ++ transactions
  /\ sentOf trace'
     = sentOf trace
         ++ (if simulate then [] else map (@SignedTx Signature) transactions).
Proof.
  unfold sendTransactions.
  pose proof (sendLoop_shows transactions simulate node trace) as Hloop.
  destruct (sendLoop SendTransaction transactions simulate node trace)
    as [node1 trace1].
  cbn [snd] in Hloop. cbn zeta in Hloop. destruct Hloop as (Hp & Hs).
  destruct simulate; [split; assumption |].
  unfold AwaitTransactions.
  destruct (awaitLoop_shows transactions (Sleep node1 2)
              (trace1 ++ [Slept Signature 2])) as (Hp' & Hs').
  cbn zeta in Hp', Hs'.
  rewrite Hp', Hs', printedOf_app, sentOf_app. simpl.
  rewrite !app_nil_r. split; assumption.
Qed.

(** X18: Whatever the three phases print for an account carries the nonces the
    account had when [transferGas] received it and the ones following, in
    order and without a gap, provided no two accounts share an address;
    and when not simulating, the transactions handed to the node are the
    printed ones, in the same order. *)
Theorem migrate_uses_consecutive_nonces (fuel : nat)
    (destinationAddress : common.Address) (gasPrice : Z)
    (allAccounts : list Account.t) (simulate : bool) (node : Node) :
  NoDup (map Account.Address allAccounts) ->
  Forall (fun a => 0 <= Account.Nonce a < uint64_modulus) allAccounts ->
  let trace :=
    snd (snd (migrate SignTx SendTransaction TransactionByHash Sleep
                PendingBalanceAt fuel destinationAddress gasPrice allAccounts
                simulate node [])) in
  sentOf trace
  = (if simulate then [] else map (@SignedTx Signature) (printedOf trace))
  /\ forall account, In account allAccounts ->
       exists count,
         noncesOf (Account.Address account) (printedOf trace)
         = consecutiveNonces (Account.Nonce account) count.
Proof.
  intros Hnodup Hrange.
  assert (Hdistinct : distinctAccounts allAccounts) by (split; assumption).
  assert (Hnothing : forall account, In account allAccounts ->
             exists count,
               noncesOf (Account.Address account)
                 (@nil (TransactionWithOriginator Signature))
               = consecutiveNonces (Account.Nonce account) count).
  { intros account _. exists 0%nat. reflexivity. }
  unfold migrate.
  destruct (transferGas SignTx fuel gasPrice allAccounts [])
    as [[updatedAccounts gasTransactions] | |] eqn:Hgas;
    [| cbn [snd]; split; [destruct simulate; reflexivity | exact Hnothing]
     | cbn [snd]; split; [destruct simulate; reflexivity | exact Hnothing]].
  destruct (ledger_gas_rounds (transferGas_rounds _ _ _ _ _ Hgas) Hdistinct)
    as (gasEmitted & HgasEmitted & Hledger1).
  simpl in HgasEmitted. subst gasEmitted.
  pose proof (ledger_distinct Hledger1 Hdistinct) as Hdistinct1.
  pose proof (sendTransactions_shows gasTransactions simulate node [])
    as Hshow1.
  destruct (sendTransactions SendTransaction TransactionByHash Sleep
              gasTransactions simulate node []) as [node1 trace1].
  cbn [snd] in Hshow1. cbn zeta in Hshow1. destruct Hshow1 as (Hp1 & Hs1).
  simpl in Hp1, Hs1.
  destruct (ledger_sweep SignTx destinationAddress gasPrice
              (@nil (TransactionWithOriginator Signature)) Hdistinct1)
    as (tokenEmitted & HtokenEmitted & _ & Hledger2).
  destruct (transferTokens SignTx destinationAddress gasPrice updatedAccounts
              []) as [sweptAccounts tokenTransactions].
  cbn [fst snd] in HtokenEmitted, Hledger2.
  simpl in HtokenEmitted. subst tokenEmitted.
  pose proof (ledger_trans Hledger1 Hledger2) as Hledger12.
  pose proof (ledger_distinct Hledger2 Hdistinct1) as Hdistinct2.
  pose proof (sendTransactions_shows tokenTransactions simulate node1 trace1)
    as Hshow2.
  destruct (sendTransactions SendTransaction TransactionByHash Sleep
              tokenTransactions simulate node1 trace1) as [node2 trace2].
  cbn [snd] in Hshow2. cbn zeta in Hshow2. destruct Hshow2 as (Hp2 & Hs2).
  rewrite Hp1 in Hp2. rewrite Hs1 in Hs2.
  set (trace3 := if simulate && (0 <? length tokenTransactions)%nat
                 then trace2 ++ [Noticed Signature] else trace2).
  assert (Hp3 : printedOf trace3 = gasTransactions ++ tokenTransactions).
  { unfold trace3.
    destruct (simulate && (0 <? length tokenTransactions)%nat);
      [rewrite printedOf_app; simpl; rewrite app_nil_r |]; exact Hp2. }
  assert (Hs3 : sentOf trace3 = sentOf trace2).
  { unfold trace3.
    destruct (simulate && (0 <? length tokenTransactions)%nat);
      [rewrite sentOf_app; simpl; rewrite app_nil_r |]; reflexivity. }
  assert (Hsent3 : sentOf trace3
                   = if simulate then []
                     else map (@SignedTx Signature) (printedOf trace3)).
  { rewrite Hs3, Hs2, Hp3. destruct simulate; [reflexivity |].
    rewrite map_app. reflexivity. }
  clearbody trace3.
  set (drainedAccounts :=
         if simulate then sweptAccounts
         else GetPendingBalances (PendingBalanceAt node2) sweptAccounts).
  assert (Hledger3 : nonceLedger sweptAccounts
                       (@nil (TransactionWithOriginator Signature))
                       drainedAccounts).
  { apply ledger_rebook; [| apply Hdistinct2].
    unfold drainedAccounts. destruct simulate; [apply Permutation_refl |].
    rewrite book_GetPendingBalances. apply Permutation_refl. }
  pose proof (ledger_trans Hledger12 Hledger3) as Hledger.
  rewrite app_nil_r in Hledger.
  pose proof (ledger_distinct Hledger3 Hdistinct2) as Hdistinct3.
  pose proof (drain_account_by_account SignTx destinationAddress gasPrice
                drainedAccounts []) as Hdrain.
  unfold transferBalances. fold drainedAccounts.
  destruct (drain SignTx destinationAddress gasPrice drainedAccounts [])
    as [balanceEmptyingTransactions | |]; try contradiction.
  - simpl in Hdrain.
    pose proof (sendTransactions_shows balanceEmptyingTransactions simulate
                  node2 trace3) as Hshow3.
    destruct (sendTransactions SendTransaction TransactionByHash Sleep
                balanceEmptyingTransactions simulate node2 trace3)
      as [node3 trace4].
    cbn [snd] in *. cbn zeta in Hshow3. destruct Hshow3 as (Hp4 & Hs4).
    split.
    + rewrite Hs4, Hsent3, Hp4. destruct simulate; [reflexivity |].
      rewrite map_app. reflexivity.
    + rewrite Hp4, Hp3, Hdrain.
      apply (@ledger_close _ _ _ _ _ Hledger Hdistinct).
      apply (@drained_nonces _ SignTx destinationAddress gasPrice _ Hdistinct3).
  - cbn [snd]. split; [exact Hsent3 |].
    rewrite Hp3, <- (app_nil_r (gasTransactions ++ tokenTransactions)).
    apply (@ledger_close _ _ _ _ _ Hledger Hdistinct).
    intros a _. exists 0%nat. reflexivity.
Qed.
End MigrationFacts.

Section SimulationFacts.
Variable Signature : Type.
Variable SignTx : Transaction.t -> Z -> Z -> option Signature.
Variable Node : Type.
Variable SendTransaction :
  Node -> SignedTransaction Signature -> bool * Node.
Variable TransactionByHash :
  Node -> SignedTransaction Signature -> option bool.
Variable Sleep : Node -> Z -> Node.
Variable PendingBalanceAt : Node -> common.Address -> option Z.

(** X17: When simulating, the three phases of [main] only print: whether they
    run to the end or die on a signing error, the node is as it was, and
    nothing was sent, looked up or waited for. *)
Theorem migrate_simulate_prints_only (fuel : nat)
    (destinationAddress : common.Address) (gasPrice : Z)
    (allAccounts : list Account.t) (node : Node)
    (trace : list (event Signature)) :
  let result :=
    snd (migrate SignTx SendTransaction TransactionByHash Sleep
           PendingBalanceAt fuel destinationAddress gasPrice allAccounts true
           node trace) in
  fst result = node
  /\ exists printed, snd result = trace ++ printed /\ printsOnly printed.
Proof.
  unfold migrate.
  destruct (transferGas SignTx fuel gasPrice allAccounts [])
    as [[updatedAccounts gasTransactions] | |];
    try (cbn [fst snd]; split; [reflexivity |];
         exists []; rewrite app_nil_r; split; [reflexivity | constructor]).
  unfold sendTransactions. rewrite sendLoop_simulate.
  destruct (transferTokens SignTx destinationAddress gasPrice updatedAccounts
              []) as [sweptAccounts tokenTransactions].
  rewrite sendLoop_simulate.
  set (notice := if true && (0 <? length tokenTransactions)%nat
                 then [Noticed Signature] else []).
  assert (Hnotice : printsOnly notice).
  { unfold notice. destruct (true && (0 <? length tokenTransactions)%nat);
      repeat constructor. }
  replace (if true && (0 <? length tokenTransactions)%nat
           then ((trace ++ map (@Printed Signature) gasTransactions)
                   ++ map (@Printed Signature) tokenTransactions)
                  ++ [Noticed Signature]
           else (trace ++ map (@Printed Signature) gasTransactions)
                  ++ map (@Printed Signature) tokenTransactions)
    with (trace ++ (map (@Printed Signature) gasTransactions
                      ++ map (@Printed Signature) tokenTransactions ++ notice))
    by (unfold notice;
        destruct (true && (0 <? length tokenTransactions)%nat);
        rewrite <- ?app_assoc, ?app_nil_r; reflexivity).
  assert (Hsofar : printsOnly
                     (map (@Printed Signature) gasTransactions
                        ++ map (@Printed Signature) tokenTransactions
                        ++ notice)).
  { repeat apply printsOnly_app; try apply printsOnly_printed. exact Hnotice. }
  destruct (transferBalances SignTx (PendingBalanceAt node) destinationAddress
              gasPrice sweptAccounts true [])
    as [balanceEmptyingTransactions | |].
  - rewrite sendLoop_simulate. cbn [fst snd]. split; [reflexivity |].
    exists ((map (@Printed Signature) gasTransactions
               ++ map (@Printed Signature) tokenTransactions ++ notice)
              ++ map (@Printed Signature) balanceEmptyingTransactions).
    split; [rewrite <- !app_assoc; reflexivity |].
    apply printsOnly_app; [exact Hsofar | apply printsOnly_printed].
  - cbn [fst snd]. split; [reflexivity |]. eexists. split; [reflexivity |].
    exact Hsofar.
  - cbn [fst snd]. split; [reflexivity |]. eexists. split; [reflexivity |].
    exact Hsofar.
Qed.
End SimulationFacts.

Lemma migrate_uses_consecutive_nonces_witness :
  NoDup (map Account.Address fourAccounts)
  /\ Forall (fun a => 0 <= Account.Nonce a < uint64_modulus) fourAccounts
  /\ let trace :=
       snd (snd (migrate alwaysSigns acceptsAll neverPending sleeps
                   noPendingBalance 20 (exampleAddress 9) 1 fourAccounts
                   false tt [])) in
     sentOf trace = map (@SignedTx unit) (printedOf trace)
     /\ forall account, In account fourAccounts ->
          exists count,
            noncesOf (Account.Address account) (printedOf trace)
            = consecutiveNonces (Account.Nonce account) count.
Proof.
  assert (H0 : NoDup (map Account.Address fourAccounts)).
  { repeat (constructor; [vm_compute; intuition discriminate |]).
    constructor. }
  assert (H1 : Forall (fun a => 0 <= Account.Nonce a < uint64_modulus)
                 fourAccounts)
    by (repeat constructor; vm_compute; discriminate).
  split; [exact H0 |]. split; [exact H1 |].
  exact (@migrate_uses_consecutive_nonces unit alwaysSigns unit acceptsAll
           neverPending sleeps noPendingBalance 20 (exampleAddress 9) 1
           fourAccounts false tt H0 H1).
Defined.

(** ** Token discovery *)

Lemma sameAddress_true (a b : common.Address) :
  sameAddress a b = true -> a = b.
Proof. unfold sameAddress. destruct (list_eq_dec _ a b); congruence. Qed.

Lemma mapStore_keys (V : Type) (key : common.Address) (value : V)
    (m : list (common.Address * V)) :
  (forall c, In c (map fst (mapStore key value m))
             <-> c = key \/ In c (map fst m))
  /\ (NoDup (map fst m) -> NoDup (map fst (mapStore key value m))).
Proof.
  induction m as [| [k v] rest [IHin IHnodup]]; simpl.
  - split.
    + intros c. split; [intros [<- | []]; left; reflexivity
                       | intros [-> | []]; left; reflexivity].
    + intros _. constructor; [intros [] | constructor].
  - destruct (sameAddress k key) eqn:Hsame; simpl.
    + apply sameAddress_true in Hsame. subst k. split.
      * intros c. split; [intros [<- | Hin]; auto | intros [-> | [<- | Hin]]; auto].
      * intros H. exact H.
    + split.
      * intros c. rewrite IHin. split.
        -- intros [<- | [-> | Hin]]; auto.
        -- intros [-> | [<- | Hin]]; auto.
      * intros Hnodup. inversion Hnodup as [| ? ? Hnotin Hrest]; subst.
        constructor; [| apply IHnodup; exact Hrest].
        rewrite IHin. intros [-> | Hin]; [| contradiction].
        rewrite sameAddress_refl in Hsame. discriminate.
Qed.

Lemma mapStore_entries (V : Type) (P : common.Address * V -> Prop)
    (key : common.Address) (value : V) (m : list (common.Address * V)) :
  P (key, value) -> Forall P m -> Forall P (mapStore key value m).
Proof.
  intros Hnew. induction 1 as [| [k v] rest Hhead Hrest IH]; simpl.
  - constructor; [exact Hnew | constructor].
  - destruct (sameAddress k key) eqn:Hsame.
    + apply sameAddress_true in Hsame. subst k.
      constructor; [exact Hnew | exact Hrest].
    + constructor; [exact Hhead | exact IH].
Qed.

Lemma HashString_length (h : list byte) :
  length (HashString h) = (2 + 2 * length h)%nat.
Proof.
  unfold HashString. rewrite length_app. simpl length at 1. f_equal.
  induction h as [| b h IH]; simpl; [reflexivity |]. rewrite IH. lia.
Qed.

Lemma AddressHashBytes_length (a : common.Address) :
  length (AddressHashBytes a) = 32%nat.
Proof.
  unfold AddressHashBytes, BytesToHash, common.HashLength.
  rewrite length_app, repeat_length, length_skipn. lia.
Qed.

(** X19: The gas estimate is never asked for the call that will be sent: the
    data handed to [EstimateGas] holds the holder's address as the 66
    characters of a hex string where the data of a transfer holds the
    destination as a 32-byte word, so it is 34 bytes longer than the data
    [transferTokens] builds for the same amount, whatever the addresses. *)
Theorem estimate_data_is_no_transfer (holder destinationAddress : common.Address)
    (bal : Z) :
  length (estimateData holder bal)
  = (length (transferData destinationAddress bal) + 34)%nat
  /\ estimateData holder bal <> transferData destinationAddress bal.
Proof.
  assert (Hlen : length (estimateData holder bal)
                 = (length (transferData destinationAddress bal) + 34)%nat).
  { unfold estimateData, transferData.
    rewrite !length_app, HashString_length, !AddressHashBytes_length. lia. }
  split; [exact Hlen |].
  intros Heq. rewrite Heq in Hlen. lia.
Qed.

Lemma int64_of_uint64_wrap (n : Z) :
  - 2 ^ 63 <= n < 2 ^ 63 ->
  int64_of_uint64 (n mod uint64_modulus) = n.
Proof.
  intros Hrange. unfold int64_of_uint64, uint64_modulus.
  destruct (Z_lt_dec n 0) as [Hneg | Hpos].
  - replace (n mod 2 ^ 64) with (n + 2 ^ 64)
      by (apply Z.mod_unique with (q := -1); lia).
    destruct (Z.ltb_spec (n + 2 ^ 64) (2 ^ 63)); lia.
  - rewrite Z.mod_small by lia.
    destruct (Z.ltb_spec n (2 ^ 63)); lia.
Qed.

Lemma int64_of_uint64_range (u : Z) :
  0 <= u < uint64_modulus -> - 2 ^ 63 <= int64_of_uint64 u < 2 ^ 63.
Proof.
  unfold int64_of_uint64, uint64_modulus. intros Hu.
  destruct (Z.ltb_spec u (2 ^ 63)); lia.
Qed.

Lemma inflated_range (gasLimit : Z) :
  - 2 ^ 63 <= RPC.inflated gasLimit < 2 ^ 63.
Proof.
  unfold RPC.inflated, RPC.int64_of_float64.
  destruct (Prim2SF _) as [ | | | s m e];
    try (split; [apply Z.opp_nonpos_nonneg; apply Z.pow_nonneg; lia
                | apply Z.pow_pos_nonneg; lia]).
  apply int64_of_uint64_range. apply Z.mod_pos_bound. reflexivity.
Qed.

(** X20: The gas budget and the fee agree on every recorded token: for an
    override that is an [int64], the token [recordToken] records costs, at
    any gas price, exactly the gas price times what the account's
    [TotalAssetTransfer] grew by, although the gas goes through [uint64]
    in the token and back through [int64] in [TotalTransferPrice]. *)
Theorem recordToken_budget_is_fee (account : Account.t)
    (contract : common.Address) (symbol : string) (decimals bal : Z)
    (estimate : option Z) (overrideGasLimit gasPrice : Z) :
  - 2 ^ 63 <= overrideGasLimit < 2 ^ 63 ->
  let '(account', token) :=
    RPC.recordToken account contract symbol decimals bal estimate
      overrideGasLimit in
  Token.TotalTransferPrice token gasPrice
  = Account.TotalAssetTransferPrice account' gasPrice
    - Account.TotalAssetTransferPrice account gasPrice.
Proof.
  intros Hoverride. unfold RPC.recordToken.
  unfold Token.TotalTransferPrice, Account.TotalAssetTransferPrice.
  cbn [Token.GasLimit Account.TotalAssetTransfer].
  assert (Hgas : - 2 ^ 63
                 <= RPC.tokenTransferGas estimate overrideGasLimit < 2 ^ 63).
  { unfold RPC.tokenTransferGas.
    destruct (_ >? 0); [exact Hoverride | apply inflated_range]. }
  rewrite (int64_of_uint64_wrap Hgas). ring.
Qed.

Section DiscoveryFacts.
Variable FilterLogs : common.Address -> option (list common.Address).
Variable NewToken : common.Address -> bool.
Variable BalanceOf : common.Address -> common.Address -> option (option Z).
Variable Symbol : common.Address -> option string.
Variable Decimals : common.Address -> option Z.
Variable EstimateGas : common.Address -> list byte -> option Z.
Variable rangeOrder :
  nat -> list (common.Address * Token.t) -> list (common.Address * Token.t).

Lemma scanLog_step (overrideGasLimit : Z) (account : Account.t)
    (tokens : list (common.Address * Token.t)) (contract : common.Address) :
  let st' := scanLog NewToken BalanceOf Symbol Decimals EstimateGas
               overrideGasLimit (account, tokens) contract in
  discoveryFrame (fst st') = discoveryFrame account
  /\ Account.Tokens (fst st') = Account.Tokens account
  /\ Account.TotalAssetTransfer (fst st')
     = Account.TotalAssetTransfer account
       + entryGas NewToken BalanceOf EstimateGas overrideGasLimit
           (Account.Address account) contract
  /\ (if qualifies NewToken BalanceOf (Account.Address account) contract
      then exists token,
             snd st' = mapStore contract token tokens
             /\ recorded NewToken BalanceOf EstimateGas overrideGasLimit
                  (Account.Address account) (contract, token)
      else snd st' = tokens).
Proof.
  unfold scanLog, entryGas, qualifies, recorded.
  destruct (BalanceOf contract (Account.Address account)) as [[bal |] |] eqn:Hbal;
    destruct (NewToken contract) eqn:Hnew; cbn [andb fst snd];
    try (repeat split; lia).
  destruct (bal =? 0) eqn:Hzero; cbn [negb fst snd];
    [repeat split; lia |].
  unfold RPC.recordToken. cbn [fst snd]. repeat split.
  eexists. split; [reflexivity |].
  cbn [fst snd Token.Contract Token.Balance Token.GasLimit].
  unfold entryGas. rewrite Hbal, Hnew, Hzero. repeat split.
Qed.

Lemma scan_fold (overrideGasLimit : Z) (logs : list common.Address) :
  forall (account : Account.t) (tokens : list (common.Address * Token.t)),
    let holder := Account.Address account in
    let st' := fold_left
                 (scanLog NewToken BalanceOf Symbol Decimals EstimateGas
                    overrideGasLimit) logs (account, tokens) in
    discoveryFrame (fst st') = discoveryFrame account
    /\ Account.Tokens (fst st') = Account.Tokens account
    /\ Account.TotalAssetTransfer (fst st')
       = Account.TotalAssetTransfer account
         + sumOf (entryGas NewToken BalanceOf EstimateGas overrideGasLimit
                    holder) logs
    /\ (forall c, In c (map fst (snd st'))
                  <-> In c (map fst tokens)
                      \/ (In c logs
                          /\ qualifies NewToken BalanceOf holder c = true))
    /\ (NoDup (map fst tokens) -> NoDup (map fst (snd st')))
    /\ (Forall (recorded NewToken BalanceOf EstimateGas overrideGasLimit holder)
          tokens ->
        Forall (recorded NewToken BalanceOf EstimateGas overrideGasLimit holder)
          (snd st')).
Proof.
  induction logs as [| contract rest IH]; intros account tokens holder st'.
  - subst st'. simpl. repeat split; try lia; try tauto.
  - subst st'. cbn [fold_left].
    pose proof (scanLog_step overrideGasLimit account tokens contract) as Hstep.
    cbn zeta in Hstep.
    destruct (scanLog NewToken BalanceOf Symbol Decimals EstimateGas
                overrideGasLimit (account, tokens) contract)
      as [account1 tokens1].
    cbn [fst snd] in Hstep.
    destruct Hstep as (Hframe1 & Htokens1 & Hgas1 & Hmap1).
    assert (Haddr : Account.Address account1 = Account.Address account).
    { unfold discoveryFrame in Hframe1. congruence. }
    specialize (IH account1 tokens1). cbn zeta in IH. rewrite Haddr in IH.
    destruct IH as (Hframe & Htokens & Hgas & Hkeys & Hnodup & Hrecorded).
    fold holder in Hmap1, Hgas1, Hkeys, Hnodup, Hrecorded, Hgas |- *.
    split; [congruence |]. split; [congruence |].
    split; [rewrite Hgas, Hgas1; simpl; lia |].
    destruct (qualifies NewToken BalanceOf holder contract) eqn:Hq.
    + destruct Hmap1 as (token & -> & Hrec).
      destruct (mapStore_keys contract token tokens) as (Hin1 & Hnodup1).
      split; [| split].
      * intros c. rewrite Hkeys, Hin1. simpl.
        intuition (subst; auto).
      * intros H. apply Hnodup, Hnodup1, H.
      * intros H. apply Hrecorded.
        apply mapStore_entries; [exact Hrec | exact H].
    + subst tokens1. split; [| split; assumption].
      intros c. rewrite Hkeys. simpl.
      intuition (subst; try congruence; auto).
Qed.

(** X21: The gas budget counts log entries, the token list counts contracts.
    For an account that has no tokens yet and is kept, [TotalAssetTransfer]
    has grown by the gas of every log entry that shows a token with a
    balance, so a contract found in several entries is counted that many
    times, while [Tokens] holds one token for each such contract, with
    the balance the contract reports; every other field is untouched. *)
Theorem discover_counts_every_log_entry (overrideGasLimit : Z) (x : nat)
    (account account' : Account.t) :
  (forall tokens, Permutation (rangeOrder x tokens) tokens) ->
  Account.Tokens account = [] ->
  discover FilterLogs NewToken BalanceOf Symbol Decimals EstimateGas
    rangeOrder overrideGasLimit x account = Some account' ->
  let holder := Account.Address account in
  exists logs,
    FilterLogs holder = Some logs
    /\ discoveryFrame account' = discoveryFrame account
    /\ Account.TotalAssetTransfer account'
       = Account.TotalAssetTransfer account
         + sumOf (entryGas NewToken BalanceOf EstimateGas overrideGasLimit
                    holder) logs
    /\ NoDup (map Token.Contract (Account.Tokens account'))
    /\ (forall c, In c (map Token.Contract (Account.Tokens account'))
                  <-> In c logs
                      /\ qualifies NewToken BalanceOf holder c = true)
    /\ Forall (fun t =>
                 BalanceOf (Token.Contract t) holder
                 = Some (Some (Token.Balance t))
                 /\ Token.GasLimit t
                    = entryGas NewToken BalanceOf EstimateGas overrideGasLimit
                        holder (Token.Contract t) mod uint64_modulus)
         (Account.Tokens account').
Proof.
  intros Horder Hfresh Hrun holder. unfold discover in Hrun.
  fold holder in Hrun.
  destruct (FilterLogs holder) as [[| entry logs] |] eqn:Hlogs;
    try discriminate.
  exists (entry :: logs). split; [reflexivity |].
  destruct (scan_fold overrideGasLimit (entry :: logs) account [])
    as (Hframe & Htokens & Hgas & Hkeys & Hnodup & Hrecorded).
  fold holder in Hgas, Hkeys, Hrecorded.
  destruct (fold_left _ (entry :: logs) (account, []))
    as [scanned tokens] eqn:Hscan.
  cbn [fst snd] in *.
  specialize (Hnodup (NoDup_nil _)). specialize (Hrecorded (Forall_nil _)).
  assert (Hcontracts : map Token.Contract (map snd tokens) = map fst tokens).
  { rewrite map_map. apply map_ext_in. intros e He.
    rewrite Forall_forall in Hrecorded. apply (Hrecorded e He). }
  assert (Hperm : Permutation (map snd (rangeOrder x tokens)) (map snd tokens))
    by (apply Permutation_map, Horder).
  assert (Hfacts :
            let tokens' := map snd (rangeOrder x tokens) in
            NoDup (map Token.Contract tokens')
            /\ (forall c, In c (map Token.Contract tokens')
                          <-> In c (entry :: logs)
                              /\ qualifies NewToken BalanceOf holder c = true)
            /\ Forall (fun t =>
                         BalanceOf (Token.Contract t) holder
                         = Some (Some (Token.Balance t))
                         /\ Token.GasLimit t
                            = entryGas NewToken BalanceOf EstimateGas
                                overrideGasLimit holder (Token.Contract t)
                              mod uint64_modulus)
                 (map snd (rangeOrder x tokens))).
  { cbn zeta. split; [| split].
    - eapply Permutation_NoDup;
        [apply Permutation_sym, Permutation_map, Hperm |].
      rewrite Hcontracts. exact Hnodup.
    - intros c. split.
      + intros Hin.
        assert (Hin' : In c (map fst tokens)).
        { rewrite <- Hcontracts.
          eapply Permutation_in; [apply Permutation_map, Hperm | exact Hin]. }
        apply Hkeys in Hin'. destruct Hin' as [[] | Hin']. exact Hin'.
      + intros Hin.
        eapply Permutation_in;
          [apply Permutation_sym, Permutation_map, Hperm |].
        rewrite Hcontracts. apply Hkeys. right. exact Hin.
    - eapply Permutation_Forall; [apply Permutation_sym, Hperm |].
      apply Forall_forall. intros t Ht.
      apply in_map_iff in Ht. destruct Ht as (e & <- & He).
      rewrite Forall_forall in Hrecorded.
      destruct (Hrecorded e He) as (Hc & Hb & Hg).
      rewrite Hc. split; assumption. }
  cbn zeta in Hfacts. destruct Hfacts as (Hf1 & Hf2 & Hf3).
  destruct (0 <? length tokens)%nat eqn:Hsome.
  - destruct ((0 <? length (Account.Tokens (Account.set_Tokens scanned _)))%nat
              || negb (Account.Balance (Account.set_Tokens scanned _) =? 0));
      [| discriminate].
    injection Hrun as <-.
    cbn [Account.set_Tokens Account.Tokens Account.TotalAssetTransfer].
    rewrite Htokens, Hfresh. cbn [app].
    split; [exact Hframe |]. split; [exact Hgas |].
    split; [exact Hf1 |]. split; [exact Hf2 | exact Hf3].
  - destruct ((0 <? length (Account.Tokens scanned))%nat
              || negb (Account.Balance scanned =? 0)); [| discriminate].
    injection Hrun as <-.
    assert (Hempty : tokens = []).
    { destruct tokens; [reflexivity | discriminate]. }
    subst tokens. rewrite Htokens, Hfresh.
    split; [exact Hframe |]. split; [exact Hgas |].
    split; [constructor |]. split; [| constructor].
    intros c. split; [intros [] |].
    intros Hin. apply (Hkeys c). right. exact Hin.
Qed.

Lemma discover_needs_logs (overrideGasLimit : Z) (x : nat)
    (account account' : Account.t) :
  discover FilterLogs NewToken BalanceOf Symbol Decimals EstimateGas
    rangeOrder overrideGasLimit x account = Some account' ->
  discoveryFrame account' = discoveryFrame account
  /\ exists entry logs,
       FilterLogs (Account.Address account) = Some (entry :: logs).
Proof.
  unfold discover. intros Hrun.
  destruct (FilterLogs (Account.Address account)) as [[| entry logs] |];
    try discriminate.
  split; [| exists entry, logs; reflexivity].
  destruct (scan_fold overrideGasLimit (entry :: logs) account [])
    as (Hframe & _).
  destruct (fold_left _ (entry :: logs) (account, []))
    as [scanned tokens].
  cbn [fst] in Hframe.
  destruct (0 <? length tokens)%nat;
    match type of Hrun with
    | (if ?c then _ else _) = _ => destruct c; [| discriminate]
    end;
    injection Hrun as <-; exact Hframe.
Qed.

(** X22: [getTokenTransfers] keeps an account only if its address has at least
    one token transfer log.  Every account it returns is one it was given,
    with keys, address, balance, nonce and chain id unchanged; an account
    whose log query fails or finds nothing is left out whatever its
    balance, so the later phases never see its ether; and accounts with
    pairwise different addresses stay so. *)
Theorem getTokenTransfers_needs_logs (accounts : list Account.t)
    (overrideGasLimit : Z) :
  let result :=
    getTokenTransfers FilterLogs NewToken BalanceOf Symbol Decimals
      EstimateGas rangeOrder accounts overrideGasLimit in
  (forall account', In account' result ->
     exists account entry logs,
       In account accounts
       /\ discoveryFrame account' = discoveryFrame account
       /\ FilterLogs (Account.Address account) = Some (entry :: logs))
  /\ (forall account, In account accounts ->
        FilterLogs (Account.Address account) = None
        \/ FilterLogs (Account.Address account) = Some [] ->
        ~ In (Account.Address account) (map Account.Address result))
  /\ (NoDup (map Account.Address accounts) ->
      NoDup (map Account.Address result)).
Proof.
  unfold getTokenTransfers. generalize 0%nat.
  assert (Hkept : forall (x : nat) account',
             In account' (discoverFrom FilterLogs NewToken BalanceOf Symbol
                            Decimals EstimateGas rangeOrder overrideGasLimit
                            x accounts) ->
             exists account entry logs,
               In account accounts
               /\ discoveryFrame account' = discoveryFrame account
               /\ FilterLogs (Account.Address account)
                  = Some (entry :: logs)).
  { induction accounts as [| account rest IH]; intros x account' Hin;
      [contradiction |].
    cbn [discoverFrom] in Hin.
    destruct (discover FilterLogs NewToken BalanceOf Symbol Decimals
                EstimateGas rangeOrder overrideGasLimit x account)
      as [kept |] eqn:Hone.
    - destruct Hin as [<- | Hin].
      + destruct (discover_needs_logs _ _ _ Hone)
          as (Hframe & entry & logs & Hlogs).
        exists account, entry, logs.
        split; [left; reflexivity |]. split; assumption.
      + destruct (IH (S x) account' Hin)
          as (a & entry & logs & Ha & Hframe & Hlogs).
        exists a, entry, logs. split; [right; exact Ha |]. split; assumption.
    - destruct (IH (S x) account' Hin)
        as (a & entry & logs & Ha & Hframe & Hlogs).
      exists a, entry, logs. split; [right; exact Ha |]. split; assumption. }
  assert (Haddress : forall a a' : Account.t,
             discoveryFrame a' = discoveryFrame a ->
             Account.Address a' = Account.Address a).
  { intros a a' Hframe. unfold discoveryFrame in Hframe. congruence. }
  intros x. split; [apply Hkept |]. split.
  - intros account Hin Hnone Hfound.
    apply in_map_iff in Hfound. destruct Hfound as (account' & Haddr & Hin').
    destruct (Hkept x account' Hin')
      as (a & entry & logs & _ & Hframe & Hlogs).
    rewrite <- (Haddress _ _ Hframe), Haddr in Hlogs.
    destruct Hnone as [Hnone | Hnone]; congruence.
  - clear Hkept. revert x.
    induction accounts as [| account rest IH]; intros x Hnodup;
      [constructor |].
    cbn [discoverFrom]. simpl in Hnodup.
    inversion Hnodup as [| ? ? Hnotin Hrest]; subst.
    assert (Hsub : forall y address,
               In address
                 (map Account.Address
                    (discoverFrom FilterLogs NewToken BalanceOf Symbol
                       Decimals EstimateGas rangeOrder overrideGasLimit y rest)) ->
               In address (map Account.Address rest)).
    { clear IH Hnodup Hnotin Hrest.
      induction rest as [| r rest IHrest]; intros y address Hin;
        [contradiction |].
      cbn [discoverFrom] in Hin.
      destruct (discover FilterLogs NewToken BalanceOf Symbol Decimals
                  EstimateGas rangeOrder overrideGasLimit y r)
        as [kept |] eqn:Hone.
      - destruct Hin as [<- | Hin].
        + left. symmetry. apply Haddress.
          apply (discover_needs_logs _ _ _ Hone).
        + right. apply (IHrest (S y)). exact Hin.
      - right. apply (IHrest (S y)). exact Hin. }
    destruct (discover FilterLogs NewToken BalanceOf Symbol Decimals
                EstimateGas rangeOrder overrideGasLimit x account)
      as [kept |] eqn:Hone.
    + simpl. constructor; [| apply IH; exact Hrest].
      rewrite (Haddress _ _ (proj1 (discover_needs_logs _ _ _ Hone))).
      intros Hin. apply Hnotin. apply (Hsub (S x)). exact Hin.
    + apply IH. exact Hrest.
Qed.
End DiscoveryFacts.

Lemma estimate_data_example :
  length (estimateData (exampleAddress 1) 10) = 102%nat
  /\ length (transferData (exampleAddress 9) 10) = 68%nat.
Proof. split; vm_compute; reflexivity. Qed.

Lemma recordToken_budget_is_fee_witness :
  - 2 ^ 63 <= 100000 < 2 ^ 63
  /\ Token.TotalTransferPrice
       (snd (RPC.recordToken etherOnlyAccount exampleContract "???" 0 10 None
               100000)) 3
     = Account.TotalAssetTransferPrice
         (fst (RPC.recordToken etherOnlyAccount exampleContract "???" 0 10 None
                 100000)) 3
       - Account.TotalAssetTransferPrice etherOnlyAccount 3.
Proof.
  assert (H : - 2 ^ 63 <= 100000 < 2 ^ 63)
    by (split; [vm_compute; discriminate | reflexivity]).
  split; [exact H |].
  exact (@recordToken_budget_is_fee etherOnlyAccount exampleContract "???" 0 10
           None 100000 3 H).
Defined.

Lemma discover_counts_every_log_entry_witness :
  (forall tokens, Permutation (insertionOrder 0 tokens) tokens)
  /\ Account.Tokens etherOnlyAccount = []
  /\ discover twoLogsOfOneContract bindsAll holdsTen noSymbol noDecimals
       noEstimate insertionOrder 100000 0 etherOnlyAccount
     = Some doubleCounted
  /\ Account.TotalAssetTransfer doubleCounted
     = Account.TotalAssetTransfer etherOnlyAccount
       + sumOf (entryGas bindsAll holdsTen noEstimate 100000
                  (Account.Address etherOnlyAccount))
           [exampleContract; exampleContract]
  /\ NoDup (map Token.Contract (Account.Tokens doubleCounted)).
Proof.
  assert (H0 : forall tokens, Permutation (insertionOrder 0 tokens) tokens)
    by (intros tokens; apply Permutation_refl).
  assert (H1 : Account.Tokens etherOnlyAccount = []) by reflexivity.
  assert (H2 : discover twoLogsOfOneContract bindsAll holdsTen noSymbol
                 noDecimals noEstimate insertionOrder 100000 0 etherOnlyAccount
               = Some doubleCounted) by (vm_compute; reflexivity).
  split; [exact H0 |]. split; [exact H1 |]. split; [exact H2 |].
  destruct (@discover_counts_every_log_entry twoLogsOfOneContract bindsAll
              holdsTen noSymbol noDecimals noEstimate insertionOrder 100000 0
              etherOnlyAccount doubleCounted H0 H1 H2)
    as (logs & Hlogs & _ & Hgas & Hnodup & _).
  injection Hlogs as <-. split; [exact Hgas | exact Hnodup].
Defined.

Lemma getTokenTransfers_needs_logs_witness :
  In etherOnlyAccount [etherOnlyAccount]
  /\ (noLogs (Account.Address etherOnlyAccount) = None
      \/ noLogs (Account.Address etherOnlyAccount) = Some [])
  /\ ~ In (Account.Address etherOnlyAccount)
         (map Account.Address
            (getTokenTransfers noLogs bindsAll holdsTen noSymbol noDecimals
               noEstimate insertionOrder [etherOnlyAccount] 100000)).
Proof.
  assert (H0 : In etherOnlyAccount [etherOnlyAccount]) by (left; reflexivity).
  assert (H1 : noLogs (Account.Address etherOnlyAccount) = None
               \/ noLogs (Account.Address etherOnlyAccount) = Some [])
    by (right; reflexivity).
  split; [exact H0 |]. split; [exact H1 |].
  exact (proj1 (proj2 (@getTokenTransfers_needs_logs noLogs bindsAll holdsTen
                         noSymbol noDecimals noEstimate insertionOrder
                         [etherOnlyAccount] 100000))
           etherOnlyAccount H0 H1).
Defined.

(** ** Deriving the accounts *)

Lemma mapStore_in (V : Type) (key : common.Address) (value : V)
    (m : list (common.Address * V)) (entry : common.Address * V) :
  In entry (mapStore key value m) -> entry = (key, value) \/ In entry m.
Proof.
  induction m as [| [k v] rest IH]; simpl.
  - intros [<- | []]. left. reflexivity.
  - destruct (sameAddress k key) eqn:Hsame.
    + apply sameAddress_true in Hsame. subst k.
      intros [<- | Hin]; [left; reflexivity | right; right; exact Hin].
    + intros [<- | Hin]; [right; left; reflexivity |].
      destruct (IH Hin) as [-> | Hin']; [left; reflexivity | right; right; exact Hin'].
Qed.

Section DerivationFacts.
Variable ExtendedKey : Type.
Variable IsMnemonicValid : string -> bool.
Variable NewSeedWithErrorChecking : string -> string -> option (list byte).
Variable NewMaster : list byte -> option ExtendedKey.
Variable ParseDerivationPath : Z -> Z -> Z -> option (list Z).
Variable Child : ExtendedKey -> Z -> option ExtendedKey.
Variable ECPrivKey : ExtendedKey -> option Z.
Variable HexToECDSA : string -> option Z.
Variable Public : Z -> Z.
Variable PubkeyToAddress : Z -> common.Address.
Variable rangeOrder :
  list (common.Address * Account.t) -> list (common.Address * Account.t).

Let derive := deriveAccount ParseDerivationPath Child ECPrivKey Public
                PubkeyToAddress.

Lemma forAddressIndex_spec (masterKey : ExtendedKey) (change : Z)
    (remaining : nat) :
  forall (addressIndex : Z) (allAccounts : list Account.t),
    match forAddressIndex ParseDerivationPath Child ECPrivKey Public
            PubkeyToAddress masterKey change addressIndex remaining
            allAccounts with
    | Some allAccounts' =>
        exists derived,
          allAccounts' = allAccounts ++ derived
          /\ length derived = remaining
          /\ forall j, (j < remaining)%nat ->
               nth_error derived j
               = derive masterKey 0 change (addressIndex + Z.of_nat j)
    | None =>
        exists j, (j < remaining)%nat
                  /\ derive masterKey 0 change (addressIndex + Z.of_nat j)
                     = None
    end.
Proof.
  induction remaining as [| remaining IH]; intros addressIndex allAccounts;
    cbn [forAddressIndex].
  - exists []. rewrite app_nil_r. split; [reflexivity |].
    split; [reflexivity |]. intros j Hj. lia.
  - fold derive.
    destruct (derive masterKey 0 change addressIndex) as [account |] eqn:Hone.
    + specialize (IH (addressIndex + 1) (allAccounts ++ [account])).
      destruct (forAddressIndex _ _ _ _ _ masterKey change (addressIndex + 1)
                  remaining (allAccounts ++ [account]))
        as [allAccounts' |].
      * destruct IH as (derived & -> & Hlen & Hnth).
        exists (account :: derived).
        split; [rewrite <- app_assoc; reflexivity |].
        split; [simpl; rewrite Hlen; reflexivity |].
        intros [| j] Hj.
        -- simpl. rewrite Z.add_0_r. symmetry. exact Hone.
        -- simpl nth_error. rewrite (Hnth j) by lia. f_equal. lia.
      * destruct IH as (j & Hj & Hnone).
        exists (S j). split; [lia |].
        rewrite <- Hnone. f_equal. lia.
    + exists 0%nat. split; [lia |]. rewrite Z.add_0_r. exact Hone.
Qed.

Lemma forChange_spec (masterKey : ExtendedKey) (numberOfAccounts : Z)
    (remaining : nat) :
  forall (change : Z) (allAccounts : list Account.t),
    let n := Z.to_nat numberOfAccounts in
    match forChange ParseDerivationPath Child ECPrivKey Public
            PubkeyToAddress masterKey numberOfAccounts change remaining
            allAccounts with
    | Some allAccounts' =>
        exists derived,
          allAccounts' = allAccounts ++ derived
          /\ length derived = (remaining * n)%nat
          /\ forall k j, (k < remaining)%nat -> (j < n)%nat ->
               nth_error derived (k * n + j)
               = derive masterKey 0 (change + Z.of_nat k) (Z.of_nat j)
    | None =>
        exists k j, (k < remaining)%nat /\ (j < n)%nat
                    /\ derive masterKey 0 (change + Z.of_nat k) (Z.of_nat j)
                       = None
    end.
Proof.
  induction remaining as [| remaining IH]; intros change allAccounts n;
    cbn [forChange].
  - exists []. rewrite app_nil_r. split; [reflexivity |].
    split; [reflexivity |]. intros k j Hk. lia.
  - pose proof (forAddressIndex_spec masterKey change n 0 allAccounts)
      as Hinner.
    fold n.
    destruct (forAddressIndex _ _ _ _ _ masterKey change 0 n allAccounts)
      as [allAccounts1 |].
    + destruct Hinner as (derived1 & -> & Hlen1 & Hnth1).
      specialize (IH (change + 1) (allAccounts ++ derived1)).
      cbn zeta in IH. fold n in IH.
      destruct (forChange _ _ _ _ _ masterKey numberOfAccounts (change + 1)
                  remaining (allAccounts ++ derived1)) as [allAccounts' |].
      * destruct IH as (derived2 & -> & Hlen2 & Hnth2).
        exists (derived1 ++ derived2).
        split; [rewrite <- app_assoc; reflexivity |].
        split; [rewrite length_app, Hlen1, Hlen2; simpl; reflexivity |].
        intros [| k] j Hk Hj.
        -- simpl. rewrite nth_error_app1 by lia.
           rewrite (Hnth1 j Hj), Z.add_0_r. reflexivity.
        -- rewrite nth_error_app2 by (rewrite Hlen1; simpl; lia).
           replace (S k * n + j - length derived1)%nat with (k * n + j)%nat
             by (rewrite Hlen1; simpl; lia).
           rewrite (Hnth2 k j) by lia. f_equal. lia.
      * destruct IH as (k & j & Hk & Hj & Hnone).
        exists (S k), j. split; [lia |]. split; [exact Hj |].
        rewrite <- Hnone. f_equal. lia.
    + destruct Hinner as (j & Hj & Hnone).
      exists 0%nat, j. split; [lia |]. split; [exact Hj |].
      rewrite Z.add_0_r. exact Hnone.
Qed.

Lemma derive_fresh (masterKey : ExtendedKey) (account change index : Z)
    (derived : Account.t) :
  derive masterKey account change index = Some derived ->
  exists privateKey,
    derived = newAccount privateKey (Public privateKey)
                (PubkeyToAddress (Public privateKey)).
Proof.
  unfold derive, deriveAccount, derivePublicKey, deriveAddress.
  destruct (ParseDerivationPath account change index) as [dPath |];
    [| discriminate].
  destruct (derivePrivateKey Child ECPrivKey masterKey dPath)
    as [privateKey |]; [| discriminate].
  intros Hsome. injection Hsome as <-. exists privateKey. reflexivity.
Qed.

(** X23: For a mnemonic that passes the checks, [accountsFromMnemonic] returns
    the square of [numberOfAccounts] accounts or none at all: the account
    at position change * n + index is the one derived along the path of
    that change and index, with no tokens, balance 0 and the address of
    its key; and it returns an error exactly when a check fails or one of
    the n * n derivations does. *)
Theorem accountsFromMnemonic_all_or_nothing (mnemonic : string)
    (numberOfAccounts : Z) :
  let n := Z.to_nat numberOfAccounts in
  match accountsFromMnemonic IsMnemonicValid NewSeedWithErrorChecking
          NewMaster ParseDerivationPath Child ECPrivKey Public PubkeyToAddress
          mnemonic numberOfAccounts with
  | Some accounts =>
      mnemonic <> ""%string
      /\ IsMnemonicValid mnemonic = true
      /\ length accounts = (n * n)%nat
      /\ Forall (fun a => exists privateKey,
                   a = newAccount privateKey (Public privateKey)
                         (PubkeyToAddress (Public privateKey))) accounts
      /\ exists seed masterKey,
           NewSeedWithErrorChecking mnemonic "" = Some seed
           /\ NewMaster seed = Some masterKey
           /\ forall change index, (change < n)%nat -> (index < n)%nat ->
                nth_error accounts (change * n + index)
                = deriveAccount ParseDerivationPath Child ECPrivKey Public
                    PubkeyToAddress masterKey 0 (Z.of_nat change)
                    (Z.of_nat index)
  | None =>
      mnemonic = ""%string
      \/ IsMnemonicValid mnemonic = false
      \/ NewSeedWithErrorChecking mnemonic "" = None
      \/ exists seed,
           NewSeedWithErrorChecking mnemonic "" = Some seed
           /\ (NewMaster seed = None
               \/ exists masterKey change index,
                    NewMaster seed = Some masterKey
                    /\ (change < n)%nat /\ (index < n)%nat
                    /\ deriveAccount ParseDerivationPath Child ECPrivKey Public
                         PubkeyToAddress masterKey 0 (Z.of_nat change)
                         (Z.of_nat index) = None)
  end.
Proof.
  intros n. unfold accountsFromMnemonic.
  destruct (String.eqb_spec mnemonic "") as [-> | Hnonempty];
    [left; reflexivity |].
  destruct (IsMnemonicValid mnemonic) eqn:Hvalid; cbn [negb];
    [| right; left; reflexivity].
  destruct (NewSeedWithErrorChecking mnemonic "") as [seed |] eqn:Hseed;
    [| right; right; left; reflexivity].
  destruct (NewMaster seed) as [masterKey |] eqn:Hmaster;
    [| right; right; right; exists seed; split; [reflexivity | left; exact Hmaster]].
  pose proof (forChange_spec masterKey numberOfAccounts n 0 []) as Hloops.
  cbn zeta in Hloops. fold n in Hloops |- *.
  destruct (forChange _ _ _ _ _ masterKey numberOfAccounts 0 n [])
    as [accounts |].
  - destruct Hloops as (derived & -> & Hlen & Hnth). cbn [app].
    split; [exact Hnonempty |]. split; [reflexivity |].
    split; [exact Hlen |]. split.
    + apply Forall_forall. intros a Hin.
      destruct (In_nth_error _ _ Hin) as [position Hposition].
      assert (Hbound : (position < n * n)%nat)
        by (rewrite <- Hlen; apply nth_error_Some; congruence).
      assert (Hn : (0 < n)%nat) by (destruct n; [simpl in Hbound |]; lia).
      assert (Hsplit : position = (position / n * n + position mod n)%nat)
        by (rewrite Nat.mul_comm; apply Nat.div_mod_eq).
      rewrite Hsplit in Hposition.
      rewrite (Hnth (position / n) (position mod n))%nat in Hposition.
      * apply (derive_fresh _ _ _ _ Hposition).
      * apply Nat.Div0.div_lt_upper_bound. lia.
      * apply Nat.mod_upper_bound. lia.
    + exists seed, masterKey. split; [reflexivity |].
      split; [exact Hmaster |].
      intros change index Hc Hi. exact (Hnth change index Hc Hi).
  - destruct Hloops as (change & index & Hc & Hi & Hnone).
    right. right. right. exists seed. split; [reflexivity |]. right.
    exists masterKey, change, index.
    split; [exact Hmaster |]. split; [exact Hc |]. split; [exact Hi |].
    exact Hnone.
Qed.
End DerivationFacts.

Lemma holdsAccounts_store (stored : list Account.t) (account : Account.t)
    (m : list (common.Address * Account.t)) :
  holdsAccounts stored m ->
  holdsAccounts (stored ++ [account])
    (mapStore (Account.Address account) account m).
Proof.
  intros (Hnodup & Hentries & Hcovered).
  destruct (mapStore_keys (Account.Address account) account m)
    as (Hkeys & Hkeep).
  split; [apply Hkeep, Hnodup |]. split.
  - apply mapStore_entries.
    + split; [reflexivity |]. apply in_or_app. right. left. reflexivity.
    + eapply Forall_impl; [| exact Hentries].
      intros entry (Hkey & Hin). split; [exact Hkey |].
      apply in_or_app. left. exact Hin.
  - intros a Hin. apply Hkeys. apply in_app_or in Hin.
    destruct Hin as [Hin | [<- | []]]; [right; apply Hcovered, Hin |].
    left. reflexivity.
Qed.

Lemma holdsAccounts_storeAccounts (accounts : list Account.t) :
  forall (stored : list Account.t) (m : list (common.Address * Account.t)),
    holdsAccounts stored m ->
    holdsAccounts (stored ++ accounts) (storeAccounts accounts m).
Proof.
  unfold storeAccounts.
  induction accounts as [| account rest IH]; intros stored m Hm; simpl.
  - rewrite app_nil_r. exact Hm.
  - replace (stored ++ account :: rest) with ((stored ++ [account]) ++ rest)
      by (rewrite <- app_assoc; reflexivity).
    apply IH. apply holdsAccounts_store. exact Hm.
Qed.

Lemma Replace0xOnce_without_x (s : string) :
  (forall c, In c (list_ascii_of_string s) -> c <> "x"%char) ->
  Replace0xOnce s = s.
Proof.
  induction s as [| c rest IH]; intros Hnox; [reflexivity |].
  assert (Hrest : Replace0xOnce rest = rest).
  { apply IH. intros c' Hin. apply Hnox. right. exact Hin. }
  cbn [Replace0xOnce]. rewrite Hrest.
  destruct rest as [| c' rest']; [destruct c as [[] [] [] [] [] [] [] []]; reflexivity |].
  assert (Hc' : c' <> "x"%char) by (apply Hnox; right; left; reflexivity).
  destruct c as [[] [] [] [] [] [] [] []]; try reflexivity.
  destruct c' as [[] [] [] [] [] [] [] []]; try reflexivity.
  contradiction Hc'. reflexivity.
Qed.

Section GetAccountsFacts.
Variable ExtendedKey : Type.
Variable IsMnemonicValid : string -> bool.
Variable NewSeedWithErrorChecking : string -> string -> option (list byte).
Variable NewMaster : list byte -> option ExtendedKey.
Variable ParseDerivationPath : Z -> Z -> Z -> option (list Z).
Variable Child : ExtendedKey -> Z -> option ExtendedKey.
Variable ECPrivKey : ExtendedKey -> option Z.
Variable HexToECDSA : string -> option Z.
Variable Public : Z -> Z.
Variable PubkeyToAddress : Z -> common.Address.
Variable rangeOrder :
  list (common.Address * Account.t) -> list (common.Address * Account.t).

Let fromMnemonic (numberOfAccounts : Z) (mnemonic : string) :=
  accountsFromMnemonic IsMnemonicValid NewSeedWithErrorChecking NewMaster
    ParseDerivationPath Child ECPrivKey Public PubkeyToAddress mnemonic
    numberOfAccounts.

Let fromPrivateKey := accountFromPrivateKey HexToECDSA Public PubkeyToAddress.

(** X24: A private key may be given with or without the prefix 0x: for a key
    that holds no character x, and so for every string of hex digits,
    [accountFromPrivateKey] returns the same account, or fails alike,
    either way. *)
Theorem accountFromPrivateKey_prefix_optional (key : string) :
  (forall c, In c (list_ascii_of_string key) -> c <> "x"%char) ->
  accountFromPrivateKey HexToECDSA Public PubkeyToAddress ("0x" ++ key)
  = accountFromPrivateKey HexToECDSA Public PubkeyToAddress key.
Proof.
  intros Hnox. unfold accountFromPrivateKey.
  rewrite (Replace0xOnce_without_x _ Hnox). reflexivity.
Qed.

Lemma forMnemonics_holds (numberOfAccounts : Z) (mnemonics : list string) :
  forall (stored : list Account.t) (m : list (common.Address * Account.t)),
    holdsAccounts stored m ->
    match forMnemonics IsMnemonicValid NewSeedWithErrorChecking NewMaster
            ParseDerivationPath Child ECPrivKey Public PubkeyToAddress
            mnemonics numberOfAccounts m with
    | Returned m' =>
        holdsAccounts
          (stored ++ flat_map (fun mnemonic =>
                                 match fromMnemonic numberOfAccounts mnemonic with
                                 | Some accounts => accounts
                                 | None => []
                                 end) mnemonics) m'
    | Fatal =>
        exists mnemonic,
          In mnemonic mnemonics
          /\ fromMnemonic numberOfAccounts mnemonic = None
    | OutOfFuel => False
    end.
Proof.
  induction mnemonics as [| mnemonic rest IH]; intros stored m Hm;
    cbn [forMnemonics flat_map].
  - rewrite app_nil_r. exact Hm.
  - fold (fromMnemonic numberOfAccounts mnemonic).
    destruct (fromMnemonic numberOfAccounts mnemonic) as [accounts |] eqn:Hone.
    + specialize (IH (stored ++ accounts) (storeAccounts accounts m)
                    (holdsAccounts_storeAccounts accounts Hm)).
      destruct (forMnemonics _ _ _ _ _ _ _ _ rest numberOfAccounts
                  (storeAccounts accounts m)) as [m' | |].
      * rewrite <- app_assoc in IH. exact IH.
      * destruct IH as (culprit & Hin & Hnone).
        exists culprit. split; [right; exact Hin | exact Hnone].
      * exact IH.
    + exists mnemonic. split; [left; reflexivity | exact Hone].
Qed.

Lemma forPrivateKeys_holds (privateKeys : list string) :
  forall (stored : list Account.t) (m : list (common.Address * Account.t)),
    holdsAccounts stored m ->
    match forPrivateKeys HexToECDSA Public PubkeyToAddress privateKeys m with
    | Returned m' =>
        holdsAccounts
          (stored ++ flat_map (fun privateKey =>
                                 match fromPrivateKey privateKey with
                                 | Some account => [account]
                                 | None => []
                                 end) privateKeys) m'
    | Fatal =>
        exists privateKey,
          In privateKey privateKeys /\ fromPrivateKey privateKey = None
    | OutOfFuel => False
    end.
Proof.
  induction privateKeys as [| privateKey rest IH]; intros stored m Hm;
    cbn [forPrivateKeys flat_map].
  - rewrite app_nil_r. exact Hm.
  - fold fromPrivateKey.
    destruct (fromPrivateKey privateKey) as [account |] eqn:Hone.
    + specialize (IH (stored ++ [account])
                    (mapStore (Account.Address account) account m)
                    (holdsAccounts_store account Hm)).
      destruct (forPrivateKeys _ _ _ rest
                  (mapStore (Account.Address account) account m))
        as [m' | |].
      * rewrite <- app_assoc in IH. exact IH.
      * destruct IH as (culprit & Hin & Hnone).
        exists culprit. split; [right; exact Hin | exact Hnone].
      * exact IH.
    + exists privateKey. split; [left; reflexivity | exact Hone].
Qed.

(** X25: [GetAccounts] returns one account for every address it derives: the
    accounts it returns have pairwise different addresses, each is one of
    the accounts derived from the mnemonics and the private keys, and
    every derived address is among them, in whatever order the map is
    visited.  It dies if a mnemonic or a private key cannot be used, and
    only then. *)
Theorem GetAccounts_one_account_per_address (mnemonics privateKeys : list string)
    (numberOfAccounts : Z) :
  (forall m, Permutation (rangeOrder m) m) ->
  match GetAccounts IsMnemonicValid NewSeedWithErrorChecking NewMaster
          ParseDerivationPath Child ECPrivKey HexToECDSA Public
          PubkeyToAddress rangeOrder mnemonics privateKeys numberOfAccounts with
  | Returned accounts =>
      let derived :=
        derivedAccounts (fromMnemonic numberOfAccounts) fromPrivateKey
          mnemonics privateKeys in
      NoDup (map Account.Address accounts)
      /\ (forall a, In a accounts -> In a derived)
      /\ (forall a, In a derived ->
            In (Account.Address a) (map Account.Address accounts))
  | Fatal =>
      (exists mnemonic,
         In mnemonic mnemonics
         /\ fromMnemonic numberOfAccounts mnemonic = None)
      \/ (exists privateKey,
            In privateKey privateKeys /\ fromPrivateKey privateKey = None)
  | OutOfFuel => False
  end.
Proof.
  intros Horder. unfold GetAccounts.
  assert (Hempty : holdsAccounts [] (@nil (common.Address * Account.t))).
  { split; [constructor |]. split; [constructor |]. intros a []. }
  pose proof (forMnemonics_holds numberOfAccounts mnemonics Hempty) as Hfirst.
  destruct (forMnemonics _ _ _ _ _ _ _ _ mnemonics numberOfAccounts [])
    as [m1 | |]; [| left; exact Hfirst | contradiction].
  pose proof (forPrivateKeys_holds privateKeys Hfirst) as Hsecond.
  destruct (forPrivateKeys _ _ _ privateKeys m1) as [m2 | |];
    [| right; exact Hsecond | contradiction].
  cbn [app] in Hsecond. fold (derivedAccounts (fromMnemonic numberOfAccounts)
                                fromPrivateKey mnemonics privateKeys) in Hsecond.
  destruct Hsecond as (Hnodup & Hentries & Hcovered).
  assert (Haddresses : Permutation (map Account.Address (map snd (rangeOrder m2)))
                         (map fst m2)).
  { eapply perm_trans;
      [apply Permutation_map, Permutation_map, Horder |].
    rewrite map_map.
    replace (map (fun entry => Account.Address (snd entry)) m2)
      with (map fst m2); [apply Permutation_refl |].
    apply map_ext_in. intros entry Hin.
    rewrite Forall_forall in Hentries. apply (Hentries entry Hin). }
  cbn zeta. split; [| split].
  - eapply Permutation_NoDup; [apply Permutation_sym, Haddresses | exact Hnodup].
  - intros a Hin. apply in_map_iff in Hin. destruct Hin as (entry & <- & Hin).
    rewrite Forall_forall in Hentries.
    apply (Hentries entry).
    eapply Permutation_in; [apply Horder | exact Hin].
  - intros a Hin.
    eapply Permutation_in; [apply Permutation_sym, Haddresses |].
    apply Hcovered, Hin.
Qed.
End GetAccountsFacts.

Lemma accountsFromMnemonic_all_or_nothing_witness :
  exists accounts,
    accountsFromMnemonic everyMnemonic emptySeed masterZero threeLevels
      decimalChild keyItself samePublic exampleAddress "seed" 2
    = Some accounts
    /\ length accounts = 4%nat
    /\ nth_error accounts 3
       = Some (newAccount 11 11 (exampleAddress 11)).
Proof.
  pose proof (@accountsFromMnemonic_all_or_nothing Z everyMnemonic emptySeed
                masterZero threeLevels decimalChild keyItself samePublic
                exampleAddress "seed" 2) as H.
  cbn zeta in H.
  destruct (accountsFromMnemonic everyMnemonic emptySeed masterZero
              threeLevels decimalChild keyItself samePublic exampleAddress
              "seed" 2) as [accounts |].
  - exists accounts. split; [reflexivity |].
    destruct H as (_ & _ & Hlen & _ & seed & masterKey & Hseed & Hmaster & Hnth).
    split; [exact Hlen |].
    injection Hmaster as <-.
    exact (Hnth 1%nat 1%nat (le_n 2) (le_n 2)).
  - exfalso.
    destruct H as [H | [H | [H | (seed & Hseed & [H | H])]]];
      try discriminate.
    destruct H as (masterKey & change & index & _ & _ & _ & H).
    discriminate.
Defined.

Lemma accountFromPrivateKey_prefix_optional_witness :
  (forall c, In c (list_ascii_of_string "ab12") -> c <> "x"%char)
  /\ accountFromPrivateKey keyOfLength samePublic exampleAddress "0xab12"
     = accountFromPrivateKey keyOfLength samePublic exampleAddress "ab12".
Proof.
  assert (H : forall c, In c (list_ascii_of_string "ab12") -> c <> "x"%char).
  { intros c [<- | [<- | [<- | [<- | []]]]]; discriminate. }
  split; [exact H |].
  exact (@accountFromPrivateKey_prefix_optional keyOfLength samePublic
           exampleAddress "ab12" H).
Defined.

Lemma GetAccounts_one_account_per_address_witness :
  (forall m, Permutation (mapOrder m) m)
  /\ exists accounts,
       GetAccounts everyMnemonic emptySeed masterZero threeLevels decimalChild
         keyItself keyOfLength samePublic exampleAddress mapOrder
         ["seed"%string] ["0xab"%string; "cd"%string] 1
       = Returned accounts
       /\ NoDup (map Account.Address accounts)
       /\ length accounts = 2%nat.
Proof.
  assert (H : forall m, Permutation (mapOrder m) m)
    by (intros m; apply Permutation_refl).
  split; [exact H |].
  pose proof (@GetAccounts_one_account_per_address Z everyMnemonic emptySeed
                masterZero threeLevels decimalChild keyItself keyOfLength
                samePublic exampleAddress mapOrder ["seed"%string]
                ["0xab"%string; "cd"%string] 1 H) as Hget.
  destruct (GetAccounts everyMnemonic emptySeed masterZero threeLevels
              decimalChild keyItself keyOfLength samePublic exampleAddress
              mapOrder ["seed"%string] ["0xab"%string; "cd"%string] 1)
    as [accounts | |] eqn:Hrun.
  - exists accounts. split; [reflexivity |].
    split; [exact (proj1 Hget) |].
    vm_compute in Hrun. injection Hrun as <-. reflexivity.
  - vm_compute in Hrun. discriminate.
  - contradiction.
Defined.

Section PreviewFacts.
Variable Signature : Type.
Variable SignTx : Transaction.t -> Z -> Z -> option Signature.
Variable Node : Type.
Variable SendTransaction :
  Node -> SignedTransaction Signature -> bool * Node.
Variable TransactionByHash :
  Node -> SignedTransaction Signature -> option bool.
Variable Sleep : Node -> Z -> Node.
Variable PendingBalanceAt : Node -> common.Address -> option Z.

(** X26: A simulated run previews the real one up to the balance drain: in
    either mode the run prints the gas transfers and the token sweeps the
    planners return, in that order, before anything of the drain, so the
    two modes can differ in the drain only, which the real run plans on
    the balances the node reports. *)
Theorem migrate_simulation_previews (fuel : nat)
    (destinationAddress : common.Address) (gasPrice : Z)
    (allAccounts : list Account.t) (simulate : bool) (node : Node) :
  exists drain : list (TransactionWithOriginator Signature),
    printedOf
      (snd (snd (migrate SignTx SendTransaction TransactionByHash Sleep
                   PendingBalanceAt fuel destinationAddress gasPrice
                   allAccounts simulate node [])))
    = plannedTransfers SignTx fuel destinationAddress gasPrice allAccounts
        ++ drain
    /\ Forall (fun t =>
                 Transaction.To (Tx (SignedTx t)) = destinationAddress
                 /\ Transaction.Data (Tx (SignedTx t)) = []
                 /\ Transaction.Gas (Tx (SignedTx t)) = transferGasUnits)
         drain.
Proof.
  unfold migrate, plannedTransfers.
  destruct (transferGas SignTx fuel gasPrice allAccounts [])
    as [[updatedAccounts gasTransactions] | |];
    try (exists []; split; [reflexivity | constructor]).
  pose proof (sendTransactions_shows SendTransaction TransactionByHash Sleep
                gasTransactions simulate node []) as Hshow1.
  destruct (sendTransactions SendTransaction TransactionByHash Sleep
              gasTransactions simulate node []) as [node1 trace1].
  cbn [snd] in Hshow1. cbn zeta in Hshow1. destruct Hshow1 as (Hp1 & _).
  simpl in Hp1.
  destruct (transferTokens SignTx destinationAddress gasPrice updatedAccounts
              []) as [sweptAccounts tokenTransactions].
  pose proof (sendTransactions_shows SendTransaction TransactionByHash Sleep
                tokenTransactions simulate node1 trace1) as Hshow2.
  destruct (sendTransactions SendTransaction TransactionByHash Sleep
              tokenTransactions simulate node1 trace1) as [node2 trace2].
  cbn [snd] in Hshow2 |- *. cbn zeta in Hshow2. destruct Hshow2 as (Hp2 & _).
  rewrite Hp1 in Hp2.
  set (trace3 := if simulate && (0 <? length tokenTransactions)%nat
                 then trace2 ++ [Noticed Signature] else trace2).
  assert (Hp3 : printedOf trace3 = gasTransactions ++ tokenTransactions).
  { unfold trace3.
    destruct (simulate && (0 <? length tokenTransactions)%nat);
      [rewrite printedOf_app; simpl; rewrite app_nil_r |]; exact Hp2. }
  clearbody trace3.
  set (drainedAccounts :=
         if simulate then sweptAccounts
         else GetPendingBalances (PendingBalanceAt node2) sweptAccounts).
  pose proof (drain_account_by_account SignTx destinationAddress gasPrice
                drainedAccounts []) as Hdrain.
  unfold transferBalances. fold drainedAccounts.
  destruct (drain SignTx destinationAddress gasPrice drainedAccounts [])
    as [balanceEmptyingTransactions | |];
    try (exists []; cbn [snd]; rewrite app_nil_r;
         split; [exact Hp3 | constructor]).
  simpl in Hdrain.
  pose proof (sendTransactions_shows SendTransaction TransactionByHash Sleep
                balanceEmptyingTransactions simulate node2 trace3) as Hshow3.
  destruct (sendTransactions SendTransaction TransactionByHash Sleep
              balanceEmptyingTransactions simulate node2 trace3)
    as [node3 trace4].
  cbn [snd] in Hshow3 |- *. cbn zeta in Hshow3. destruct Hshow3 as (Hp4 & _).
  exists balanceEmptyingTransactions. split; [rewrite Hp4, Hp3; reflexivity |].
  rewrite Hdrain. apply Forall_flat_map. apply Forall_forall.
  intros account _. unfold drained.
  destruct (getBalanceTx SignTx destinationAddress gasPrice account)
    as [[signedTx |] | |] eqn:Hrun; try constructor; [| constructor].
  cbn [SignedTx].
  clear - Hrun. revert signedTx Hrun.
  funelim (getBalanceTx SignTx destinationAddress gasPrice account);
    intros signedTx Hrun.
  - destruct (SignTx _ _ _) as [sig |]; [| discriminate].
    injection Hrun as <-. repeat split.
  - apply H. exact Hrun.
  - discriminate.
Qed.
End PreviewFacts.

(** ** Redistribution, then sweep *)

Section FundedSweep.
Variable Signature : Type.
Variable SignTx : Transaction.t -> Z -> Z -> option Signature.

Lemma gasRounds_identity (gasPrice : Z) (accounts accounts' : list Account.t)
    (transactions transactions' : list (TransactionWithOriginator Signature)) :
  gasRounds SignTx gasPrice accounts transactions accounts' transactions' ->
  Permutation (map identity accounts) (map identity accounts').
Proof.
  induction 1 as [accounts transactions Hside
                 | accounts transactions negative positive negatives positives
                     sig accounts' transactions' Hsn Hsp Hsig Hrest IH].
  - rewrite identity_refresh. apply Permutation_refl.
  - eapply perm_trans; [apply (@round_identity _ _ _ _ _ _ Hsn Hsp) | exact IH].
Qed.

Lemma budgeted_identity (a b : Account.t) :
  identity a = identity b -> budgeted a -> budgeted b.
Proof.
  unfold identity, budgeted. intros Hsame.
  injection Hsame as _ _ _ Htokens Hbudget _.
  rewrite Htokens, Hbudget. tauto.
Qed.

Lemma Forall_identity (P : Account.t -> Prop) (l l' : list Account.t) :
  (forall a b, identity a = identity b -> P a -> P b) ->
  Permutation (map identity l) (map identity l') ->
  Forall P l -> Forall P l'.
Proof.
  intros Hsame Hperm Hall. apply Forall_forall. intros b Hb.
  assert (Hin : In (identity b) (map identity l)).
  { eapply Permutation_in; [apply Permutation_sym, Hperm |].
    apply in_map. exact Hb. }
  apply in_map_iff in Hin. destruct Hin as (a & Heq & Ha).
  apply (Hsame a b Heq). rewrite Forall_forall in Hall. apply Hall, Ha.
Qed.

Lemma tokenContracts_identity (l l' : list Account.t) :
  Permutation (map identity l) (map identity l') ->
  Permutation (tokenContracts l) (tokenContracts l').
Proof.
  intros Hperm. unfold tokenContracts.
  assert (Hvia : forall accounts,
             flat_map (fun a => map Token.Contract (Account.Tokens a)) accounts
             = flat_map (fun i => map Token.Contract (snd (fst (fst i))))
                 (map identity accounts)).
  { induction accounts as [| a rest IH]; simpl; [reflexivity |].
    rewrite IH. reflexivity. }
  rewrite !Hvia.
  induction Hperm as [| i s s' _ IH | i j s | s s' s'' _ IH1 _ IH2]; simpl.
  - apply Permutation_refl.
  - apply Permutation_app_head. exact IH.
  - rewrite !app_assoc. apply Permutation_app_tail. apply Permutation_app_comm.
  - eapply perm_trans; eassumption.
Qed.

Lemma transferTokens_affordable (destinationAddress : common.Address)
    (gasPrice : Z) (accounts : list Account.t) :
  forall transactions : list (TransactionWithOriginator Signature),
    (forall tx chainId key, SignTx tx chainId key <> None) ->
    0 <= gasPrice ->
    Forall (fun a =>
              Forall (fun t => 0 <= Token.GasLimit t < 2 ^ 63)
                (Account.Tokens a)
              /\ gasPrice * tokensGas (Account.Tokens a) <= Account.Balance a)
      accounts ->
    exists emitted,
      snd (transferTokens SignTx destinationAddress gasPrice accounts
             transactions) = transactions ++ emitted
      /\ Permutation (map (fun t => Transaction.To (Tx (SignedTx t))) emitted)
           (tokenContracts accounts)
      /\ Forall (fun a => 0 <= Account.Balance a)
           (fst (transferTokens SignTx destinationAddress gasPrice accounts
                   transactions)).
Proof.
  induction accounts as [| account rest IH];
    intros transactions Hsigns Hprice Hall.
  - exists []. simpl. rewrite app_nil_r. repeat constructor.
  - inversion Hall as [| ? ? (Hlimits & Hcovers) Hrest]; subst.
    cbn [transferTokens].
    destruct (sweepAccount SignTx destinationAddress gasPrice account
                transactions) as [account' transactions1] eqn:Hsweep.
    unfold sweepAccount in Hsweep.
    set (tokens := sortSlice lessTokens (Account.Tokens account)) in *.
    assert (Hperm : Permutation (Account.Tokens account) tokens)
      by apply sortSlice_perm.
    destruct (@sweep_fold_affordable Signature SignTx destinationAddress
                gasPrice tokens (Account.set_Tokens account tokens)
                transactions)
      as (swept & Hsnd & Hto & Hbalance).
    { intros tx. apply Hsigns. }
    { exact Hprice. }
    { eapply Permutation_Forall; eassumption. }
    { rewrite <- (tokensGas_perm Hperm). exact Hcovers. }
    rewrite Hsweep in Hsnd, Hbalance. cbn [fst snd] in Hsnd, Hbalance.
    destruct (IH transactions1 Hsigns Hprice Hrest)
      as (emitted & Hemitted & Hcontracts & Hsolvent).
    destruct (transferTokens SignTx destinationAddress gasPrice rest
                transactions1) as [rest' transactions2].
    cbn [fst snd] in *.
    exists (swept ++ emitted).
    split; [rewrite Hemitted, Hsnd, <- app_assoc; reflexivity |].
    split.
    + rewrite map_app. unfold tokenContracts. cbn [flat_map].
      apply Permutation_app; [| exact Hcontracts].
      rewrite Hto. apply Permutation_map, Permutation_sym, Hperm.
    + constructor; [| exact Hsolvent].
      rewrite Hbalance. cbn [Account.set_Tokens Account.Balance].
      rewrite <- (tokensGas_perm Hperm). lia.
Qed.

(** X27: When the gas redistribution ends with every account in surplus, the
    token sweep takes every token: if the signer never fails, the gas
    price is not negative, and every account's gas budget covers the gas
    limits of its tokens (each below 2^63), then [transferTokens], run on
    the accounts [transferGas] returns, emits exactly one transfer call
    for each token of each input account and leaves no balance negative. *)
Theorem funded_run_sweeps_every_token (fuel : nat)
    (destinationAddress : common.Address) (gasPrice : Z)
    (accounts : list Account.t) :
  (forall tx chainId key, SignTx tx chainId key <> None) ->
  0 <= gasPrice ->
  Forall budgeted accounts ->
  match transferGas SignTx fuel gasPrice accounts [] with
  | Returned (updatedAccounts, _) =>
      Forall (inSurplus gasPrice) updatedAccounts ->
      let result :=
        transferTokens SignTx destinationAddress gasPrice updatedAccounts [] in
      Permutation
        (map (fun t => Transaction.To (Tx (SignedTx t))) (snd result))
        (tokenContracts accounts)
      /\ Forall (fun a => 0 <= Account.Balance a) (fst result)
  | _ => True
  end.
Proof.
  intros Hsigns Hprice Hbudget.
  destruct (transferGas SignTx fuel gasPrice accounts [])
    as [[updatedAccounts gasTransactions] | |] eqn:Hgas; try exact I.
  intros Hsurplus result.
  pose proof (gasRounds_identity (transferGas_rounds _ _ _ _ _ Hgas))
    as Hidentity.
  assert (Hbudget' : Forall budgeted updatedAccounts)
    by (eapply Forall_identity;
        [exact budgeted_identity | exact Hidentity | exact Hbudget]).
  assert (Hall : Forall (fun a =>
                           Forall (fun t => 0 <= Token.GasLimit t < 2 ^ 63)
                             (Account.Tokens a)
                           /\ gasPrice * tokensGas (Account.Tokens a)
                              <= Account.Balance a) updatedAccounts).
  { apply Forall_forall. intros a Hin.
    rewrite Forall_forall in Hbudget', Hsurplus.
    destruct (Hbudget' a Hin) as (Hcovered & Hlimits).
    destruct (Hsurplus a Hin) as (Hsurplus_a & _).
    unfold Account.TotalAssetTransferPrice in Hsurplus_a.
    split; [exact Hlimits | nia]. }
  destruct (transferTokens_affordable destinationAddress
              (@nil (TransactionWithOriginator Signature)) Hsigns Hprice Hall)
    as (emitted & Hemitted & Hcontracts & Hsolvent).
  fold result in Hemitted, Hsolvent. simpl in Hemitted.
  split; [| exact Hsolvent].
  rewrite Hemitted.
  eapply perm_trans; [exact Hcontracts |].
  apply Permutation_sym, tokenContracts_identity, Hidentity.
Qed.
End FundedSweep.

Lemma funded_run_sweeps_every_token_witness :
  (forall tx chainId key, alwaysSigns tx chainId key <> None)
  /\ 0 <= 1
  /\ Forall budgeted [donorAccount; holderAccount]
  /\ exists updatedAccounts gasTransactions,
       transferGas alwaysSigns 5 1 [donorAccount; holderAccount] []
       = Returned (updatedAccounts, gasTransactions)
       /\ length gasTransactions = 1%nat
       /\ Forall (inSurplus 1) updatedAccounts
       /\ Permutation
            (map (fun t => Transaction.To (Tx (SignedTx t)))
               (snd (transferTokens alwaysSigns (exampleAddress 9) 1
                       updatedAccounts [])))
            (tokenContracts [donorAccount; holderAccount]).
Proof.
  assert (H0 : forall tx chainId key, alwaysSigns tx chainId key <> None)
    by (intros tx chainId key; discriminate).
  assert (H1 : 0 <= 1) by lia.
  assert (H2 : Forall budgeted [donorAccount; holderAccount]).
  { repeat constructor; simpl; try lia; vm_compute; discriminate. }
  split; [exact H0 |]. split; [exact H1 |]. split; [exact H2 |].
  pose proof (@funded_run_sweeps_every_token unit alwaysSigns 5
                (exampleAddress 9) 1 [donorAccount; holderAccount] H0 H1 H2)
    as H.
  destruct (transferGas alwaysSigns 5 1 [donorAccount; holderAccount] [])
    as [[updatedAccounts gasTransactions] | |] eqn:Hrun;
    try (vm_compute in Hrun; discriminate).
  exists updatedAccounts, gasTransactions. split; [reflexivity |].
  vm_compute in Hrun. injection Hrun as <- <-.
  split; [reflexivity |].
  assert (Hsurplus :
            Forall (inSurplus 1)
              [Account.mk 2 2 (exampleAddress 2)
                 [Token.mk exampleContract 10 "A" 18 100] 100 100 0 0 1;
               Account.mk 1 1 (exampleAddress 1) [] 978900 0 978900 1 1]).
  { repeat constructor; simpl; try lia; vm_compute; discriminate. }
  split; [exact Hsurplus |].
  exact (proj1 (H Hsurplus)).
Defined.
